(** * Batched embedding pipeline: shallow embedding and verification

    The development follows [surprise_models/generate_embeddings_batched.py]:
    the path arithmetic of the locator (lines 39-47), the frame loader
    (lines 49-52), the per-frame validation loop (lines 57-71), the batch
    encoder (lines 78-87), the index realigner (lines 90-98), the archive
    writer (lines 100-102) and the per-chunk exception handler of the
    driver loop (lines 37-38, 104-106).

    External collaborators (PIL, the LLaVA processor, the vision tower,
    torch reductions, the safetensors writer) are fields of an
    environment record; everything written in the script itself is a
    definition below. *)

From Stdlib Require Import ZArith String Ascii List Lia Bool Sorted.
From stdpp Require Import base option list gmap strings.

Local Open Scope string_scope.
Local Open Scope list_scope.
Local Open Scope nat_scope.

(** ** Python exceptions and fallible results *)

Inductive exn :=
  | IndexError
  | StopIteration
  | KeyError
  | TypeError
  | ValueError
  | RuntimeError
  | OSError
  | FileExistsError
  | External (msg : string).

Inductive Exc (A : Type) :=
  | Ok (a : A)
  | Raise (e : exn).
Arguments Ok {A} a.
Arguments Raise {A} e.

(** ** Strings: the few [str] methods the script calls *)

Module Str.

(** [s.replace(old, new)] for one-character [old] and [new]. *)
Fixpoint replace_char (old new : ascii) (s : string) : string :=
  match s with
  | EmptyString => EmptyString
  | String c r =>
      String (if Ascii.eqb c old then new else c) (replace_char old new r)
  end.

(** [s.split("/")]. *)
Fixpoint split_slash (s : string) : list string :=
  match s with
  | EmptyString => [EmptyString]
  | String c r =>
      if Ascii.eqb c "/" then EmptyString :: split_slash r
      else match split_slash r with
           | [] => [String c EmptyString]
           | h :: t => String c h :: t
           end
  end.

(** ["/".join(parts)]. *)
Fixpoint join_slash (parts : list string) : string :=
  match parts with
  | [] => EmptyString
  | [p] => p
  | p :: rest => p +:+ String "/" (join_slash rest)
  end.

(** [s.rfind(".")], [None] standing for -1. *)
Fixpoint rfind_dot (s : string) : option nat :=
  match s with
  | EmptyString => None
  | String c r =>
      match rfind_dot r with
      | Some i => Some (S i)
      | None => if Ascii.eqb c "." then Some 0 else None
      end
  end.

Definition lower_ascii (c : ascii) : ascii :=
  let n := nat_of_ascii c in
  if (65 <=? n) && (n <=? 90) then ascii_of_nat (n + 32) else c.

(** [s.lower()] on ASCII text. *)
Fixpoint lower (s : string) : string :=
  match s with
  | EmptyString => EmptyString
  | String c r => String (lower_ascii c) (lower r)
  end.

(** [sub in s]. *)
Fixpoint contains (sub s : string) : bool :=
  String.prefix sub s ||
  match s with
  | EmptyString => false
  | String _ r => contains sub r
  end.

Definition has_char (c : ascii) (s : string) : bool :=
  contains (String c EmptyString) s.

End Str.

(** ** Paths: [pathlib.PurePosixPath] through its [parts] *)

(** A path is its tuple of parts; an absolute path starts with the part
    ["/"], as [Path.parts] has it. *)
Definition Path := list string.

Module Pth.

Definition is_absolute (p : Path) : bool :=
  match p with
  | root :: _ => String.eqb root "/"
  | [] => false
  end.

Definition keep_part (s : string) : bool :=
  negb (String.eqb s "") && negb (String.eqb s ".").

(** [Path(s)]: empty and ["."] components vanish, a leading slash
    becomes the root part. *)
Definition parse (s : string) : Path :=
  (if String.prefix "/" s then ["/"] else [])
    ++ List.filter keep_part (Str.split_slash s).

(** [str(p)]. *)
Definition to_str (p : Path) : string :=
  match p with
  | [] => "."
  | root :: rest =>
      if String.eqb root "/" then String "/" (Str.join_slash rest)
      else Str.join_slash p
  end.

(** [p.parent]. *)
Definition parent (p : Path) : Path :=
  match p with
  | [] => []
  | [root] => if String.eqb root "/" then p else []
  | _ => removelast p
  end.

(** [p.name]. *)
Definition name (p : Path) : string :=
  match List.last p "" with
  | n => if is_absolute p && (length p =? 1) then "" else n
  end.

(** [p.stem]: the name without its last suffix. *)
Definition stem (p : Path) : string :=
  let n := name p in
  match Str.rfind_dot n with
  | Some i =>
      if (0 <? i) && (i <? String.length n - 1) then String.substring 0 i n
      else n
  | None => n
  end.

(** [p / q]. *)
Definition joinpath (p q : Path) : Path :=
  if is_absolute q then q else p ++ q.

Fixpoint is_prefix (base p : Path) : bool :=
  match base, p with
  | [], _ => true
  | b :: base', x :: p' => String.eqb b x && is_prefix base' p'
  | _ :: _, [] => false
  end.

(** [p.relative_to(base)]. *)
Definition relative_to (p base : Path) : Exc Path :=
  if is_prefix base p then Ok (drop (length base) p) else Raise ValueError.

End Pth.

(** The two roots of the script (lines 11-12). *)
Definition BASE_DIR : Path :=
  Pth.parse
    "/deepfreeze/share_read_only/surprise_driving/comma2k19/chunks_processed_backup".

Definition OUTPUT_DIR : Path :=
  Pth.parse
    "/deepfreeze/user_shares/kennethvuong/surprise_driving/comma2k19/chunks_embedded_backup".

(** Lines 39-44: the output path of a chunk. *)
Definition safe_rel_path (rel_path : Path) : Path :=
  Pth.parse (Str.replace_char "|" "_" (Pth.to_str rel_path)).

Definition chunk_name (chunk_path : Path) : string :=
  Str.replace_char "|" "_" (Pth.stem chunk_path).

Definition output_dir (rel_path : Path) : Path :=
  Pth.joinpath OUTPUT_DIR (Pth.parent (safe_rel_path rel_path)).

Definition output_path_of (chunk_path rel_path : Path) : Path :=
  Pth.joinpath (output_dir rel_path)
    (Pth.parse (chunk_name chunk_path +:+ "_embedded.safetensors")).

Definition output_path (chunk_path : Path) : Exc Path :=
  match Pth.relative_to chunk_path BASE_DIR with
  | Ok rel_path => Ok (output_path_of chunk_path rel_path)
  | Raise e => Raise e
  end.

(** ** Tensors: a shape with the elements in row-major order *)

Record tensor (A : Type) := Tensor { shape : list nat; elems : list A }.
Arguments Tensor {A} shape elems.
Arguments shape {A} t.
Arguments elems {A} t.

Definition numel (sh : list nat) : nat := foldr Nat.mul 1 sh.

Definition ndim {A} (t : tensor A) : nat := length (shape t).

(** Every tensor of torch or numpy holds as many elements as its shape says. *)
Definition well_shaped {A} (t : tensor A) : Prop :=
  length (elems t) = numel (shape t).

(** The [i]-th block of [size] elements. *)
Definition block {A} (size i : nat) (l : list A) : list A :=
  take size (drop (i * size) l).

(** [t[i]]. *)
Definition tensor_get {A} (t : tensor A) (i : nat) : Exc (tensor A) :=
  match shape t with
  | [] => Raise IndexError
  | n :: rest =>
      if i <? n then Ok (Tensor rest (block (numel rest) i (elems t)))
      else Raise IndexError
  end.

(** [list(t)]: iteration runs over the first axis. *)
Definition tensor_rows {A} (t : tensor A) : Exc (list (tensor A)) :=
  match shape t with
  | [] => Raise TypeError
  | n :: rest =>
      Ok (map (fun i => Tensor rest (block (numel rest) i (elems t))) (seq 0 n))
  end.

(** [count] consecutive groups of [size] elements. *)
Fixpoint groups {A} (count size : nat) (l : list A) : list (list A) :=
  match count with
  | 0 => []
  | S count' => take size l :: groups count' size (drop size l)
  end.

(** [t[..., :n]]. *)
Definition take_channels {A} (n : nat) (t : tensor A) : Exc (tensor A) :=
  match last (shape t) with
  | None => Raise IndexError
  | Some c =>
      let outer := removelast (shape t) in
      Ok (Tensor (outer ++ [Nat.min n c])
            (concat (map (take n) (groups (numel outer) c (elems t)))))
  end.

Fixpoint shape_eqb (s1 s2 : list nat) : bool :=
  match s1, s2 with
  | [], [] => true
  | a :: s1', b :: s2' => (a =? b) && shape_eqb s1' s2'
  | _, _ => false
  end.

(** [torch.stack(ts)]. *)
Definition stack {A} (ts : list (tensor A)) : Exc (tensor A) :=
  match ts with
  | [] => Raise RuntimeError
  | t0 :: _ =>
      if forallb (fun t => shape_eqb (shape t) (shape t0)) ts
      then Ok (Tensor (length ts :: shape t0) (concat (map elems ts)))
      else Raise RuntimeError
  end.

(** [t.view(-1, *t.shape[-3:])] on a tensor of rank 5 (line 83). *)
Definition view_patches {A} (t : tensor A) : Exc (tensor A) :=
  match shape t with
  | [b; n; c; h; w] =>
      if c * h * w =? 0 then Raise RuntimeError
      else Ok (Tensor [b * n; c; h; w] (elems t))
  | _ => Raise RuntimeError
  end.

(** ** Frame classification (lines 60-68) *)

Inductive drop_reason := Grayscale | UnexpectedChannels.

Inductive FrameRecord :=
  | Valid (image : tensor Z)
  | Dropped (why : drop_reason).

Definition classify (frame : tensor Z) : Exc FrameRecord :=
  if ndim frame =? 2 then Ok (Dropped Grayscale)
  else
    match last (shape frame) with
    | None => Raise IndexError
    | Some c =>
        if c =? 4 then
          match take_channels 3 frame with
          | Ok rgb => Ok (Valid rgb)
          | Raise e => Raise e
          end
        else if negb (c =? 3) then Ok (Dropped UnexpectedChannels)
        else Ok (Valid frame)
    end.

Definition is_valid (frame : tensor Z) : bool :=
  match classify frame with
  | Ok (Valid _) => true
  | _ => false
  end.

Definition PROMPT : string := "Describe the driving scene.".

(** [d[key]] on a dict kept as an association list in insertion order. *)
Fixpoint dict_get {V} (key : string) (d : list (string * V)) : Exc V :=
  match d with
  | [] => Raise KeyError
  | (k, v) :: rest => if String.eqb k key then Ok v else dict_get key rest
  end.

(** Mapping a fallible function over a list, left to right. *)
Fixpoint mapE {A B} (f : A -> Exc B) (l : list A) : Exc (list B) :=
  match l with
  | [] => Ok []
  | a :: rest =>
      match f a with
      | Raise e => Raise e
      | Ok b =>
          match mapE f rest with
          | Raise e => Raise e
          | Ok bs => Ok (b :: bs)
          end
      end
  end.

(** ** The world: files, the trace of observable events, the environment *)

Declare Scope pipeline_scope.
Delimit Scope pipeline_scope with pipeline.

Section Pipeline.

(** [F] is the float type of torch, [Image] the type of [PIL.Image]. *)
Context {F Image : Type} (fzero : F).

(** A named tensor of an archive: integer or floating point. *)
Inductive stored :=
  | IntT (t : tensor Z)
  | FloatT (t : tensor F).

Definition archive := list (string * stored).

Inductive content :=
  | Archive (a : archive)
  | Garbage.

Inductive node :=
  | Dir
  | File (c : content).

Inductive message :=
  | MsgSkipping (name : string)
  | MsgGrayscale (name : string) (i : nat)
  | MsgRGBA (name : string) (i : nat)
  | MsgUnexpected (name : string) (i : nat) (sh : list nat)
  | MsgNoValid (name : string)
  | MsgProcessed (rel out : Path)
  | MsgFailed (chunk : Path) (e : exn).

Inductive event :=
  | Write (m : message)
  | PrintExc (e : exn)
  | SafeOpen (p : Path)
  | CallProcessor (images : list Image) (text : list string)
  | CallVisionTower (pixel_values : tensor F)
  | Mkdir (p : Path)
  | SaveFile (a : archive) (p : Path).

Record World := mkWorld { files : gmap Path node; trace : list event }.

(** What [save_file] does at a path: it completes, or it raises before
    anything is written, or it raises with the file already created. *)
Inductive save_result :=
  | SaveOk
  | SaveFailsClean (e : exn)
  | SaveFailsPartial (e : exn).

(** The external collaborators. *)
Record Env := mkEnv {
  fromarray : tensor Z -> Exc Image;
  processor : list Image -> list string -> Exc (list (string * tensor F));
  to_device : tensor F -> Exc (tensor F);
  vision_tower : tensor F -> Exc (tensor F);
  mean_dim1 : tensor F -> Exc (tensor F);
  float_to_uint8 : F -> Z;
  save_outcome : Path -> archive -> save_result
}.

Context (E : Env).

(** *** A state and exception monad over the world *)

Definition M (A : Type) : Type := World -> World * Exc A.

Definition ret {A} (a : A) : M A := fun w => (w, Ok a).

Definition raise {A} (e : exn) : M A := fun w => (w, Raise e).

Definition lift {A} (r : Exc A) : M A := fun w => (w, r).

Definition bind {A B} (m : M A) (k : A -> M B) : M B :=
  fun w =>
    match m w with
    | (w', Ok a) => k a w'
    | (w', Raise e) => (w', Raise e)
    end.

Definition emit (ev : event) : M unit :=
  fun w => (mkWorld (files w) (trace w ++ [ev]), Ok tt).

Definition get_files : M (gmap Path node) := fun w => (w, Ok (files w)).

Definition put_files (fs : gmap Path node) : M unit :=
  fun w => (mkWorld fs (trace w), Ok tt).

Notation "x <- m ;; k" := (bind m (fun x => k))
  (at level 100, m at next level, right associativity) : pipeline_scope.
Notation "m ;;; k" := (bind m (fun _ => k))
  (at level 100, right associativity) : pipeline_scope.
Local Open Scope pipeline_scope.

Definition tqdm_write (m : message) : M unit := emit (Write m).

(** *** Frame loader (lines 49-52) *)

Definition is_frame_key (k : string) : bool :=
  Str.contains "frame" (Str.lower k).

Definition load_frame_data (chunk_path : Path) : M stored :=
  emit (SafeOpen chunk_path) ;;;
  fs <- get_files ;;
  match fs !! chunk_path with
  | Some (File (Archive a)) =>
      match List.find is_frame_key (map fst a) with
      | None => raise StopIteration
      | Some frame_key => lift (dict_get frame_key a)
      end
  | _ => raise OSError
  end.

Definition stored_shape (t : stored) : list nat :=
  match t with
  | IntT t => shape t
  | FloatT t => shape t
  end.

(** [t.numpy().astype("uint8")]. *)
Definition astype_uint8 (t : stored) : tensor Z :=
  match t with
  | IntT t => Tensor (shape t) (map (fun z => (z mod 256)%Z) (elems t))
  | FloatT t => Tensor (shape t) (map (float_to_uint8 E) (elems t))
  end.

Definition stored_block (rest : list nat) (i : nat) (t : stored) : stored :=
  match t with
  | IntT t => IntT (Tensor rest (block (numel rest) i (elems t)))
  | FloatT t => FloatT (Tensor rest (block (numel rest) i (elems t)))
  end.

(** The frames the loop of line 57 visits:
    [frame_data[i].numpy().astype("uint8")] for [i] in
    [range(frame_data.shape[0])]. *)
Definition frames_of (frame_data : stored) : Exc (list (tensor Z)) :=
  match stored_shape frame_data with
  | [] => Raise IndexError
  | n :: rest =>
      Ok (map (fun i => astype_uint8 (stored_block rest i frame_data))
            (seq 0 n))
  end.

(** *** Frame normalizer (lines 54-71) *)

Definition check_frame (name : string) (i : nat) (frame : tensor Z)
  : M FrameRecord :=
  if ndim frame =? 2 then
    tqdm_write (MsgGrayscale name i) ;;; ret (Dropped Grayscale)
  else
    match last (shape frame) with
    | None => raise IndexError
    | Some c =>
        if c =? 4 then
          tqdm_write (MsgRGBA name i) ;;;
          rgb <- lift (take_channels 3 frame) ;;
          ret (Valid rgb)
        else if negb (c =? 3) then
          tqdm_write (MsgUnexpected name i (shape frame)) ;;;
          ret (Dropped UnexpectedChannels)
        else ret (Valid frame)
    end.

Fixpoint validate_loop (name : string) (i : nat) (frames : list (tensor Z))
    (valid_images : list Image) (valid_indices : list nat)
  : M (list Image * list nat) :=
  match frames with
  | [] => ret (valid_images, valid_indices)
  | frame :: rest =>
      r <- check_frame name i frame ;;
      match r with
      | Dropped _ => validate_loop name (S i) rest valid_images valid_indices
      | Valid arr =>
          img <- lift (fromarray E arr) ;;
          validate_loop name (S i) rest
            (valid_images ++ [img]) (valid_indices ++ [i])
      end
  end.

(** *** Batch encoder (lines 78-87) *)

Definition move_inputs (inputs : list (string * tensor F))
  : Exc (list (string * tensor F)) :=
  mapE (fun kv =>
          match to_device E (snd kv) with
          | Ok v => Ok (fst kv, v)
          | Raise e => Raise e
          end) inputs.

Definition encode_batch (valid_images : list Image) : M (tensor F) :=
  let text := replicate (length valid_images) PROMPT in
  emit (CallProcessor valid_images text) ;;;
  inputs <- lift (processor E valid_images text) ;;
  inputs <- lift (move_inputs inputs) ;;
  pixel_values <- lift (dict_get "pixel_values" inputs) ;;
  pixel_values <-
    (if ndim pixel_values =? 5 then lift (view_patches pixel_values)
     else ret pixel_values) ;;
  emit (CallVisionTower pixel_values) ;;;
  vision_features <- lift (vision_tower E pixel_values) ;;
  pooled <- lift (mean_dim1 E vision_features) ;;
  ret pooled.

(** *** Index realigner (lines 90-98) *)

(** [for idx, emb in pairs: embeddings[idx] = emb]. *)
Fixpoint scatter (embeddings : list (option (tensor F)))
    (pairs : list (nat * tensor F)) : Exc (list (option (tensor F))) :=
  match pairs with
  | [] => Ok embeddings
  | (idx, emb) :: rest =>
      if idx <? length embeddings
      then scatter (<[idx := Some emb]> embeddings) rest
      else Raise IndexError
  end.

Definition zeros_like (t : tensor F) : tensor F :=
  Tensor (shape t) (replicate (numel (shape t)) fzero).

(** [emb if emb is not None else torch.zeros_like(pooled[0])]. *)
Definition fill_zero (pooled : tensor F) (emb : option (tensor F))
  : Exc (tensor F) :=
  match emb with
  | Some e => Ok e
  | None =>
      match tensor_get pooled 0 with
      | Ok row => Ok (zeros_like row)
      | Raise e => Raise e
      end
  end.

Definition realign (frame_count : nat) (valid_indices : list nat)
    (pooled : tensor F) : Exc (tensor F) :=
  match tensor_rows pooled with
  | Raise e => Raise e
  | Ok rows =>
      match scatter (replicate frame_count None) (zip valid_indices rows) with
      | Raise e => Raise e
      | Ok embeddings =>
          match mapE (fill_zero pooled) embeddings with
          | Raise e => Raise e
          | Ok filled => stack filled
          end
      end
  end.

(** *** Archive writer (lines 100-101) *)

(** [p.mkdir(parents=True, exist_ok=True)]: every missing ancestor and
    [p] itself become directories; a file in the way raises and
    nothing is created. *)
Fixpoint mkdir_from (done todo : Path) (fs : gmap Path node)
  : Exc (gmap Path node) :=
  match todo with
  | [] => Ok fs
  | part :: rest =>
      let p := done ++ [part] in
      match fs !! p with
      | Some (File _) => Raise FileExistsError
      | Some Dir => mkdir_from p rest fs
      | None => mkdir_from p rest (<[p := Dir]> fs)
      end
  end.

Definition mkdir (p : Path) : M unit :=
  emit (Mkdir p) ;;;
  fs <- get_files ;;
  fs' <- lift (mkdir_from [] p fs) ;;
  put_files fs'.

(** [save_file(a, str(p))]: the target must not be a directory and its
    parent must be one; the environment decides how the write ends. *)
Definition save_file (a : archive) (p : Path) : M unit :=
  emit (SaveFile a p) ;;;
  fs <- get_files ;;
  match fs !! p, fs !! Pth.parent p with
  | Some Dir, _ => raise OSError
  | _, Some Dir =>
      match save_outcome E p a with
      | SaveOk => put_files (<[p := File (Archive a)]> fs)
      | SaveFailsClean e => raise e
      | SaveFailsPartial e => put_files (<[p := File Garbage]> fs) ;;; raise e
      end
  | _, _ => raise OSError
  end.

(** *** One iteration of the driver loop (lines 37-106) *)

Inductive status := AlreadyProcessed | NoValidFrames | Processed.

Inductive outcome :=
  | Finished (s : status)
  | Failed (e : exn).

(** Lines 54-98: from the frames to [embedding_data]; [None] is the
    [continue] of line 75. *)
Definition embed_frames (name : string) (frames : list (tensor Z))
  : M (option (tensor F)) :=
  valid <- validate_loop name 0 frames [] [] ;;
  let '(valid_images, valid_indices) := valid in
  match valid_images with
  | [] => tqdm_write (MsgNoValid name) ;;; ret None
  | _ :: _ =>
      pooled <- encode_batch valid_images ;;
      embedding_data <- lift (realign (length frames) valid_indices pooled) ;;
      ret (Some embedding_data)
  end.

(** The dict of line 101. *)
Definition output_archive (frame_data : stored) (embedding_data : tensor F)
  : archive :=
  [("frame_data", frame_data); ("embedding_data", FloatT embedding_data)].

(** The body of the [try]. *)
Definition process_body (chunk_path : Path) : M status :=
  rel_path <- lift (Pth.relative_to chunk_path BASE_DIR) ;;
  let name := chunk_name chunk_path in
  let out := output_path_of chunk_path rel_path in
  fs <- get_files ;;
  match fs !! out with
  | Some _ => tqdm_write (MsgSkipping name) ;;; ret AlreadyProcessed
  | None =>
      frame_data <- load_frame_data chunk_path ;;
      frames <- lift (frames_of frame_data) ;;
      r <- embed_frames name frames ;;
      match r with
      | None => ret NoValidFrames
      | Some embedding_data =>
          mkdir (output_dir rel_path) ;;;
          save_file (output_archive frame_data embedding_data) out ;;;
          tqdm_write (MsgProcessed rel_path out) ;;;
          ret Processed
      end
  end.

(** [try: ... except Exception as e: ...]. *)
Definition process_chunk (chunk_path : Path) (w : World) : World * outcome :=
  match process_body chunk_path w with
  | (w', Ok s) => (w', Finished s)
  | (w', Raise e) =>
      (mkWorld (files w')
         (trace w' ++ [Write (MsgFailed chunk_path e); PrintExc e]),
       Failed e)
  end.

(** [for chunk_path in chunk_paths: ...], for the list of chunk paths
    that lines 30-33 collected. *)
Fixpoint main_loop (chunk_paths : list Path) (w : World)
  : World * list outcome :=
  match chunk_paths with
  | [] => (w, [])
  | chunk_path :: rest =>
      let (w1, o) := process_chunk chunk_path w in
      let (w2, os) := main_loop rest w1 in
      (w2, o :: os)
  end.

End Pipeline.

(** ** Vocabulary of the statements *)

Definition bar_to_underscore : string -> string := Str.replace_char "|" "_".

Fixpoint no_slash (s : string) : bool :=
  match s with
  | EmptyString => true
  | String c r => negb (Ascii.eqb c "/") && no_slash r
  end.

(** A path component as [Path.parts] yields them below the root:
    non-empty, not ["."], without a separator. *)
Definition plain (s : string) : bool := no_slash s && Pth.keep_part s.

(** The output path in the words of the specification: the relative
    path with every separator and every bar replaced by an underscore,
    the stem suffixed before the archive extension. *)
Definition spec_output_path (rel_path : Path) : Path :=
  let flat :=
    Str.replace_char "/" "_" (bar_to_underscore (Pth.to_str rel_path)) in
  OUTPUT_DIR ++ [Pth.stem [flat] +:+ "_embedded.safetensors"].

(** The frames classified Valid with their indices, counted from [i]. *)
Fixpoint valid_frames (i : nat) (frames : list (tensor Z))
  : list (nat * tensor Z) :=
  match frames with
  | [] => []
  | frame :: rest =>
      match classify frame with
      | Ok (Valid arr) => (i, arr) :: valid_frames (S i) rest
      | _ => valid_frames (S i) rest
      end
  end.

(** The trace only grows. *)
Definition extends {F Image : Type} (w w' : @World F Image) : Prop :=
  exists evs, trace w' = trace w ++ evs.

(** No file or directory disappears. *)
Definition keeps {F Image : Type} (w w' : @World F Image) : Prop :=
  forall p, is_Some (files w !! p) -> is_Some (files w' !! p).

(** What lines 78-87 compute from a batch of images: the trace aside,
    the encoder does not depend on the world. *)
Definition extract {F Image : Type} (E : @Env F Image) (images : list Image)
  : Exc (tensor F) :=
  snd (encode_batch E images (mkWorld ∅ [])).

(** The batches handed to the processor, in the order of the calls. *)
Fixpoint processor_calls {F Image : Type} (evs : list (@event F Image))
  : list (list Image) :=
  match evs with
  | [] => []
  | CallProcessor images _ :: rest => images :: processor_calls rest
  | _ :: rest => processor_calls rest
  end.

(** The two claims that fail, in the words of the specification. *)

(** Idempotence: a second run over the same chunks skips every chunk
    as already processed and changes no file. *)
Definition second_run_skips_every_chunk {F Image : Type} (fzero : F)
    (E : @Env F Image) (chunk_paths : list Path) (w : @World F Image) : Prop :=
  let w1 := fst (main_loop fzero E chunk_paths w) in
  Forall (fun o => o = Finished AlreadyProcessed)
    (snd (main_loop fzero E chunk_paths w1)) /\
  files (fst (main_loop fzero E chunk_paths w1)) = files w1.

(** Atomic output: after a chunk was handled, its output path holds
    both tensors or nothing. *)
Definition both_or_nothing {F Image : Type} (w : @World F Image) (out : Path)
  : Prop :=
  files w !! out = None \/
  exists fd ed, files w !! out = Some (File (Archive (output_archive fd ed))).

Definition written_atomically {F Image : Type} (fzero : F)
    (E : @Env F Image) (chunk_path : Path) (w : @World F Image) : Prop :=
  forall out,
    output_path chunk_path = Ok out ->
    files w !! out = None ->
    both_or_nothing (fst (process_chunk fzero E chunk_path w)) out.

(** ** Concrete environments and worlds *)

Module Demo.

(** Floats are integers and an image is the array it was built from. *)
Definition image := tensor Z.

(** A vision tower that turns each of the [m] inputs into one token. *)
Definition tower (t : tensor Z) : Exc (tensor Z) :=
  match shape t with
  | [m; c; h; w] => Ok (Tensor [m; 1; c * h * w] (elems t))
  | _ => Raise RuntimeError
  end.

(** The mean over a token axis of length one. *)
Definition mean1 (t : tensor Z) : Exc (tensor Z) :=
  match shape t with
  | m :: 1 :: rest => Ok (Tensor (m :: rest) (elems t))
  | _ => Raise RuntimeError
  end.

(** A processor with one 3x1x1 view per image: [B, 3, 1, 1]. *)
Definition processor4 (imgs : list image) (text : list string)
  : Exc (list (string * tensor Z)) :=
  Ok [("input_ids", Tensor [length imgs; 1] (replicate (length imgs) 0%Z));
      ("pixel_values",
       Tensor [length imgs; 3; 1; 1] (concat (map elems imgs)))].

(** A processor with two patches per image, [B, 2, 3, 1, 1]: the image
    itself and a second view of it (every pixel plus 100). *)
Definition processor5 (imgs : list image) (text : list string)
  : Exc (list (string * tensor Z)) :=
  Ok [("input_ids", Tensor [length imgs; 1] (replicate (length imgs) 0%Z));
      ("pixel_values",
       Tensor [length imgs; 2; 3; 1; 1]
         (concat (map (fun i => elems i ++ map (Z.add 100) (elems i)) imgs)))].

Definition env_with (proc : list image -> list string
                            -> Exc (list (string * tensor Z)))
    (save : save_result) : @Env Z image :=
  mkEnv (fun a => Ok a) proc (fun t => Ok t) tower mean1
    (fun z => z) (fun _ _ => save).

Definition env : @Env Z image := env_with processor4 SaveOk.
Definition env_patches : @Env Z image := env_with processor5 SaveOk.
Definition env_disk_full : @Env Z image :=
  env_with processor4 (SaveFailsPartial OSError).

(** Frames of one pixel. *)
Definition gray : tensor Z := Tensor [1; 1] [9%Z].
Definition rgb : tensor Z := Tensor [1; 1; 3] [1; 2; 3]%Z.
Definition rgba : tensor Z := Tensor [1; 1; 4] [10; 20; 30; 255]%Z.
Definition five : tensor Z := Tensor [1; 1; 5] [1; 2; 3; 4; 5]%Z.

(** Frame tensors: two RGB frames, one RGBA frame, two grayscale frames. *)
Definition two_rgb : tensor Z := Tensor [2; 1; 1; 3] [1; 2; 3; 4; 5; 6]%Z.
Definition two_rgb' : tensor Z := Tensor [2; 1; 1; 3] [1; 2; 3; 7; 8; 9]%Z.
Definition one_rgba : tensor Z := Tensor [1; 1; 1; 4] [10; 20; 30; 255]%Z.
Definition two_gray : tensor Z := Tensor [2; 1; 1] [7; 8]%Z.

Definition chunk_bar : Path := BASE_DIR ++ ["a"; "b|c.safetensors"].
Definition chunk_underscore : Path := BASE_DIR ++ ["a"; "b_c.safetensors"].
Definition chunk_other : Path := BASE_DIR ++ ["a"; "d.safetensors"].
Definition out_bc : Path := OUTPUT_DIR ++ ["a"; "b_c_embedded.safetensors"].

Definition world_of (entries : list (Path * list (string * tensor Z)))
  : @World Z image :=
  mkWorld
    (list_to_map
       (map (fun e => (fst e,
                       File (Archive (map (fun kv => (fst kv, IntT (F:=Z) (snd kv)))
                                        (snd e)))))
          entries))
    [].

Definition w_rgb : @World Z image :=
  world_of [(chunk_bar, [("frame_data", two_rgb)])].
Definition w_rgb' : @World Z image :=
  world_of [(chunk_bar, [("frame_data", two_rgb')])].
Definition w_rgba : @World Z image :=
  world_of [(chunk_bar, [("Frames", one_rgba)])].
Definition w_gray : @World Z image :=
  world_of [(chunk_bar, [("frame_data", two_gray)])].
Definition w_nokey : @World Z image :=
  world_of [(chunk_bar, [("images", two_rgb)])].
Definition w_nokey_then_rgb : @World Z image :=
  world_of [(chunk_bar, [("images", two_rgb)]);
            (chunk_other, [("frame_data", two_rgb)])].
Definition w_both : @World Z image :=
  world_of [(chunk_bar, [("frame_data", two_rgb)]);
            (chunk_underscore, [("frame_data", two_rgb')])].

Definition w_nokey_and_sibling : @World Z image :=
  world_of [(chunk_bar, [("images", two_rgb)]);
            (chunk_underscore, [("frame_data", two_rgb')])].

End Demo.

(** ** Further vocabulary *)

Fixpoint no_bar (s : string) : bool :=
  match s with
  | EmptyString => true
  | String c r => negb (Ascii.eqb c "|") && no_bar r
  end.

(** No file stands where [p] or one of its ancestors is to become a
    directory. *)
Definition clear_for_mkdir {F : Type} (fs : gmap Path (@node F)) (p : Path)
  : bool :=
  forallb (fun k => match fs !! (take k p : Path) with
                    | Some (File _) => false
                    | _ => true
                    end)
    (seq 1 (length p)).

(** [l[:n]] for an integer [n]: a negative [n] counts from the end. *)
Definition slice_to {A} (n : Z) (l : list A) : list A :=
  if (0 <=? n)%Z then take (Z.to_nat n) l
  else take (length l - Z.to_nat (- n)) l.

(** Lines 33-34: [if MAX_FILES: chunk_paths = chunk_paths[:MAX_FILES]],
    for [MAX_FILES] set to [None] or to an integer; [None] and [0] are
    falsy. *)
Definition limit_chunks (MAX_FILES : option Z) (chunk_paths : list Path)
  : list Path :=
  match MAX_FILES with
  | None => chunk_paths
  | Some n => if (n =? 0)%Z then chunk_paths else slice_to n chunk_paths
  end.

(** The operations on the disk among the events: the calls of [mkdir]
    and of [save_file], in their order. *)
Fixpoint disk_events {F Image : Type} (evs : list (@event F Image))
  : list (@event F Image) :=
  match evs with
  | [] => []
  | Mkdir p :: rest => Mkdir p :: disk_events rest
  | SaveFile a p :: rest => SaveFile a p :: disk_events rest
  | _ :: rest => disk_events rest
  end.

(** [c] is the lower-case letter [l] or its upper-case form. *)
Definition letter_any_case (l c : ascii) : Prop :=
  c = l \/ nat_of_ascii c + 32 = nat_of_ascii l.

(** The key contains the word "frame", each letter in either case. *)
Definition mentions_frame (k : string) : Prop :=
  exists pre c1 c2 c3 c4 c5 post,
    k = pre +:+ String c1 (String c2 (String c3 (String c4 (String c5 post)))) /\
    letter_any_case "f" c1 /\ letter_any_case "r" c2 /\
    letter_any_case "a" c3 /\ letter_any_case "m" c4 /\
    letter_any_case "e" c5.

(** * Verification *)

(** ** Strings and paths *)

Lemma no_slash_split s : no_slash s = true -> Str.split_slash s = [s].
Proof.
  induction s as [|c r IH]; simpl; [done|].
  intros [Hc Hr]%andb_prop. apply negb_true_iff in Hc. rewrite Hc.
  by rewrite (IH Hr).
Qed.

Lemma split_slash_sep a b :
  no_slash a = true ->
  Str.split_slash (a +:+ String "/" b) = a :: Str.split_slash b.
Proof.
  induction a as [|c r IH]; [done|].
  change (String c r +:+ String "/" b) with (String c (r +:+ String "/" b)).
  simpl. intros [Hc Hr]%andb_prop. apply negb_true_iff in Hc. rewrite Hc.
  by rewrite (IH Hr).
Qed.

Lemma split_join parts :
  parts <> [] -> forallb no_slash parts = true ->
  Str.split_slash (Str.join_slash parts) = parts.
Proof.
  induction parts as [|p rest IH]; [done|].
  intros _ [Hp Hrest]%andb_prop. destruct rest as [|q rest].
  - simpl. by apply no_slash_split.
  - change (Str.join_slash (p :: q :: rest))
      with (p +:+ String "/" (Str.join_slash (q :: rest))).
    rewrite split_slash_sep by done. f_equal. by apply IH.
Qed.

Lemma bar_cons c r :
  bar_to_underscore (String c r)
  = String (if Ascii.eqb c "|" then "_"%char else c) (bar_to_underscore r).
Proof. reflexivity. Qed.

#[local] Arguments bar_to_underscore : simpl never.

Lemma append_cons c r b : String c r +:+ b = String c (r +:+ b).
Proof. reflexivity. Qed.

Lemma append_nil b : EmptyString +:+ b = b.
Proof. reflexivity. Qed.

Lemma bar_app a b :
  bar_to_underscore (a +:+ b) = bar_to_underscore a +:+ bar_to_underscore b.
Proof.
  induction a as [|c r IH]; [done|].
  by rewrite append_cons, !bar_cons, append_cons, IH.
Qed.

Lemma bar_join parts :
  bar_to_underscore (Str.join_slash parts)
  = Str.join_slash (map bar_to_underscore parts).
Proof.
  induction parts as [|p rest IH]; [done|].
  destruct rest as [|q rest]; [done|].
  change (Str.join_slash (p :: q :: rest))
    with (p +:+ String "/" (Str.join_slash (q :: rest))).
  rewrite bar_app, bar_cons. simpl map. rewrite IH. done.
Qed.

Lemma bar_no_slash s : no_slash (bar_to_underscore s) = no_slash s.
Proof.
  induction s as [|c r IH]; [done|]. rewrite bar_cons. simpl.
  rewrite IH. f_equal.
  destruct (Ascii.eqb c "|") eqn:Hc; [|done].
  apply Ascii.eqb_eq in Hc. by subst.
Qed.

Lemma bar_keep_part s : Pth.keep_part (bar_to_underscore s) = Pth.keep_part s.
Proof.
  destruct s as [|c [|d r]]; [done| |].
  - rewrite bar_cons. unfold Pth.keep_part.
    destruct (Ascii.eqb c "|") eqn:Hc; [|done].
    apply Ascii.eqb_eq in Hc. by subst.
  - rewrite !bar_cons. unfold Pth.keep_part. simpl.
    by do 2 destruct (Ascii.eqb _ "."%char).
Qed.

Lemma bar_plain s : plain (bar_to_underscore s) = plain s.
Proof. unfold plain. by rewrite bar_no_slash, bar_keep_part. Qed.

Lemma forallb_bar_plain parts :
  forallb plain (map bar_to_underscore parts) = forallb plain parts.
Proof.
  induction parts as [|p rest IH]; simpl; [done|]. by rewrite bar_plain, IH.
Qed.

Lemma plain_not_root s : plain s = true -> String.eqb s "/" = false.
Proof.
  intros [Hs _]%andb_prop. apply String.eqb_neq. intros ->. done.
Qed.

Lemma plain_no_slash_prefix s rest :
  plain s = true -> String.prefix "/" (s +:+ rest) = false.
Proof.
  intros [Hs Hk]%andb_prop. destruct s as [|c r]; [done|].
  rewrite append_cons.
  change (no_slash (String c r))
    with (negb (Ascii.eqb c "/") && no_slash r) in Hs.
  apply andb_prop in Hs as [Hc _]. apply negb_true_iff in Hc.
  change (String.prefix "/" (String c (r +:+ rest)))
    with (if ascii_dec "/" c then String.prefix "" (r +:+ rest) else false).
  destruct (ascii_dec "/" c) as [<-|Hne]; done.
Qed.

Lemma forallb_plain_no_slash parts :
  forallb plain parts = true -> forallb no_slash parts = true.
Proof.
  induction parts as [|p rest IH]; simpl; [done|].
  intros [[Hp _]%andb_prop Hrest]%andb_prop. rewrite Hp. by apply IH.
Qed.

Lemma filter_keep_plain parts :
  forallb plain parts = true -> List.filter Pth.keep_part parts = parts.
Proof.
  induction parts as [|p rest IH]; simpl; [done|].
  intros [[_ Hk]%andb_prop Hrest]%andb_prop. rewrite Hk. by rewrite IH.
Qed.

Lemma join_head p rest :
  exists tail, Str.join_slash (p :: rest) = p +:+ tail.
Proof.
  destruct rest as [|q rest].
  - exists EmptyString. simpl. induction p as [|c r IH]; [done|].
    rewrite append_cons. congruence.
  - by exists (String "/" (Str.join_slash (q :: rest))).
Qed.

(** Parsing the text of a relative path of plain parts gives it back. *)
Lemma parse_join parts :
  parts <> [] -> forallb plain parts = true ->
  Pth.parse (Str.join_slash parts) = parts.
Proof.
  intros Hne Hall. unfold Pth.parse.
  rewrite split_join by auto using forallb_plain_no_slash.
  rewrite filter_keep_plain by done.
  destruct parts as [|p rest]; [done|].
  destruct (join_head p rest) as [tail ->].
  apply andb_prop in Hall as [Hp _].
  by rewrite plain_no_slash_prefix.
Qed.

Lemma to_str_plain parts :
  parts <> [] -> forallb plain parts = true ->
  Pth.to_str parts = Str.join_slash parts.
Proof.
  destruct parts as [|p rest]; [done|]. intros _ [Hp _]%andb_prop.
  unfold Pth.to_str. by rewrite plain_not_root.
Qed.

Lemma safe_rel_path_plain rel_path :
  rel_path <> [] -> forallb plain rel_path = true ->
  safe_rel_path rel_path = map bar_to_underscore rel_path.
Proof.
  intros Hne Hall. unfold safe_rel_path.
  rewrite to_str_plain by done.
  fold bar_to_underscore. rewrite bar_join.
  apply parse_join.
  - by destruct rel_path.
  - by rewrite forallb_bar_plain.
Qed.

Lemma parent_snoc dirs file :
  plain file = true -> Pth.parent (dirs ++ [file]) = dirs.
Proof.
  intros Hf. destruct dirs as [|d dirs].
  - simpl. by rewrite plain_not_root.
  - transitivity (removelast ((d :: dirs) ++ [file]));
      [|apply removelast_last].
    unfold Pth.parent. simpl.
    destruct (dirs ++ [file]) eqn:Heq; [by destruct dirs|done].
Qed.

Lemma is_absolute_plain parts :
  forallb plain parts = true -> Pth.is_absolute parts = false.
Proof.
  destruct parts as [|p rest]; [done|]. intros [Hp _]%andb_prop.
  simpl. by apply plain_not_root.
Qed.

Lemma is_prefix_app base rest : Pth.is_prefix base (base ++ rest) = true.
Proof.
  induction base as [|b base IH]; simpl; [done|].
  by rewrite String.eqb_refl, IH.
Qed.

Lemma relative_to_app base rest : Pth.relative_to (base ++ rest) base = Ok rest.
Proof.
  unfold Pth.relative_to. rewrite is_prefix_app. f_equal.
  by rewrite drop_app_length.
Qed.

Lemma no_slash_app a b : no_slash (a +:+ b) = no_slash a && no_slash b.
Proof.
  induction a as [|c r IH]; [done|].
  rewrite append_cons. simpl. by rewrite IH, andb_assoc.
Qed.

Lemma no_slash_substring n s :
  no_slash s = true -> no_slash (String.substring 0 n s) = true.
Proof.
  revert s. induction n as [|n IH]; intros [|c r]; simpl; try done.
  intros [Hc Hr]%andb_prop. rewrite Hc. by apply IH.
Qed.

Lemma name_singleton file : plain file = true -> Pth.name [file] = file.
Proof. intros Hf. unfold Pth.name. simpl. by rewrite plain_not_root. Qed.

Lemma name_below base dirs file :
  base <> [] -> Pth.name (base ++ dirs ++ [file]) = file.
Proof.
  intros Hb. unfold Pth.name.
  replace (length (base ++ dirs ++ [file]) =? 1) with false.
  - rewrite andb_false_r, app_assoc. apply last_last.
  - symmetry. apply Nat.eqb_neq. rewrite !length_app. simpl.
    destruct base; [done|]. simpl. lia.
Qed.

Lemma stem_below base dirs file :
  base <> [] -> plain file = true ->
  Pth.stem (base ++ dirs ++ [file]) = Pth.stem [file].
Proof.
  intros Hb Hf. unfold Pth.stem. by rewrite name_below, name_singleton.
Qed.

Lemma stem_no_slash file : plain file = true -> no_slash (Pth.stem [file]) = true.
Proof.
  intros Hf. unfold Pth.stem. rewrite name_singleton by done.
  apply andb_prop in Hf as [Hs _].
  destruct (Str.rfind_dot file) as [i|]; [|done].
  destruct (_ && _); [|done]. by apply no_slash_substring.
Qed.

Lemma embedded_name_plain s :
  no_slash s = true -> plain (s +:+ "_embedded.safetensors") = true.
Proof.
  intros Hs. unfold plain. rewrite no_slash_app, Hs.
  change (no_slash "_embedded.safetensors") with true.
  unfold Pth.keep_part. destruct s as [|c r]; [done|].
  rewrite append_cons.
  destruct (r +:+ "_embedded.safetensors") eqn:Hr; [by destruct r|].
  simpl. by destruct (Ascii.eqb c ".").
Qed.

Lemma parse_plain s : plain s = true -> Pth.parse s = [s].
Proof.
  intros Hs. change s with (Str.join_slash [s]) at 1.
  apply parse_join; [done|]. simpl. by rewrite Hs.
Qed.

(** The output path of a chunk below the source root, part by part. *)
Lemma output_path_plain dirs file :
  forallb plain (dirs ++ [file]) = true ->
  output_path (BASE_DIR ++ dirs ++ [file])
  = Ok (OUTPUT_DIR ++ map bar_to_underscore dirs
          ++ [bar_to_underscore (Pth.stem [file]) +:+ "_embedded.safetensors"]).
Proof.
  intros Hall. unfold output_path. rewrite relative_to_app. f_equal.
  assert (Hf : plain file = true).
  { rewrite forallb_app in Hall. apply andb_prop in Hall as [_ Hf].
    simpl in Hf. by rewrite andb_true_r in Hf. }
  assert (Hd : forallb plain dirs = true).
  { rewrite forallb_app in Hall. by apply andb_prop in Hall as [Hd _]. }
  unfold output_path_of, output_dir, chunk_name.
  rewrite safe_rel_path_plain by (done || by destruct dirs).
  rewrite map_app. simpl map.
  rewrite parent_snoc by (by rewrite bar_plain).
  rewrite stem_below by done. fold bar_to_underscore.
  rewrite parse_plain
    by (apply embedded_name_plain; rewrite bar_no_slash; by apply stem_no_slash).
  unfold Pth.joinpath at 2.
  rewrite is_absolute_plain by (by rewrite forallb_bar_plain).
  unfold Pth.joinpath. simpl Pth.is_absolute.
  rewrite plain_not_root
    by (apply embedded_name_plain; rewrite bar_no_slash; by apply stem_no_slash).
  by rewrite <- app_assoc.
Qed.

(** ** The monad and the steps of one chunk *)

Ltac run_monad :=
  unfold bind, emit, get_files, put_files, ret, raise, lift, tqdm_write;
  simpl.

Section Steps.

Context {F Image : Type} (fzero : F) (E : @Env F Image).

Implicit Types (w : @World F Image).

Lemma bind_unfold {A B} (m : @M F Image A) (k : A -> @M F Image B) w :
  bind m k w
  = match m w with
    | (w', Ok a) => k a w'
    | (w', Raise e) => (w', Raise e)
    end.
Proof. reflexivity. Qed.

Lemma extends_refl w : extends w w.
Proof. exists []. by rewrite app_nil_r. Qed.

Lemma extends_trans w1 w2 w3 : extends w1 w2 -> extends w2 w3 -> extends w1 w3.
Proof.
  intros [e1 H1] [e2 H2]. exists (e1 ++ e2). by rewrite H2, H1, app_assoc.
Qed.

Lemma extends_emit w ev : extends w (mkWorld (files w) (trace w ++ [ev])).
Proof. by exists [ev]. Qed.

Lemma extends_In w w' ev : extends w w' -> In ev (trace w) -> In ev (trace w').
Proof. intros [evs ->] Hin. apply in_or_app. by left. Qed.

(** *** Loader *)

Lemma load_frame_data_spec chunk_path w w1 r :
  load_frame_data chunk_path w = (w1, r) ->
  w1 = mkWorld (files w) (trace w ++ [SafeOpen chunk_path]) /\
  (forall fd, r = Ok fd ->
     exists a key,
       files w !! chunk_path = Some (File (Archive a)) /\
       List.find is_frame_key (map fst a) = Some key /\
       dict_get key a = Ok fd).
Proof.
  unfold load_frame_data. run_monad.
  destruct (files w !! chunk_path) as [[|[a|]]|] eqn:Hfile;
    try (intros [= <- <-]; split; [done|]; intros fd [=]).
  destruct (List.find is_frame_key (map fst a)) as [key|] eqn:Hkey.
  - intros [= <- <-]. split; [done|].
    intros fd Hfd. by exists a, key.
  - intros [= <- <-]. split; [done|]. intros fd [=].
Qed.

(** *** Normalizer *)

Lemma check_frame_classify name i frame w :
  exists evs,
    check_frame name i frame w
    = (mkWorld (files w) (trace w ++ evs), classify frame) /\
    forall ev, In ev evs -> exists m, ev = Write m.
Proof.
  unfold check_frame, classify. run_monad.
  destruct (ndim frame =? 2).
  { exists [Write (MsgGrayscale name i)]. split; [done|].
    intros ev [<-|[]]. eauto. }
  destruct (last (shape frame)) as [c|].
  2:{ exists []. rewrite app_nil_r. split; [by destruct w|]. intros ev []. }
  destruct (c =? 4).
  { exists [Write (MsgRGBA name i)]. split.
    - by destruct (take_channels 3 frame).
    - intros ev [<-|[]]. eauto. }
  destruct (c =? 3); simpl.
  - exists []. rewrite app_nil_r. split; [by destruct w|]. intros ev [].
  - exists [Write (MsgUnexpected name i (shape frame))]. split; [done|].
    intros ev [<-|[]]. eauto.
Qed.

End Steps.

(** ** Lists and tensors *)

Section Tensors.

Context {A : Type}.
Implicit Types (t : tensor A) (l : list A).

Lemma block_length size i l :
  (i + 1) * size <= length l -> length (block size i l) = size.
Proof. intros H. unfold block. rewrite length_take, length_drop. lia. Qed.

Lemma block_concat size (ls : list (list A)) i l :
  Forall (fun x => length x = size) ls ->
  ls !! i = Some l -> block size i (concat ls) = l.
Proof.
  intros Hall. revert i. induction Hall as [|x ls Hx Hall IH]; intros i Hi.
  - done.
  - destruct i as [|i]; simpl in Hi.
    + injection Hi as ->. unfold block. simpl. subst size.
      apply take_app_length.
    + unfold block in *. simpl concat.
      rewrite drop_app_ge by lia.
      replace (S i * size - length x) with (i * size) by lia.
      by apply IH.
Qed.

Lemma concat_length_uniform size (ls : list (list A)) :
  Forall (fun x => length x = size) ls ->
  length (concat ls) = length ls * size.
Proof.
  induction 1 as [|x ls Hx _ IH]; [done|].
  simpl. rewrite length_app, IH. lia.
Qed.

Lemma shape_eqb_eq s1 s2 : shape_eqb s1 s2 = true -> s1 = s2.
Proof.
  revert s2. induction s1 as [|a s1 IH]; intros [|b s2]; simpl; try done.
  intros [Hab Hs]%andb_prop. apply Nat.eqb_eq in Hab. subst.
  f_equal. by apply IH.
Qed.

Lemma tensor_rows_spec t rows :
  tensor_rows t = Ok rows ->
  exists m dsh,
    shape t = m :: dsh /\ length rows = m /\
    (forall k row, rows !! k = Some row ->
       shape row = dsh /\ tensor_get t k = Ok row /\
       (well_shaped t -> well_shaped row)).
Proof.
  unfold tensor_rows, tensor_get, well_shaped.
  destruct (shape t) as [|m dsh] eqn:Hsh; [done|].
  intros [= <-]. exists m, dsh. split; [done|]. split.
  { by rewrite length_map, length_seq. }
  intros k row Hk. rewrite list_lookup_fmap in Hk.
  destruct (seq 0 m !! k) as [j|] eqn:Hj; [|done].
  apply lookup_seq in Hj as [-> Hlt]. simpl in Hk. injection Hk as <-.
  simpl. split; [done|]. split.
  - apply Nat.ltb_lt in Hlt. by rewrite Hlt.
  - intros Hws. apply block_length. rewrite Hws. simpl.
    change (foldr Nat.mul 1 dsh) with (numel dsh). nia.
Qed.

Lemma stack_spec (ts : list (tensor A)) ed :
  stack ts = Ok ed ->
  exists t0 rest,
    ts = t0 :: rest /\
    shape ed = length ts :: shape t0 /\
    Forall (fun t => shape t = shape t0) ts /\
    (Forall well_shaped ts ->
     well_shaped ed /\
     forall i t, ts !! i = Some t -> tensor_get ed i = Ok t).
Proof.
  unfold stack. destruct ts as [|t0 rest]; [done|].
  destruct (forallb _ _) eqn:Hall; [|done].
  intros [= <-]. exists t0, rest. split; [done|]. split; [done|].
  assert (Hsh : Forall (fun t => shape t = shape t0) (t0 :: rest)).
  { apply Forall_forall. intros t Ht%list_elem_of_In.
    rewrite forallb_forall in Hall. by apply shape_eqb_eq, Hall. }
  split; [done|]. intros Hws.
  assert (Hlen : Forall (fun x => length x = numel (shape t0))
                   (map elems (t0 :: rest))).
  { apply Forall_forall. intros x [t [-> Ht]]%list_elem_of_fmap.
    rewrite Forall_forall in Hws, Hsh.
    rewrite <- (Hsh t Ht). by apply Hws. }
  split.
  - unfold well_shaped.
    change (length (concat (map elems (t0 :: rest)))
            = length (t0 :: rest) * numel (shape t0)).
    by rewrite (concat_length_uniform _ _ Hlen), length_map.
  - intros i t Hi. unfold tensor_get.
    apply lookup_lt_Some in Hi as Hlt. apply Nat.ltb_lt in Hlt.
    simpl in Hlt |- *. rewrite Hlt. f_equal.
    change (elems t0 ++ concat (map elems rest))
      with (concat (map elems (t0 :: rest))).
    rewrite (block_concat _ _ i (elems t) Hlen).
    + rewrite Forall_forall in Hsh.
      rewrite <- (Hsh t) by (by apply list_elem_of_lookup_2 with i).
      by destruct t.
    + by rewrite list_lookup_fmap, Hi.
Qed.

Lemma mapE_spec {B} (f : A -> Exc B) l (out : list B) :
  mapE f l = Ok out ->
  length out = length l /\
  forall k a, l !! k = Some a -> exists b, f a = Ok b /\ out !! k = Some b.
Proof.
  revert out. induction l as [|a l IH]; simpl; intros out.
  - intros [= <-]. split; [done|]. intros k a Hk. done.
  - destruct (f a) as [b|] eqn:Hfa; [|done].
    destruct (mapE f l) as [bs|]; [|done].
    intros [= <-]. destruct (IH bs eq_refl) as [Hlen Hk].
    split; [simpl; lia|]. intros [|k] a'; simpl.
    + intros [= <-]. eauto.
    + apply Hk.
Qed.

End Tensors.

(** ** The frames classified Valid *)

Lemma valid_frames_elem frames : forall i j arr,
  (j, arr) ∈ valid_frames i frames <->
  exists frame,
    i <= j /\ frames !! (j - i) = Some frame /\ classify frame = Ok (Valid arr).
Proof.
  induction frames as [|f rest IH]; intros i j arr.
  - simpl. split; [by intros ?%elem_of_nil|]. by intros (frame & _ & ? & _).
  - assert (Htail : (j, arr) ∈ valid_frames (S i) rest <->
                    exists frame, i < j /\ rest !! (j - S i) = Some frame /\
                                  classify frame = Ok (Valid arr)).
    { rewrite IH. split; intros (frame & ? & ? & ?); exists frame;
        (split; [lia|done]). }
    assert (Hcons : forall frame,
               i < j -> (f :: rest) !! (j - i) = Some frame <->
                        rest !! (j - S i) = Some frame).
    { intros frame Hlt. replace (j - i) with (S (j - S i)) by lia. done. }
    simpl. split.
    + intros Hin.
      assert (Hcases : (j = i /\ classify f = Ok (Valid arr)) \/
                       (j, arr) ∈ valid_frames (S i) rest).
      { destruct (classify f) as [[a|why]|e]; [|by right..].
        apply elem_of_cons in Hin as [[= -> ->]|Hin]; [by left|by right]. }
      destruct Hcases as [[-> Hf]|Hin'].
      * exists f. split; [lia|]. by rewrite Nat.sub_diag.
      * apply Htail in Hin' as (frame & Hlt & Hl & Hc).
        exists frame. split; [lia|]. split; [|done]. by apply Hcons.
    + intros (frame & Hle & Hl & Hc).
      destruct (decide (j = i)) as [->|Hne].
      * rewrite Nat.sub_diag in Hl. injection Hl as ->.
        rewrite Hc. apply elem_of_cons. by left.
      * assert (Hin : (j, arr) ∈ valid_frames (S i) rest).
        { apply Htail. exists frame. split; [lia|]. split; [|done].
          apply Hcons; [lia|done]. }
        destruct (classify f) as [[a|why]|e]; [|done..].
        apply elem_of_cons. by right.
Qed.

Lemma valid_frames_sorted frames : forall i,
  StronglySorted lt (valid_frames i frames).*1.
Proof.
  induction frames as [|f rest IH]; intros i; simpl; [constructor|].
  destruct (classify f) as [[a|why]|e]; try apply IH.
  simpl. constructor; [apply IH|].
  apply Forall_forall. intros j [[j' arr] [-> Hin]]%list_elem_of_fmap.
  apply valid_frames_elem in Hin as (frame & Hlt & _). simpl. lia.
Qed.

Lemma valid_frames_NoDup frames i : NoDup (valid_frames i frames).*1.
Proof.
  generalize (valid_frames_sorted frames i).
  induction 1 as [|j l _ IH Hall]; constructor; [|done].
  intros Hin. rewrite Forall_forall in Hall. specialize (Hall j Hin). lia.
Qed.

Lemma valid_frames_bound frames i j :
  j ∈ (valid_frames i frames).*1 -> i <= j < i + length frames.
Proof.
  intros [[j' arr] [-> Hin]]%list_elem_of_fmap.
  apply valid_frames_elem in Hin as (frame & Hle & Hl & _).
  apply lookup_lt_Some in Hl. simpl. lia.
Qed.

Lemma valid_frames_dropped frames i n frame why :
  frames !! n = Some frame -> classify frame = Ok (Dropped why) ->
  i + n ∉ (valid_frames i frames).*1.
Proof.
  intros Hl Hc [[j' arr] [Heq Hin]]%list_elem_of_fmap. simpl in Heq. subst j'.
  apply valid_frames_elem in Hin as (frame' & _ & Hl' & Hc').
  replace (i + n - i) with n in Hl' by lia. congruence.
Qed.

Lemma valid_frames_none frames i :
  Forall (fun f => is_valid f = false) frames -> valid_frames i frames = [].
Proof.
  intros Hall. revert i. induction Hall as [|f rest Hf _ IH]; intros i; [done|].
  simpl. unfold is_valid in Hf.
  destruct (classify f) as [[a|why]|e]; [done|apply IH..].
Qed.

(** ** Normalizer, encoder and realigner *)

Section Embedding.

Context {F Image : Type} (fzero : F) (E : @Env F Image).

Implicit Types (w : @World F Image).

Lemma validate_loop_spec name frames : forall i imgs0 idxs0 w w' r,
  validate_loop E name i frames imgs0 idxs0 w = (w', r) ->
  files w' = files w /\ extends w w' /\
  forall imgs idxs, r = Ok (imgs, idxs) ->
    idxs = idxs0 ++ (valid_frames i frames).*1 /\
    exists new,
      mapE (fromarray E) (valid_frames i frames).*2 = Ok new /\
      imgs = imgs0 ++ new.
Proof.
  induction frames as [|f rest IH]; intros i imgs0 idxs0 w w' r.
  - simpl. intros [= <- <-]. split; [done|]. split; [apply extends_refl|].
    intros imgs idxs [= <- <-]. rewrite app_nil_r. split; [done|].
    exists []. by rewrite app_nil_r.
  - simpl. rewrite bind_unfold.
    destruct (check_frame_classify name i f w) as (evs & -> & _).
    set (w1 := mkWorld (files w) (trace w ++ evs)).
    assert (Hext : extends w w1) by (by exists evs).
    destruct (classify f) as [[arr|why]|e].
    + rewrite bind_unfold. unfold lift at 1.
      destruct (fromarray E arr) as [img|e] eqn:Himg.
      * intros Hrec. apply IH in Hrec as (Hf & Hx & Hr).
        split; [done|]. split; [by eapply extends_trans|].
        intros imgs idxs Heq. destruct (Hr imgs idxs Heq) as (-> & new & Hnew & ->).
        rewrite <- !app_assoc. split; [done|].
        exists (img :: new). rewrite fmap_cons. simpl mapE.
        by rewrite Himg, Hnew.
      * intros [= <- <-]. split; [done|]. split; [done|]. intros ?? [=].
    + intros Hrec. apply IH in Hrec as (Hf & Hx & Hr).
      split; [done|]. split; [by eapply extends_trans|]. done.
    + intros [= <- <-]. split; [done|]. split; [done|]. intros ?? [=].
Qed.

Lemma encode_batch_spec imgs w w' r :
  encode_batch E imgs w = (w', r) ->
  files w' = files w /\
  exists evs,
    trace w' = trace w ++ CallProcessor imgs (replicate (length imgs) PROMPT) :: evs.
Proof.
  unfold encode_batch. run_monad.
  destruct (processor E imgs _) as [inputs|e];
    [|intros [= <- <-]; split; [done|]; by exists []].
  destruct (move_inputs E inputs) as [moved|e];
    [|intros [= <- <-]; split; [done|]; by exists []].
  destruct (dict_get "pixel_values" moved) as [pv|e];
    [|intros [= <- <-]; split; [done|]; by exists []].
  assert (Hfin : forall pv' w0 evs0,
    files w0 = files w ->
    trace w0 = trace w ++ CallProcessor imgs (replicate (length imgs) PROMPT) :: evs0 ->
    match vision_tower E pv' with
    | Ok a =>
        match mean_dim1 E a with
        | Ok p => (w0, Ok p)
        | Raise e => (w0, Raise e)
        end
    | Raise e => (w0, Raise e)
    end = (w', r) ->
    files w' = files w /\
    exists evs,
      trace w' = trace w ++ CallProcessor imgs (replicate (length imgs) PROMPT) :: evs).
  { intros pv' w0 evs0 Hf Ht.
    destruct (vision_tower E pv') as [vf|e];
      [destruct (mean_dim1 E vf) as [p|e]|];
      intros [= <- <-]; (split; [done|]); by exists evs0. }
  destruct (ndim pv =? 5).
  - destruct (view_patches pv) as [pv'|e].
    + apply (Hfin pv' _ [CallVisionTower pv']); [done|].
      simpl. by rewrite <- app_assoc.
    + intros [= <- <-]; split; [done|]; by exists [].
  - apply (Hfin pv _ [CallVisionTower pv]); [done|].
    simpl. by rewrite <- app_assoc.
Qed.

Lemma encode_batch_result imgs w :
  snd (encode_batch E imgs w) = extract E imgs.
Proof.
  unfold extract, encode_batch. run_monad.
  destruct (processor E imgs _) as [inputs|e]; [|done].
  destruct (move_inputs E inputs) as [moved|e]; [|done].
  destruct (dict_get "pixel_values" moved) as [pv|e]; [|done].
  destruct (ndim pv =? 5).
  - destruct (view_patches pv) as [pv'|e]; [|done].
    destruct (vision_tower E pv') as [vf|e]; [|done].
    by destruct (mean_dim1 E vf).
  - destruct (vision_tower E pv) as [vf|e]; [|done].
    by destruct (mean_dim1 E vf).
Qed.

End Embedding.

Section Realigner.

Context {F : Type} (fzero : F).
Implicit Types (pooled row : tensor F) (embs : list (option (tensor F))).

Lemma scatter_spec pairs : forall embs embs',
  scatter embs pairs = Ok embs' ->
  length embs' = length embs /\
  (forall i, i ∉ pairs.*1 -> embs' !! i = embs !! i) /\
  (forall i e, embs' !! i = Some (Some e) ->
     embs !! i = Some (Some e) \/ (i, e) ∈ pairs) /\
  (NoDup pairs.*1 ->
   forall i e, (i, e) ∈ pairs -> embs' !! i = Some (Some e)).
Proof.
  induction pairs as [|[idx emb] rest IH]; intros embs embs'; simpl.
  - intros [= <-]. split; [done|]. split; [done|]. split; [by left|].
    by intros _ i e ?%elem_of_nil.
  - destruct (idx <? length embs) eqn:Hlt; [|done].
    apply Nat.ltb_lt in Hlt. intros Hrec.
    apply IH in Hrec as (Hlen & Hout & Hin & Hdup).
    rewrite length_insert in Hlen. split; [done|]. split; [|split].
    + intros i Hi. apply not_elem_of_cons in Hi as [Hne Hi].
      rewrite (Hout i Hi). by apply list_lookup_insert_ne.
    + intros i e Hi. destruct (Hin i e Hi) as [Hold|Hnew].
      * destruct (decide (idx = i)) as [<-|Hne].
        -- rewrite list_lookup_insert_eq in Hold by done.
           injection Hold as <-. right. apply elem_of_cons. by left.
        -- rewrite list_lookup_insert_ne in Hold by done. by left.
      * right. apply elem_of_cons. by right.
    + intros [Hfresh Hnd]%NoDup_cons i e [[= -> ->]|Hie]%elem_of_cons.
      * rewrite (Hout idx Hfresh). by apply list_lookup_insert_eq.
      * by apply Hdup.
Qed.

Lemma zip_fst_subset {A B} (l : list A) (k : list B) x :
  x ∈ (zip l k).*1 -> x ∈ l.
Proof.
  intros [[a b] [-> Hin]]%list_elem_of_fmap.
  apply list_elem_of_lookup in Hin as [i Hi].
  apply lookup_zip_with_Some in Hi as (a' & b' & [= <- <-] & Ha & _).
  by eapply list_elem_of_lookup_2.
Qed.

Lemma zip_fst_NoDup {A B} (l : list A) (k : list B) :
  NoDup l -> NoDup (zip l k).*1.
Proof.
  revert k. induction l as [|a l IH]; intros [|b k] Hnd; simpl;
    try constructor.
  - apply NoDup_cons in Hnd as [Hfresh _]. intros Hin. apply Hfresh.
    by eapply zip_fst_subset.
  - apply NoDup_cons in Hnd as [_ Hnd]. by apply IH.
Qed.

Lemma zeros_like_well_shaped row : well_shaped (zeros_like fzero row).
Proof. unfold well_shaped, zeros_like. simpl. by rewrite length_replicate. Qed.

(** What [realign] stacks, entry by entry. *)
Lemma realign_spec n idxs pooled ed :
  realign fzero n idxs pooled = Ok ed ->
  exists m dsh rows,
    shape pooled = m :: dsh /\
    tensor_rows pooled = Ok rows /\
    shape ed = n :: dsh /\
    (well_shaped pooled ->
     well_shaped ed /\
     (forall i, i < n -> i ∉ idxs ->
        tensor_get ed i = Ok (Tensor dsh (replicate (numel dsh) fzero))) /\
     (NoDup idxs ->
      forall k i row, idxs !! k = Some i -> rows !! k = Some row ->
        tensor_get ed i = Ok row)).
Proof.
  unfold realign.
  destruct (tensor_rows pooled) as [rows|] eqn:Hrows; [|done].
  destruct (scatter _ _) as [embs|] eqn:Hsc; [|done].
  destruct (mapE _ embs) as [filled|] eqn:Hfill; [|done].
  intros Hstack.
  destruct (tensor_rows_spec _ _ Hrows) as (m & dsh & Hsh & Hm & Hrow).
  destruct (scatter_spec _ _ _ Hsc) as (Hlen & Hout & Hin & Hdup).
  rewrite length_replicate in Hlen.
  destruct (mapE_spec _ _ _ Hfill) as (Hflen & Hfk).
  rewrite Hlen in Hflen.
  exists m, dsh, rows. split; [done|]. split; [done|].
  (* every entry is a row of [pooled] or the zero row *)
  assert (Hrows_in : forall i e, embs !! i = Some (Some e) ->
                       exists k, rows !! k = Some e).
  { intros i e Hi. destruct (Hin i e Hi) as [Hold|Hnew].
    - apply lookup_replicate in Hold as [[=] _].
    - apply list_elem_of_lookup in Hnew as [k Hk].
      apply lookup_zip_with_Some in Hk as (a & b & [= <- <-] & _ & Hb).
      by exists k. }
  assert (Hentry : forall i t, filled !! i = Some t ->
            (embs !! i = Some None /\ t = Tensor dsh (replicate (numel dsh) fzero))
            \/ (embs !! i = Some (Some t) /\ exists k, rows !! k = Some t)).
  { intros i t Hi.
    assert (Hlt : i < length embs)
      by (apply lookup_lt_Some in Hi; lia).
    apply lookup_lt_is_Some in Hlt as [x Hx].
    destruct (Hfk i x Hx) as (b & Hb & Hi'). rewrite Hi in Hi'.
    injection Hi' as <-. destruct x as [e|]; simpl in Hb.
    - injection Hb as ->. right. split; [done|]. by eapply Hrows_in.
    - left. split; [done|]. unfold tensor_get in Hb. rewrite Hsh in Hb.
      destruct (0 <? m); [|done]. injection Hb as <-. done. }
  assert (Hshape : forall i t, filled !! i = Some t -> shape t = dsh).
  { intros i t Hi. destruct (Hentry i t Hi) as [[_ ->]|[_ [k Hk]]]; [done|].
    by destruct (Hrow k t Hk). }
  destruct (stack_spec _ _ Hstack) as (t0 & rest & Hts & Hsed & _ & Hget).
  split.
  { rewrite Hsed, Hflen. f_equal. apply (Hshape 0). by rewrite Hts. }
  intros Hws.
  assert (Hwsf : Forall well_shaped filled).
  { apply Forall_lookup. intros i t Hi.
    destruct (Hentry i t Hi) as [[_ ->]|[_ [k Hk]]].
    - unfold well_shaped. simpl. by rewrite length_replicate.
    - destruct (Hrow k t Hk) as (_ & _ & Hw). by apply Hw. }
  destruct (Hget Hwsf) as [Hwsed Hgeti]. split; [done|]. split.
  - intros i Hi Hnotin.
    assert (Hnone : embs !! i = Some None).
    { rewrite Hout; [by apply lookup_replicate|].
      intros Hz. apply Hnotin. by eapply zip_fst_subset. }
    assert (Hlt : i < length filled) by lia.
    apply lookup_lt_is_Some in Hlt as [t Ht].
    rewrite (Hgeti i t Ht). f_equal.
    destruct (Hentry i t Ht) as [[_ ->]|[Hsome _]]; [done|congruence].
  - intros Hnd k i row Hk Hr.
    assert (Hsome : embs !! i = Some (Some row)).
    { apply Hdup; [by apply zip_fst_NoDup|].
      apply list_elem_of_lookup. exists k.
      apply lookup_zip_with_Some. by exists i, row. }
    assert (Hlt : i < length filled).
    { apply lookup_lt_Some in Hsome. lia. }
    apply lookup_lt_is_Some in Hlt as [t Ht].
    rewrite (Hgeti i t Ht). f_equal.
    destruct (Hentry i t Ht) as [[Hnone _]|[Hsome' _]]; congruence.
Qed.

End Realigner.

(** ** One chunk *)

Section Chunk.

Context {F Image : Type} (fzero : F) (E : @Env F Image).

Implicit Types (w : @World F Image) (fs : gmap Path (@node F)).

Lemma embed_frames_spec name frames w w' r :
  embed_frames fzero E name frames w = (w', r) ->
  files w' = files w /\ extends w w' /\
  (r = Ok None -> valid_frames 0 frames = []) /\
  (forall ed, r = Ok (Some ed) ->
     exists imgs pooled,
       imgs <> [] /\
       mapE (fromarray E) (valid_frames 0 frames).*2 = Ok imgs /\
       In (CallProcessor imgs (replicate (length imgs) PROMPT)) (trace w') /\
       extract E imgs = Ok pooled /\
       realign fzero (length frames) (valid_frames 0 frames).*1 pooled = Ok ed).
Proof.
  unfold embed_frames. rewrite bind_unfold.
  destruct (validate_loop E name 0 frames [] [] w) as [w1 [[imgs idxs]|e]] eqn:Hloop.
  2:{ apply validate_loop_spec in Hloop as (Hf & Hx & _).
      intros [= <- <-]. split; [done|]. split; [done|]. split; [done|].
      intros ed [=]. }
  apply validate_loop_spec in Hloop as (Hf & Hx & Hr).
  destruct (Hr imgs idxs eq_refl) as (Hidx & new & Hnew & Himgs).
  simpl in Hidx, Himgs. subst idxs imgs.
  destruct new as [|img imgs].
  - run_monad. intros [= <- <-]. split; [done|]. split.
    { eapply extends_trans; [done|]. by exists [Write (MsgNoValid name)]. }
    split; [|intros ed [=]]. intros _.
    destruct (mapE_spec _ _ _ Hnew) as [Hlen _].
    rewrite length_fmap in Hlen. symmetry in Hlen.
    by apply nil_length_inv in Hlen.
  - rewrite bind_unfold.
    destruct (encode_batch E (img :: imgs) w1) as [w2 [pooled|e]] eqn:Henc.
    2:{ apply encode_batch_spec in Henc as (Hf2 & evs & Ht).
        intros [= <- <-]. split; [congruence|]. split.
        { eapply extends_trans; [done|]. eexists. done. }
        split; [done|]. intros ed [=]. }
    pose proof (encode_batch_spec _ _ _ _ _ Henc) as (Hf2 & evs & Ht).
    run_monad.
    destruct (realign fzero (length frames) (valid_frames 0 frames).*1 pooled)
      as [ed|e] eqn:Hre; intros [= <- <-];
      (split; [congruence|]);
      (split; [eapply extends_trans; [done|]; eexists; done|]);
      (split; [done|]); intros ed' [= <-].
    exists (img :: imgs), pooled. split; [done|]. split; [done|].
    split; [rewrite Ht; apply in_or_app; right; by left|].
    split; [|done]. by rewrite <- (encode_batch_result E _ w1), Henc.
Qed.

(** *** Writer *)

Lemma mkdir_from_spec todo : forall done fs fs',
  mkdir_from done todo fs = Ok fs' ->
  forall p : Path,
    fs' !! p = fs !! p \/
    (fs !! p = None /\ fs' !! p = Some Dir /\
     length done < length p <= length done + length todo).
Proof.
  induction todo as [|part rest IH]; intros done fs fs'; simpl.
  - intros [= <-] p. by left.
  - destruct (fs !! (done ++ [part])) as [[|c]|] eqn:Hp; [|done|].
    + intros Hrec p. destruct (IH _ _ _ Hrec p) as [Heq|(Hn & Hd & Hlen)];
        [by left|right].
      rewrite length_app in Hlen. simpl in Hlen.
      split; [done|]. split; [done|]. lia.
    + intros Hrec p. destruct (decide (p = done ++ [part])) as [->|Hne].
      * right. split; [done|].
        destruct (IH _ _ _ Hrec (done ++ [part])) as [Heq|(Hn & _)].
        -- rewrite Heq, lookup_insert_eq. split; [done|].
           rewrite length_app. simpl. lia.
        -- by rewrite lookup_insert_eq in Hn.
      * destruct (IH _ _ _ Hrec p) as [Heq|(Hn & Hd & Hlen)].
        -- left. by rewrite Heq, lookup_insert_ne.
        -- right. rewrite lookup_insert_ne in Hn by done.
           rewrite length_app in Hlen. simpl in Hlen.
           split; [done|]. split; [done|]. lia.
Qed.

Lemma mkdir_spec p w w' r :
  mkdir p w = (w', r) ->
  extends w w' /\
  ((exists e, r = Raise e /\ files w' = files w) \/
   (r = Ok tt /\ mkdir_from [] p (files w) = Ok (files w'))).
Proof.
  unfold mkdir. run_monad.
  destruct (mkdir_from [] p (files w)) as [fs'|e] eqn:Hmk;
    intros [= <- <-]; (split; [by exists [Mkdir p]|]).
  - by right.
  - left. by exists e.
Qed.

Lemma save_file_spec a p w w' r :
  save_file E a p w = (w', r) ->
  extends w w' /\
  ((exists e, r = Raise e /\ files w' = files w) \/
   (r = Ok tt /\ save_outcome E p a = SaveOk /\
    files w' = <[p := File (Archive a)]> (files w)) \/
   (exists e, r = Raise e /\ save_outcome E p a = SaveFailsPartial e /\
              files w' = <[p := File Garbage]> (files w))).
Proof.
  unfold save_file. run_monad.
  assert (Hfail : forall e,
    (mkWorld (files w) (trace w ++ [SaveFile a p]), @Raise unit e) = (w', r) ->
    extends w w' /\
    ((exists e, r = Raise e /\ files w' = files w) \/
     (r = Ok tt /\ save_outcome E p a = SaveOk /\
      files w' = <[p := File (Archive a)]> (files w)) \/
     (exists e, r = Raise e /\ save_outcome E p a = SaveFailsPartial e /\
                files w' = <[p := File Garbage]> (files w)))).
  { intros e [= <- <-]. split; [by exists [SaveFile a p]|].
    left. by exists e. }
  destruct (files w !! p) as [[|c]|]; [by apply Hfail|..];
    (destruct (files w !! Pth.parent p) as [[|c']|]; [|by apply Hfail..]);
    (destruct (save_outcome E p a) as [|e|e] eqn:Hout; [| by apply Hfail |]);
    intros [= <- <-]; (split; [by exists [SaveFile a p]|]);
    try (right; left; done); right; right; by exists e.
Qed.

Lemma save_file_trace a p w w' r :
  save_file E a p w = (w', r) -> In (SaveFile a p) (trace w').
Proof.
  unfold save_file. run_monad.
  destruct (files w !! p) as [[|c]|];
    [intros [= <- <-]; apply in_or_app; right; by left|..];
    (destruct (files w !! Pth.parent p) as [[|c']|];
     [|intros [= <- <-]; apply in_or_app; right; by left..]);
    destruct (save_outcome E p a);
    intros [= <- <-]; apply in_or_app; right; by left.
Qed.

End Chunk.

Section Driver.

Context {F Image : Type} (fzero : F) (E : @Env F Image).

Implicit Types (w : @World F Image).

Lemma process_body_unfold c w :
  process_body fzero E c w
  = match Pth.relative_to c BASE_DIR with
    | Raise e => (w, Raise e)
    | Ok rel =>
        let out := output_path_of c rel in
        match files w !! out with
        | Some _ =>
            (mkWorld (files w) (trace w ++ [Write (MsgSkipping (chunk_name c))]),
             Ok AlreadyProcessed)
        | None =>
            match load_frame_data c w with
            | (w1, Raise e) => (w1, Raise e)
            | (w1, Ok fd) =>
                match frames_of E fd with
                | Raise e => (w1, Raise e)
                | Ok frames =>
                    match embed_frames fzero E (chunk_name c) frames w1 with
                    | (w2, Raise e) => (w2, Raise e)
                    | (w2, Ok None) => (w2, Ok NoValidFrames)
                    | (w2, Ok (Some ed)) =>
                        match mkdir (output_dir rel) w2 with
                        | (w3, Raise e) => (w3, Raise e)
                        | (w3, Ok _) =>
                            match save_file E (output_archive fd ed) out w3 with
                            | (w4, Raise e) => (w4, Raise e)
                            | (w4, Ok _) =>
                                (mkWorld (files w4)
                                   (trace w4 ++ [Write (MsgProcessed rel out)]),
                                 Ok Processed)
                            end
                        end
                    end
                end
            end
        end
    end.
Proof.
  unfold process_body. rewrite bind_unfold. unfold lift at 1.
  destruct (Pth.relative_to c BASE_DIR) as [rel|e]; [|done].
  rewrite bind_unfold. unfold get_files at 1. cbv zeta.
  destruct (files w !! output_path_of c rel); [done|].
  rewrite bind_unfold. destruct (load_frame_data c w) as [w1 [fd|e]]; [|done].
  rewrite bind_unfold. unfold lift at 1.
  destruct (frames_of E fd) as [frames|e]; [|done].
  rewrite bind_unfold.
  destruct (embed_frames fzero E (chunk_name c) frames w1) as [w2 [[ed|]|e]];
    [|done..].
  rewrite bind_unfold. destruct (mkdir (output_dir rel) w2) as [w3 [[]|e]]; [|done].
  rewrite bind_unfold.
  by destruct (save_file E (output_archive fd ed) (output_path_of c rel) w3)
    as [w4 [[]|e]].
Qed.

(** A chunk whose output exists: one message, nothing else. *)
Lemma process_body_skip c w rel :
  Pth.relative_to c BASE_DIR = Ok rel ->
  is_Some (files w !! output_path_of c rel) ->
  process_body fzero E c w
  = (mkWorld (files w) (trace w ++ [Write (MsgSkipping (chunk_name c))]),
     Ok AlreadyProcessed).
Proof.
  intros Hrel [x Hx]. rewrite process_body_unfold, Hrel. cbv zeta. by rewrite Hx.
Qed.

(** A chunk whose output does not exist yet: every way the body ends. *)
Lemma process_body_fresh c w w' r rel :
  Pth.relative_to c BASE_DIR = Ok rel ->
  files w !! output_path_of c rel = None ->
  process_body fzero E c w = (w', r) ->
  extends w w' /\
  ((files w' = files w /\ r <> Ok Processed /\ r <> Ok AlreadyProcessed) \/
   exists fd frames w1 w2 ed fs',
     load_frame_data c w = (w1, Ok fd) /\
     frames_of E fd = Ok frames /\
     embed_frames fzero E (chunk_name c) frames w1 = (w2, Ok (Some ed)) /\
     extends w2 w' /\
     In (SaveFile (output_archive fd ed) (output_path_of c rel)) (trace w') /\
     mkdir_from [] (output_dir rel) (files w) = Ok fs' /\
     ((r = Ok Processed /\
       save_outcome E (output_path_of c rel) (output_archive fd ed) = SaveOk /\
       files w' = <[output_path_of c rel := File (Archive (output_archive fd ed))]> fs')
      \/ (exists e, r = Raise e /\ files w' = fs')
      \/ (exists e, r = Raise e /\
            save_outcome E (output_path_of c rel) (output_archive fd ed)
            = SaveFailsPartial e /\
            files w' = <[output_path_of c rel := File Garbage]> fs'))).
Proof.
  intros Hrel Hnone. rewrite process_body_unfold, Hrel. cbv zeta. rewrite Hnone.
  destruct (load_frame_data c w) as [w1 [fd|e]] eqn:Hload.
  2:{ apply load_frame_data_spec in Hload as [-> _]. intros [= <- <-].
      split; [by eexists|]. left. done. }
  pose proof (load_frame_data_spec _ _ _ _ Hload) as [Hw1 _].
  assert (Hx1 : extends w w1) by (subst w1; by eexists).
  assert (Hf1 : files w1 = files w) by (by subst w1).
  destruct (frames_of E fd) as [frames|e] eqn:Hframes.
  2:{ intros [= <- <-]. split; [done|]. by left. }
  destruct (embed_frames fzero E (chunk_name c) frames w1) as [w2 [[ed|]|e]]
    eqn:Hemb;
    pose proof (embed_frames_spec _ _ _ _ _ _ _ Hemb) as (Hf2 & Hx2 & _).
  2,3: intros [= <- <-]; (split; [by eapply extends_trans|]);
       left; (split; [congruence|done]).
  destruct (mkdir (output_dir rel) w2) as [w3 [[]|e]] eqn:Hmk;
    pose proof (mkdir_spec _ _ _ _ Hmk) as (Hx3 & Hmk').
  2:{ intros [= <- <-]. split; [eauto using extends_trans|].
      left. destruct Hmk' as [(e' & _ & Hf3)|[[=] _]].
      split; [congruence|done]. }
  destruct Hmk' as [(e' & [=] & _)|[_ Hfs]].
  rewrite Hf2, Hf1 in Hfs.
  destruct (save_file E (output_archive fd ed) (output_path_of c rel) w3)
    as [w4 [[]|e]] eqn:Hsave;
    pose proof (save_file_spec _ _ _ _ _ _ Hsave) as (Hx4 & Hsv);
    intros [= <- <-].
  - split.
    { eapply extends_trans; [|by eexists].
      eauto using extends_trans. }
    right. exists fd, frames, w1, w2, ed, (files w3).
    do 3 (split; [done|]). split.
    { eapply extends_trans; [|by eexists]. eauto using extends_trans. }
    split.
    { simpl. apply in_or_app. left. eapply save_file_trace, Hsave. }
    split; [done|].
    left. destruct Hsv as [(e & [=] & _)|[(_ & Hok & Hf4)|(e & [=] & _)]].
    done.
  - split; [eauto using extends_trans|].
    right. exists fd, frames, w1, w2, ed, (files w3).
    do 3 (split; [done|]). split; [eauto using extends_trans|].
    split; [eapply save_file_trace, Hsave|].
    split; [done|].
    destruct Hsv as [(e' & [= <-] & Hf4)|[([=] & _)|(e' & [= <-] & Hp & Hf4)]].
    + right. left. by exists e.
    + right. right. by exists e.
Qed.

End Driver.

(** ** The driver loop *)

Section Loop.

Context {F Image : Type} (fzero : F) (E : @Env F Image).

Implicit Types (w : @World F Image).

Lemma keeps_refl w : keeps w w.
Proof. by intros p. Qed.

Lemma keeps_trans w1 w2 w3 : keeps w1 w2 -> keeps w2 w3 -> keeps w1 w3.
Proof. intros H1 H2 p Hp. by apply H2, H1. Qed.

Lemma mkdir_from_keeps (p : Path) (fs fs' : gmap Path (@node F)) (q : Path) :
  mkdir_from [] p fs = Ok fs' -> is_Some (fs !! q) -> is_Some (fs' !! q).
Proof.
  intros Hmk Hq. destruct (mkdir_from_spec _ _ _ _ Hmk q) as [->|(Hn & _)];
    [done|]. rewrite Hn in Hq. by destruct Hq.
Qed.

Lemma insert_keeps (fs : gmap Path (@node F)) (p : Path) x (q : Path) :
  is_Some (fs !! q) -> is_Some (<[p := x]> fs !! q).
Proof.
  intros Hq. destruct (decide (p = q)) as [->|Hne].
  - rewrite lookup_insert_eq. by eexists.
  - by rewrite lookup_insert_ne.
Qed.

(** The outcome of a chunk is read off the result of the body. *)
Lemma process_chunk_finished c w w' s :
  process_chunk fzero E c w = (w', Finished s) ->
  process_body fzero E c w = (w', Ok s).
Proof.
  unfold process_chunk.
  destruct (process_body fzero E c w) as [w1 [s'|e]]; by intros [= <- <-].
Qed.

Lemma process_chunk_failed c w w' e :
  process_chunk fzero E c w = (w', Failed e) ->
  exists wb,
    process_body fzero E c w = (wb, Raise e) /\
    w' = mkWorld (files wb) (trace wb ++ [Write (MsgFailed c e); PrintExc e]).
Proof.
  unfold process_chunk.
  destruct (process_body fzero E c w) as [w1 [s'|e']]; intros [= <- <-].
  by exists w1.
Qed.

Lemma process_chunk_body c w w' o :
  process_chunk fzero E c w = (w', o) ->
  exists wb r,
    process_body fzero E c w = (wb, r) /\
    files w' = files wb /\ extends wb w' /\
    o = match r with Ok s => Finished s | Raise e => Failed e end.
Proof.
  unfold process_chunk.
  destruct (process_body fzero E c w) as [wb [s|e]]; intros [= <- <-];
    eexists _, _; (split; [done|]); (split; [done|]); (split; [|done]).
  - apply extends_refl.
  - by eexists.
Qed.

Lemma process_chunk_skip c w out :
  output_path c = Ok out -> is_Some (files w !! out) ->
  process_chunk fzero E c w
  = (mkWorld (files w) (trace w ++ [Write (MsgSkipping (chunk_name c))]),
     Finished AlreadyProcessed).
Proof.
  unfold output_path, process_chunk.
  destruct (Pth.relative_to c BASE_DIR) as [rel|e] eqn:Hrel; [|done].
  intros [= <-] Hout. by rewrite (process_body_skip _ _ _ _ rel).
Qed.

(** What a processed chunk leaves behind. *)
Lemma process_chunk_processed c w w' :
  process_chunk fzero E c w = (w', Finished Processed) ->
  exists rel fd frames w1 w2 ed fs',
    Pth.relative_to c BASE_DIR = Ok rel /\
    files w !! output_path_of c rel = None /\
    load_frame_data c w = (w1, Ok fd) /\
    frames_of E fd = Ok frames /\
    embed_frames fzero E (chunk_name c) frames w1 = (w2, Ok (Some ed)) /\
    mkdir_from [] (output_dir rel) (files w) = Ok fs' /\
    files w' = <[output_path_of c rel := File (Archive (output_archive fd ed))]> fs' /\
    extends w2 w'.
Proof.
  intros Hbody%process_chunk_finished.
  destruct (Pth.relative_to c BASE_DIR) as [rel|e] eqn:Hrel.
  2:{ by rewrite process_body_unfold, Hrel in Hbody. }
  destruct (files w !! output_path_of c rel) as [x|] eqn:Hout.
  { rewrite (process_body_skip _ _ _ _ rel) in Hbody by done. done. }
  destruct (process_body_fresh _ _ _ _ _ _ rel Hrel Hout Hbody)
    as (_ & [(_ & Hne & _)|(fd & frames & w1 & w2 & ed & fs' & Hl & Hfr & Hemb & Hx & _ & Hmk & Hend)]);
    [done|].
  exists rel, fd, frames, w1, w2, ed, fs'.
  destruct Hend as [(_ & _ & Hf)|[(e & [=] & _)|(e & [=] & _)]]. done.
Qed.

Lemma process_chunk_keeps c w w' o :
  process_chunk fzero E c w = (w', o) -> keeps w w'.
Proof.
  intros Hc. assert (Hb : exists wb r,
    process_body fzero E c w = (wb, r) /\ files w' = files wb).
  { unfold process_chunk in Hc.
    destruct (process_body fzero E c w) as [wb [s|e]]; injection Hc as <- <-;
      by eexists _, _. }
  destruct Hb as (wb & r & Hbody & Hfiles). intros p Hp. rewrite Hfiles.
  destruct (Pth.relative_to c BASE_DIR) as [rel|e] eqn:Hrel.
  2:{ rewrite process_body_unfold, Hrel in Hbody. by injection Hbody as <- <-. }
  destruct (files w !! output_path_of c rel) as [x|] eqn:Hout.
  { rewrite (process_body_skip _ _ _ _ rel) in Hbody by done.
    by injection Hbody as <- <-. }
  destruct (process_body_fresh _ _ _ _ _ _ rel Hrel Hout Hbody)
    as (_ & [(-> & _)|(fd & frames & w1 & w2 & ed & fs' & _ & _ & _ & _ & _ & Hmk & Hend)]);
    [done|].
  pose proof (mkdir_from_keeps _ _ _ p Hmk Hp) as Hp'.
  destruct Hend as [(_ & _ & ->)|[(e & _ & ->)|(e & _ & _ & ->)]];
    [by apply insert_keeps|done|by apply insert_keeps].
Qed.

Lemma main_loop_cons c rest w :
  main_loop fzero E (c :: rest) w
  = (fst (main_loop fzero E rest (fst (process_chunk fzero E c w))),
     snd (process_chunk fzero E c w)
       :: snd (main_loop fzero E rest (fst (process_chunk fzero E c w)))).
Proof.
  simpl. destruct (process_chunk fzero E c w) as [w1 o]. simpl.
  by destruct (main_loop fzero E rest w1).
Qed.

Lemma main_loop_app cs1 : forall cs2 w,
  main_loop fzero E (cs1 ++ cs2) w
  = (fst (main_loop fzero E cs2 (fst (main_loop fzero E cs1 w))),
     snd (main_loop fzero E cs1 w)
       ++ snd (main_loop fzero E cs2 (fst (main_loop fzero E cs1 w)))).
Proof.
  induction cs1 as [|c cs1 IH]; intros cs2 w.
  - simpl. by destruct (main_loop fzero E cs2 w).
  - rewrite <- app_comm_cons, !main_loop_cons, IH. done.
Qed.

Lemma main_loop_length cs : forall w,
  length (snd (main_loop fzero E cs w)) = length cs.
Proof.
  induction cs as [|c cs IH]; intros w; [done|].
  rewrite main_loop_cons. simpl. by rewrite IH.
Qed.

Lemma main_loop_keeps cs : forall w, keeps w (fst (main_loop fzero E cs w)).
Proof.
  induction cs as [|c cs IH]; intros w; [apply keeps_refl|].
  rewrite main_loop_cons. simpl.
  eapply keeps_trans; [|apply IH].
  eapply process_chunk_keeps. apply surjective_pairing.
Qed.

(** A chunk that ended processed or skipped has its output in place
    when the run ends. *)
Lemma main_loop_output_exists cs : forall w k c,
  cs !! k = Some c ->
  snd (main_loop fzero E cs w) !! k = Some (Finished Processed) \/
  snd (main_loop fzero E cs w) !! k = Some (Finished AlreadyProcessed) ->
  exists out,
    output_path c = Ok out /\
    is_Some (files (fst (main_loop fzero E cs w)) !! out).
Proof.
  induction cs as [|c0 cs IH]; intros w k c Hk Ho; [done|].
  rewrite main_loop_cons in Ho |- *. simpl fst. destruct k as [|k]; simpl in Hk, Ho.
  - injection Hk as ->.
    destruct (process_chunk fzero E c w) as [w1 o] eqn:Hc. simpl in Ho |- *.
    assert (Hout : exists out, output_path c = Ok out /\ is_Some (files w1 !! out)).
    { destruct Ho as [[= ->]|[= ->]].
      - apply process_chunk_processed in Hc
          as (rel & fd & frames & wa & wb & ed & fs' & Hrel & _ & _ & _ & _ & _ & Hf & _).
        exists (output_path_of c rel). unfold output_path. rewrite Hrel.
        split; [done|]. rewrite Hf, lookup_insert_eq. by eexists.
      - apply process_chunk_finished in Hc.
        destruct (Pth.relative_to c BASE_DIR) as [rel|e] eqn:Hrel.
        2:{ by rewrite process_body_unfold, Hrel in Hc. }
        exists (output_path_of c rel). unfold output_path. rewrite Hrel.
        split; [done|].
        destruct (files w !! output_path_of c rel) as [x|] eqn:Hout.
        + rewrite (process_body_skip _ _ _ _ rel) in Hc by done.
          injection Hc as <-. simpl. rewrite Hout. by eexists.
        + destruct (process_body_fresh _ _ _ _ _ _ rel Hrel Hout Hc)
            as (_ & [(_ & _ & Hne)|(fd & frames & wa & wb & ed & fs' & _ & _ & _ & _ & _ & _ & Hend)]);
            [done|].
          by destruct Hend as [([=] & _)|[(e & [=] & _)|(e & [=] & _)]]. }
    destruct Hout as (out & Hop & Hex). exists out. split; [done|].
    by apply main_loop_keeps.
  - by apply (IH _ k).
Qed.

(** A chunk whose output is in place when the run starts is skipped. *)
Lemma main_loop_skips cs : forall w k c out,
  cs !! k = Some c -> output_path c = Ok out -> is_Some (files w !! out) ->
  snd (main_loop fzero E cs w) !! k = Some (Finished AlreadyProcessed).
Proof.
  induction cs as [|c0 cs IH]; intros w k c out Hk Hop Hex; [done|].
  rewrite main_loop_cons. destruct k as [|k]; simpl in Hk |- *.
  - injection Hk as ->. by rewrite (process_chunk_skip _ _ out).
  - apply (IH _ k c out); [done..|].
    eapply process_chunk_keeps; [apply surjective_pairing|done].
Qed.

Lemma main_loop_all_skipped cs : forall w,
  (forall c, c ∈ cs -> exists out, output_path c = Ok out /\ is_Some (files w !! out)) ->
  files (fst (main_loop fzero E cs w)) = files w /\
  Forall (fun o => o = Finished AlreadyProcessed) (snd (main_loop fzero E cs w)).
Proof.
  induction cs as [|c cs IH]; intros w Hall; [done|].
  rewrite main_loop_cons. simpl.
  destruct (Hall c) as (out & Hop & Hex); [by left|].
  rewrite (process_chunk_skip _ _ out) by done. simpl.
  destruct (IH (mkWorld (files w) (trace w ++ [Write (MsgSkipping (chunk_name c))])))
    as [Hf Hs].
  { intros c' Hc'. apply Hall. by right. }
  split; [done|]. by constructor.
Qed.

End Loop.

(** ** Output paths *)

(** C9, as the specification words it, fails: a chunk in a
    sub-directory keeps that directory in its output path; the
    separator is not replaced by an underscore. *)
Lemma output_path_keeps_directories :
  output_path (BASE_DIR ++ ["a"; "b.safetensors"])
  <> Ok (spec_output_path ["a"; "b.safetensors"]).
Proof. vm_compute. discriminate. Qed.

(** C9, amended: for a chunk at [dirs/file] below the source root, the
    output path is the destination root, then the directories of the
    relative path one by one with every bar replaced by an underscore
    (separators are kept), then the stem of the file with every bar
    replaced by an underscore and suffixed by "_embedded.safetensors". *)
Theorem output_path_mirrors_directories dirs file :
  forallb plain (dirs ++ [file]) = true ->
  output_path (BASE_DIR ++ dirs ++ [file])
  = Ok (OUTPUT_DIR ++ map bar_to_underscore dirs
          ++ [bar_to_underscore (Pth.stem [file]) +:+ "_embedded.safetensors"]).
Proof. apply output_path_plain. Qed.

Lemma output_path_mirrors_directories_witness :
  forallb plain (["Chunk|1"; "b0c9_2018"] ++ ["3|chunk.00.safetensors"]) = true /\
  output_path (BASE_DIR ++ ["Chunk|1"; "b0c9_2018"] ++ ["3|chunk.00.safetensors"])
  = Ok (OUTPUT_DIR ++ ["Chunk_1"; "b0c9_2018"; "3_chunk.00_embedded.safetensors"]).
Proof.
  split; [reflexivity|].
  exact (output_path_mirrors_directories
           ["Chunk|1"; "b0c9_2018"] "3|chunk.00.safetensors" eq_refl).
Defined.

(** ** The failures of one chunk are exceptions of the body *)

Section Failures.

Context {F Image : Type} (fzero : F) (E : @Env F Image).

Implicit Types (w : @World F Image).

(** No frame-like key: [next] raises [StopIteration]. *)
Lemma missing_frame_key_raises c w rel a :
  Pth.relative_to c BASE_DIR = Ok rel ->
  files w !! output_path_of c rel = None ->
  files w !! c = Some (File (Archive a)) ->
  List.find is_frame_key (map fst a) = None ->
  snd (process_body fzero E c w) = Raise StopIteration.
Proof.
  intros Hrel Hout Hc Hkey. rewrite process_body_unfold, Hrel. cbv zeta.
  rewrite Hout. unfold load_frame_data. run_monad. by rewrite Hc, Hkey.
Qed.

(** An input that is not a readable archive: [safe_open] raises. *)
Lemma unreadable_input_raises c w rel :
  Pth.relative_to c BASE_DIR = Ok rel ->
  files w !! output_path_of c rel = None ->
  (forall a, files w !! c <> Some (File (Archive a))) ->
  snd (process_body fzero E c w) = Raise OSError.
Proof.
  intros Hrel Hout Hc. rewrite process_body_unfold, Hrel. cbv zeta.
  rewrite Hout. unfold load_frame_data. run_monad.
  destruct (files w !! c) as [[|[a|]]|]; try done. by destruct (Hc a).
Qed.

(** A failure of the processor or of the vision tower is the result of
    the encoder. *)
Lemma encoder_failure_raises imgs w e :
  processor E imgs (replicate (length imgs) PROMPT) = Raise e ->
  snd (encode_batch E imgs w) = Raise e.
Proof. intros H. unfold encode_batch. run_monad. by rewrite H. Qed.

(** A write that does not complete raises. *)
Lemma failed_write_raises a (p : Path) w :
  save_outcome E p a <> SaveOk ->
  exists e, snd (save_file E a p w) = Raise e.
Proof.
  intros Hne. destruct (save_file E a p w) as [w' r] eqn:Hs.
  destruct (save_file_spec _ _ _ _ _ _ Hs)
    as (_ & [(e & -> & _)|[(_ & Hok & _)|(e & -> & _)]]); simpl; eauto.
  done.
Qed.

End Failures.

Section Claims.

Context {F Image : Type} (fzero : F) (E : @Env F Image).

Implicit Types (w : @World F Image).


(** C4: when the body of the loop raises on a chunk, whatever the
    exception, the handler logs the failure with the path of the
    chunk, keeps the files as the body left them, and the loop goes on
    with the chunks that follow; the run returns one outcome per
    chunk. *)
Theorem chunk_failure_is_caught before c after w wb e :
  process_body fzero E c (fst (main_loop fzero E before w)) = (wb, Raise e) ->
  let w2 := mkWorld (files wb)
              (trace wb ++ [Write (MsgFailed c e); PrintExc e]) in
  process_chunk fzero E c (fst (main_loop fzero E before w)) = (w2, Failed e) /\
  main_loop fzero E (before ++ c :: after) w
  = (fst (main_loop fzero E after w2),
     snd (main_loop fzero E before w)
       ++ Failed e :: snd (main_loop fzero E after w2)) /\
  length (snd (main_loop fzero E (before ++ c :: after) w))
  = length (before ++ c :: after).
Proof.
  intros Hbody w2.
  assert (Hc : process_chunk fzero E c (fst (main_loop fzero E before w))
               = (w2, Failed e)).
  { unfold process_chunk. by rewrite Hbody. }
  split; [done|]. split; [|apply main_loop_length].
  by rewrite main_loop_app, main_loop_cons, Hc.
Qed.

End Claims.

(** ** The skip gate and a second run *)

Section Rerun.

Context {F Image : Type} (fzero : F) (E : @Env F Image).

Implicit Types (w : @World F Image).

(** The outcome of the [k]-th chunk is that of the chunk in the world
    the chunks before it left. *)
Lemma main_loop_nth cs : forall w k c,
  cs !! k = Some c ->
  snd (main_loop fzero E cs w) !! k
  = Some (snd (process_chunk fzero E c
                 (fst (main_loop fzero E (take k cs) w)))).
Proof.
  induction cs as [|c0 cs IH]; intros w k c Hk; [done|].
  destruct k as [|k]; simpl in Hk.
  - injection Hk as ->. by rewrite main_loop_cons.
  - change (take (S k) (c0 :: cs)) with (c0 :: take k cs).
    rewrite !main_loop_cons. cbn [fst snd].
    apply (IH _ k c Hk).
Qed.

(** A chunk whose output path is free is opened, and its outcome is
    not the skip. *)
Lemma process_chunk_fresh_opens c w (out : Path) :
  output_path c = Ok out -> files w !! out = None ->
  snd (process_chunk fzero E c w) <> Finished AlreadyProcessed /\
  exists evs,
    trace (fst (process_chunk fzero E c w)) = trace w ++ SafeOpen c :: evs.
Proof.
  unfold output_path.
  destruct (Pth.relative_to c BASE_DIR) as [rel|e] eqn:Hrel; [|done].
  intros [= <-] Hnone.
  unfold process_chunk. rewrite process_body_unfold, Hrel. cbv zeta.
  rewrite Hnone.
  destruct (load_frame_data c w) as [w1 [fd|e]] eqn:Hload;
    apply load_frame_data_spec in Hload as [-> _].
  2:{ simpl. split; [done|]. eexists. by rewrite <- app_assoc. }
  destruct (frames_of E fd) as [frames|e].
  2:{ simpl. split; [done|]. eexists. by rewrite <- app_assoc. }
  destruct (embed_frames fzero E (chunk_name c) frames _) as [w2 r] eqn:Hemb.
  apply embed_frames_spec in Hemb as (_ & [evs2 Ht2] & _). simpl in Ht2.
  destruct r as [[ed|]|e].
  - destruct (mkdir (output_dir rel) w2) as [w3 r3] eqn:Hmk.
    apply mkdir_spec in Hmk as ([evs3 Ht3] & _).
    destruct r3 as [u|e].
    + destruct (save_file E (output_archive fd ed) (output_path_of c rel) w3)
        as [w4 r4] eqn:Hsave.
      apply save_file_spec in Hsave as ([evs4 Ht4] & _).
      destruct r4 as [u'|e]; simpl; (split; [done|]);
        rewrite Ht4, Ht3, Ht2, <- !app_assoc; simpl; by eexists.
    + simpl. split; [done|].
      rewrite Ht3, Ht2, <- !app_assoc. simpl. by eexists.
  - simpl. split; [done|]. rewrite Ht2, <- !app_assoc. simpl. by eexists.
  - simpl. split; [done|]. rewrite Ht2, <- !app_assoc. simpl. by eexists.
Qed.

Lemma process_chunk_gate c w (out : Path) :
  output_path c = Ok out ->
  snd (process_chunk fzero E c w) = Finished AlreadyProcessed
  <-> is_Some (files w !! out).
Proof.
  intros Hop. split.
  - intros Hskip. destruct (files w !! out) as [x|] eqn:Hout; [by eexists|].
    by destruct (process_chunk_fresh_opens c w out Hop Hout).
  - intros Hex. by rewrite (process_chunk_skip fzero E c w out Hop Hex).
Qed.

(** C3, amended: a chunk below the source root is skipped exactly when
    its output path exists
    at the moment its turn comes; the driver then logs one message,
    does not open the input and changes no file.  When the path does
    not exist the chunk is opened and handled, and it is not reported
    as already processed.  So a second run over the same chunks skips
    every chunk whose output path exists after the first run: every
    chunk that the first run processed or skipped, and also a chunk
    that failed or had no valid frame when something was left under
    its output path (the archive of another chunk with the same output
    path, or the partial file of a failed write).  When the first run
    processed or skipped every chunk, the second run changes no file
    and skips them all. *)
Theorem rerun_skips_written_chunks chunk_paths w k c :
  chunk_paths !! k = Some c ->
  let w1 := fst (main_loop fzero E chunk_paths w) in
  (snd (main_loop fzero E chunk_paths w) !! k = Some (Finished Processed) \/
   snd (main_loop fzero E chunk_paths w) !! k = Some (Finished AlreadyProcessed) ->
   exists out, output_path c = Ok out /\ is_Some (files w1 !! out)) /\
  (forall out : Path,
     output_path c = Ok out ->
     (forall w0,
        (is_Some (files w0 !! out) ->
         process_chunk fzero E c w0
         = (mkWorld (files w0)
              (trace w0 ++ [Write (MsgSkipping (chunk_name c))]),
            Finished AlreadyProcessed)) /\
        (files w0 !! out = None ->
         snd (process_chunk fzero E c w0) <> Finished AlreadyProcessed /\
         exists evs,
           trace (fst (process_chunk fzero E c w0))
           = trace w0 ++ SafeOpen c :: evs)) /\
     (forall w0,
        snd (main_loop fzero E chunk_paths w0) !! k
        = Some (Finished AlreadyProcessed)
        <-> is_Some (files (fst (main_loop fzero E (take k chunk_paths) w0))
                       !! out)) /\
     (is_Some (files w1 !! out) ->
      snd (main_loop fzero E chunk_paths w1) !! k
      = Some (Finished AlreadyProcessed))) /\
  (Forall (fun o => o = Finished Processed \/ o = Finished AlreadyProcessed)
     (snd (main_loop fzero E chunk_paths w)) ->
   files (fst (main_loop fzero E chunk_paths w1)) = files w1 /\
   Forall (fun o => o = Finished AlreadyProcessed)
     (snd (main_loop fzero E chunk_paths w1))).
Proof.
  intros Hk w1. split; [|split].
  - intros Ho. apply (main_loop_output_exists fzero E _ _ _ _ Hk Ho).
  - intros out Hop. split; [|split].
    + intros w0. split.
      * intros Hw0. by apply process_chunk_skip with out.
      * by apply process_chunk_fresh_opens.
    + intros w0. rewrite (main_loop_nth _ w0 k c Hk).
      rewrite <- (process_chunk_gate c _ out Hop).
      split; [by intros [= ->]|by intros ->].
    + intros Hex. by apply main_loop_skips with c out.
  - intros Hall. apply main_loop_all_skipped. intros c' Hc'.
    apply list_elem_of_lookup in Hc' as [k' Hk'].
    apply (main_loop_output_exists fzero E _ w k'); [done|].
    assert (Hlt : k' < length (snd (main_loop fzero E chunk_paths w))).
    { rewrite main_loop_length. by apply lookup_lt_Some in Hk'. }
    apply lookup_lt_is_Some in Hlt as [o Ho'].
    rewrite Forall_lookup in Hall. destruct (Hall k' o Ho') as [->| ->]; auto.
Qed.

End Rerun.

(** C3, as the specification words it, fails: a chunk without a
    frame-like key fails in the first run, leaves no output, and in the
    second run it is opened and fails again instead of being skipped. *)
Lemma second_run_reopens_failed_chunk :
  ~ second_run_skips_every_chunk 0%Z Demo.env [Demo.chunk_bar] Demo.w_nokey.
Proof.
  unfold second_run_skips_every_chunk. intros [Hall _].
  vm_compute in Hall. inversion Hall as [|o os Ho _]. discriminate Ho.
Qed.

(** ** Channels and frames *)

Lemma numel_app s1 s2 : numel (s1 ++ s2) = numel s1 * numel s2.
Proof.
  unfold numel. induction s1 as [|a s1 IH]; simpl; [lia|]. rewrite IH. lia.
Qed.

Lemma groups_take_lookup {A} n size count : forall (l : list A) j ch,
  n <= size -> length l = count * size -> j < count -> ch < n ->
  concat (map (take n) (groups count size l)) !! (n * j + ch)
  = l !! (size * j + ch).
Proof.
  induction count as [|count IH]; intros l j ch Hn Hlen Hj Hch; [lia|].
  simpl. assert (Hfirst : length (take n (take size l)) = n).
  { rewrite !length_take. lia. }
  destruct j as [|j].
  - rewrite !Nat.mul_0_r. simpl.
    rewrite lookup_app_l by lia.
    by rewrite !lookup_take_lt by lia.
  - rewrite lookup_app_r by lia. rewrite Hfirst.
    replace (n * S j + ch - n) with (n * j + ch) by lia.
    rewrite IH; [|lia|rewrite length_drop; lia|lia|lia].
    rewrite lookup_drop. f_equal. lia.
Qed.

(** [frame[..., :3]] on a frame whose last axis has [c] entries. *)
Lemma take_channels_spec {A} (frame : tensor A) outer c :
  shape frame = outer ++ [c] ->
  exists rgb,
    take_channels 3 frame = Ok rgb /\
    shape rgb = outer ++ [Nat.min 3 c] /\
    (well_shaped frame -> 3 <= c ->
     forall j ch, j < numel outer -> ch < 3 ->
       elems rgb !! (3 * j + ch) = elems frame !! (c * j + ch)).
Proof.
  intros Hsh. unfold take_channels. rewrite Hsh, last_snoc, removelast_last.
  eexists. split; [done|]. split; [done|].
  intros Hws Hc j ch Hj Hch.
  change (elems {| shape := ?s; elems := ?e |}) with e.
  apply groups_take_lookup; [done| |done..].
  unfold well_shaped in Hws. rewrite Hws, Hsh, numel_app. simpl. lia.
Qed.

Lemma classify_grayscale frame :
  ndim frame = 2 -> classify frame = Ok (Dropped Grayscale).
Proof. intros H. unfold classify. by rewrite H. Qed.

Lemma classify_channels frame outer c :
  ndim frame <> 2 -> shape frame = outer ++ [c] ->
  classify frame
  = if c =? 4 then
      match take_channels 3 frame with
      | Ok rgb => Ok (Valid rgb)
      | Raise e => Raise e
      end
    else if negb (c =? 3) then Ok (Dropped UnexpectedChannels)
    else Ok (Valid frame).
Proof.
  intros Hnd Hsh. unfold classify.
  apply Nat.eqb_neq in Hnd. by rewrite Hnd, Hsh, last_snoc.
Qed.

Section Frames.

Context {F Image : Type} (fzero : F) (E : @Env F Image).

Implicit Types (w : @World F Image).

Lemma frames_of_spec (fd : @stored F) frames :
  frames_of E fd = Ok frames ->
  exists n rest,
    stored_shape fd = n :: rest /\ length frames = n /\
    forall i frame, frames !! i = Some frame -> shape frame = rest.
Proof.
  unfold frames_of. destruct (stored_shape fd) as [|n rest]; [done|].
  intros [= <-]. exists n, rest. split; [done|]. split.
  { by rewrite length_map, length_seq. }
  intros i frame Hi. rewrite list_lookup_fmap in Hi.
  destruct (seq 0 n !! i); [|done]. injection Hi as <-.
  by destruct fd.
Qed.

(** The pairs the loop collects: index [idxs !! k] goes with image
    [imgs !! k]. *)
Lemma valid_pairs frames imgs :
  mapE (fromarray E) (valid_frames 0 frames).*2 = Ok imgs ->
  length imgs = length (valid_frames 0 frames).*1 /\
  (forall k i, (valid_frames 0 frames).*1 !! k = Some i ->
     exists frame arr img,
       frames !! i = Some frame /\ classify frame = Ok (Valid arr) /\
       fromarray E arr = Ok img /\ imgs !! k = Some img) /\
  (forall i frame arr, frames !! i = Some frame ->
     classify frame = Ok (Valid arr) ->
     exists k img,
       (valid_frames 0 frames).*1 !! k = Some i /\
       fromarray E arr = Ok img /\ imgs !! k = Some img).
Proof.
  intros Hmap. destruct (mapE_spec _ _ _ Hmap) as [Hlen Hk].
  rewrite length_fmap in Hlen. split; [by rewrite length_fmap|]. split.
  - intros k i Hi. rewrite list_lookup_fmap in Hi.
    destruct (valid_frames 0 frames !! k) as [[j arr]|] eqn:Hv; [|done].
    simpl in Hi. injection Hi as ->.
    destruct (Hk k arr) as (img & Himg & Hik).
    { by rewrite list_lookup_fmap, Hv. }
    pose proof (list_elem_of_lookup_2 _ _ _ Hv) as Hin.
    apply valid_frames_elem in Hin as (frame & _ & Hl & Hc).
    rewrite Nat.sub_0_r in Hl. by exists frame, arr, img.
  - intros i frame arr Hl Hc.
    assert (Hin : (i, arr) ∈ valid_frames 0 frames).
    { apply valid_frames_elem. exists frame. rewrite Nat.sub_0_r.
      split; [lia|done]. }
    apply list_elem_of_lookup in Hin as [k Hv].
    destruct (Hk k arr) as (img & Himg & Hik).
    { by rewrite list_lookup_fmap, Hv. }
    exists k, img. split; [|done]. by rewrite list_lookup_fmap, Hv.
Qed.

(** C5: the loop of lines 57-71 decides every frame as the chain of
    tests says: rank 2 is dropped as grayscale; otherwise a last axis
    of 4 is made valid by keeping the first 3 channels of every
    pixel, a last axis other than 3 and 4 is dropped, a last axis of 3
    is valid as it is.  The indices collected are increasing, and the
    [k]-th image is the one built from the [k]-th valid frame. *)
Theorem frame_normalizer_classifies_in_order name frames w w' imgs idxs :
  validate_loop E name 0 frames [] [] w = (w', Ok (imgs, idxs)) ->
  StronglySorted lt idxs /\
  length imgs = length idxs /\
  (forall k i, idxs !! k = Some i ->
     exists frame arr img,
       frames !! i = Some frame /\ classify frame = Ok (Valid arr) /\
       fromarray E arr = Ok img /\ imgs !! k = Some img) /\
  forall i frame, frames !! i = Some frame ->
    (ndim frame = 2 ->
     classify frame = Ok (Dropped Grayscale) /\ i ∉ idxs) /\
    (forall outer c, ndim frame <> 2 -> shape frame = outer ++ [c] ->
       (c = 4 ->
        exists rgb,
          classify frame = Ok (Valid rgb) /\ i ∈ idxs /\
          shape rgb = outer ++ [3] /\
          (well_shaped frame ->
           forall j ch, j < numel outer -> ch < 3 ->
             elems rgb !! (3 * j + ch) = elems frame !! (4 * j + ch))) /\
       (c <> 3 -> c <> 4 ->
        classify frame = Ok (Dropped UnexpectedChannels) /\ i ∉ idxs) /\
       (c = 3 -> classify frame = Ok (Valid frame) /\ i ∈ idxs)).
Proof.
  intros Hloop. apply validate_loop_spec in Hloop as (_ & _ & Hr).
  destruct (Hr imgs idxs eq_refl) as (Hidx & new & Hnew & Himgs).
  simpl in Hidx, Himgs. subst idxs new.
  destruct (valid_pairs _ _ Hnew) as (Hlen & Hpair & Hfind).
  split; [apply valid_frames_sorted|]. split; [done|]. split; [done|].
  intros i frame Hi.
  assert (Hin : forall arr, classify frame = Ok (Valid arr) ->
                  i ∈ (valid_frames 0 frames).*1).
  { intros arr Hc. destruct (Hfind i frame arr Hi Hc) as (k & _ & Hk & _).
    by eapply list_elem_of_lookup_2. }
  assert (Hout : forall why, classify frame = Ok (Dropped why) ->
                   i ∉ (valid_frames 0 frames).*1).
  { intros why Hc. by apply (valid_frames_dropped frames 0 i frame why). }
  split.
  - intros Hnd. pose proof (classify_grayscale _ Hnd) as Hc. eauto.
  - intros outer c Hnd Hsh.
    pose proof (classify_channels _ _ _ Hnd Hsh) as Hc.
    split; [|split].
    + intros ->. simpl in Hc.
      destruct (take_channels_spec frame outer 4 Hsh) as (rgb & Ht & Hs & He).
      rewrite Ht in Hc. exists rgb. split; [done|]. split; [eauto|].
      split; [done|]. intros Hws. apply (He Hws). lia.
    + intros H3%Nat.eqb_neq H4%Nat.eqb_neq. rewrite H3, H4 in Hc.
      simpl in Hc. eauto.
    + intros ->. simpl in Hc. eauto.
Qed.

End Frames.

Lemma output_dir_plain dirs file :
  forallb plain (dirs ++ [file]) = true ->
  output_dir (dirs ++ [file]) = OUTPUT_DIR ++ map bar_to_underscore dirs.
Proof.
  intros Hall.
  assert (Hf : plain file = true).
  { rewrite forallb_app in Hall. apply andb_prop in Hall as [_ Hf].
    simpl in Hf. by rewrite andb_true_r in Hf. }
  assert (Hd : forallb plain dirs = true).
  { rewrite forallb_app in Hall. by apply andb_prop in Hall as [Hd _]. }
  unfold output_dir.
  rewrite safe_rel_path_plain by (done || by destruct dirs).
  rewrite map_app. simpl map.
  rewrite parent_snoc by (by rewrite bar_plain).
  unfold Pth.joinpath.
  by rewrite is_absolute_plain by (by rewrite forallb_bar_plain).
Qed.

Section MoreClaims.

Context {F Image : Type} (fzero : F) (E : @Env F Image).

Implicit Types (w : @World F Image).

Lemma validate_loop_all_dropped name frames :
  Forall (fun f => exists why, classify f = Ok (Dropped why)) frames ->
  forall i imgs0 idxs0 w,
    snd (validate_loop E name i frames imgs0 idxs0 w) = Ok (imgs0, idxs0).
Proof.
  induction 1 as [|f rest [why Hf] _ IH]; intros i imgs0 idxs0 w; [done|].
  simpl. rewrite bind_unfold.
  destruct (check_frame_classify name i f w) as (evs & -> & _).
  rewrite Hf. apply IH.
Qed.

Lemma embed_frames_all_dropped name frames w :
  Forall (fun f => exists why, classify f = Ok (Dropped why)) frames ->
  snd (embed_frames fzero E name frames w) = Ok None.
Proof.
  intros Hall. unfold embed_frames. rewrite bind_unfold.
  pose proof (validate_loop_all_dropped name frames Hall 0 [] [] w) as Hv.
  destruct (validate_loop E name 0 frames [] [] w) as [w1 r].
  simpl in Hv. by subst r.
Qed.

(** C6: when no frame of a chunk is classified Valid, handling the
    chunk changes no file, so no archive is written for it; the body
    ends with the [continue] of line 75 when every frame is dropped
    and the output did not exist; and the loop goes on with the
    chunks that follow. *)
Theorem chunk_without_valid_frames_writes_nothing c w w1 fd frames rest :
  load_frame_data c w = (w1, Ok fd) ->
  frames_of E fd = Ok frames ->
  Forall (fun f => is_valid f = false) frames ->
  let w' := fst (process_chunk fzero E c w) in
  let o := snd (process_chunk fzero E c w) in
  files w' = files w /\
  o <> Finished Processed /\
  (forall rel,
     Pth.relative_to c BASE_DIR = Ok rel ->
     files w !! output_path_of c rel = None ->
     Forall (fun f => exists why, classify f = Ok (Dropped why)) frames ->
     o = Finished NoValidFrames) /\
  main_loop fzero E (c :: rest) w
  = (fst (main_loop fzero E rest w'), o :: snd (main_loop fzero E rest w')).
Proof.
  intros Hload Hframes Hnone w' o. subst w' o.
  split; [|split; [|split; [|apply main_loop_cons]]].
  - destruct (process_chunk fzero E c w) as [w' o] eqn:Hc. simpl.
    assert (Hb : exists wb r,
      process_body fzero E c w = (wb, r) /\ files w' = files wb /\
      (r = Ok Processed <-> o = Finished Processed)).
    { unfold process_chunk in Hc.
      destruct (process_body fzero E c w) as [wb [s|e]]; injection Hc as <- <-;
        eexists _, _; (split; [done|]); (split; [done|]);
        split; congruence. }
    destruct Hb as (wb & r & Hbody & -> & _).
    destruct (Pth.relative_to c BASE_DIR) as [rel|e] eqn:Hrel.
    2:{ rewrite process_body_unfold, Hrel in Hbody. by injection Hbody as <- <-. }
    destruct (files w !! output_path_of c rel) as [x|] eqn:Hout.
    { rewrite (process_body_skip _ _ _ _ rel) in Hbody by done.
      by injection Hbody as <- <-. }
    destruct (process_body_fresh _ _ _ _ _ _ rel Hrel Hout Hbody)
      as (_ & [(-> & _)|(fd' & frames' & wa & wb' & ed & fs' & Hl & Hfr & Hemb & _)]);
      [done|].
    rewrite Hload in Hl. injection Hl as <- <-. rewrite Hframes in Hfr.
    injection Hfr as <-.
    apply embed_frames_spec in Hemb as (_ & _ & _ & Hsome).
    destruct (Hsome ed eq_refl) as (imgs & pooled & Hne & Hmap & _).
    rewrite (valid_frames_none frames 0 Hnone) in Hmap. by injection Hmap as <-.
  - intros Hc.
    destruct (process_chunk fzero E c w) as [w' o] eqn:Hpc. simpl in Hc. subst o.
    apply process_chunk_processed in Hpc
      as (rel & fd' & frames' & wa & wb & ed & fs' & _ & _ & Hl & Hfr & Hemb & _).
    rewrite Hload in Hl. injection Hl as <- <-. rewrite Hframes in Hfr.
    injection Hfr as <-.
    apply embed_frames_spec in Hemb as (_ & _ & _ & Hsome).
    destruct (Hsome ed eq_refl) as (imgs & pooled & Hne & Hmap & _).
    rewrite (valid_frames_none frames 0 Hnone) in Hmap. by injection Hmap as <-.
  - intros rel Hrel Hout Hall. unfold process_chunk.
    rewrite process_body_unfold, Hrel. cbv zeta. rewrite Hout, Hload, Hframes.
    pose proof (embed_frames_all_dropped (chunk_name c) frames w1 Hall) as Hemb.
    destruct (embed_frames fzero E (chunk_name c) frames w1) as [w2 r].
    simpl in Hemb. by subst r.
Qed.

End MoreClaims.

(** C8, as the specification words it, fails: when [save_file] raises
    after it created the file, the partial file stays under the final
    output path. *)
Lemma partial_file_left_under_final_name :
  ~ written_atomically 0%Z Demo.env_disk_full Demo.chunk_bar Demo.w_rgb.
Proof.
  intros Hatomic.
  destruct (Hatomic Demo.out_bc) as [Hnone|(fd & ed & Hsome)].
  - vm_compute. reflexivity.
  - vm_compute. reflexivity.
  - vm_compute in Hnone. discriminate Hnone.
  - vm_compute in Hsome. discriminate Hsome.
Qed.

(** ** Realigned embeddings *)

Section Realigned.

Context {F Image : Type} (fzero : F) (E : @Env F Image).

Implicit Types (w : @World F Image).

(** The embedding written for the [k]-th valid frame is the [k]-th
    row of [pooled]; it is the pooled vector of that frame exactly
    when the encoder returns one row per image. *)
Lemma valid_frame_gets_pooled_row name frames w w' ed :
  embed_frames fzero E name frames w = (w', Ok (Some ed)) ->
  exists imgs pooled,
    mapE (fromarray E) (valid_frames 0 frames).*2 = Ok imgs /\
    extract E imgs = Ok pooled /\
    (well_shaped pooled ->
     forall k i row,
       (valid_frames 0 frames).*1 !! k = Some i ->
       tensor_get pooled k = Ok row ->
       tensor_get ed i = Ok row).
Proof.
  intros Hemb. apply embed_frames_spec in Hemb as (_ & _ & _ & Hsome).
  destruct (Hsome ed eq_refl) as (imgs & pooled & _ & Hmap & _ & Henc & Hre).
  exists imgs, pooled. do 2 (split; [done|]).
  intros Hws k i row Hk Hget.
  destruct (realign_spec _ _ _ _ _ Hre) as (m & dsh & rows & Hsh & Hrows & _ & Hfill).
  destruct (Hfill Hws) as (_ & _ & Hrow).
  apply (Hrow (valid_frames_NoDup frames 0) k i row Hk).
  destruct (tensor_rows_spec _ _ Hrows) as (m' & dsh' & Hsh' & Hlen & Hr).
  assert (Hlt : k < length rows).
  { unfold tensor_get in Hget. rewrite Hsh' in Hget.
    destruct (k <? m') eqn:Hkm; [|done]. apply Nat.ltb_lt in Hkm. lia. }
  apply lookup_lt_is_Some in Hlt as [row' Hrow'].
  destruct (Hr k row' Hrow') as (_ & Hget' & _). congruence.
Qed.

(** C2: the archive of a processed chunk holds the frame tensor that
    was read and the embedding tensor the realigner made of its
    frames, and both have the same length along the first axis; and
    whatever the frames, the embedding tensor has one row per frame,
    of the row shape [D] of [pooled], and the row of every frame that
    was dropped is the zero row of that shape. *)
Theorem realigner_keeps_length_and_zero_fills :
  (forall c w w',
     process_chunk fzero E c w = (w', Finished Processed) ->
     exists out fd ed frames w1 w2 rest,
       output_path c = Ok out /\
       files w' !! out = Some (File (Archive (output_archive fd ed))) /\
       frames_of E fd = Ok frames /\
       embed_frames fzero E (chunk_name c) frames w1 = (w2, Ok (Some ed)) /\
       stored_shape fd = length frames :: rest /\
       hd 0 (shape ed) = hd 0 (stored_shape fd)) /\
  (forall name frames w w' ed,
     embed_frames fzero E name frames w = (w', Ok (Some ed)) ->
     exists imgs pooled m dsh,
       mapE (fromarray E) (valid_frames 0 frames).*2 = Ok imgs /\
       extract E imgs = Ok pooled /\
       shape pooled = m :: dsh /\
       shape ed = length frames :: dsh /\
       (well_shaped pooled ->
        well_shaped ed /\
        forall i frame why,
          frames !! i = Some frame ->
          classify frame = Ok (Dropped why) ->
          tensor_get ed i = Ok (Tensor dsh (replicate (numel dsh) fzero)))).
Proof.
  assert (Hgen : forall name frames w w' ed,
     embed_frames fzero E name frames w = (w', Ok (Some ed)) ->
     exists imgs pooled m dsh,
       mapE (fromarray E) (valid_frames 0 frames).*2 = Ok imgs /\
       extract E imgs = Ok pooled /\
       shape pooled = m :: dsh /\
       shape ed = length frames :: dsh /\
       (well_shaped pooled ->
        well_shaped ed /\
        forall i frame why,
          frames !! i = Some frame ->
          classify frame = Ok (Dropped why) ->
          tensor_get ed i = Ok (Tensor dsh (replicate (numel dsh) fzero)))).
  { intros name frames w w' ed Hemb.
    apply embed_frames_spec in Hemb as (_ & _ & _ & Hsome).
    destruct (Hsome ed eq_refl) as (imgs & pooled & _ & Hmap & _ & Henc & Hre).
    destruct (realign_spec _ _ _ _ _ Hre) as (m & dsh & rows & Hsh & _ & Hed & Hfill).
    exists imgs, pooled, m, dsh.
    do 4 (split; [done|]). intros Hws.
    destruct (Hfill Hws) as (Hwsed & Hzero & _). split; [done|].
    intros i frame why Hi Hc. apply Hzero.
    - by apply lookup_lt_Some in Hi.
    - by apply (valid_frames_dropped frames 0 i frame why). }
  split; [|exact Hgen].
  intros c w w' Hc. apply process_chunk_processed in Hc
    as (rel & fd & frames & w1 & w2 & ed & fs' & Hrel & _ & _ & Hfr & Hemb & _ & Hf & _).
  destruct (frames_of_spec E _ _ Hfr) as (n & rest & Hss & Hlen & _).
  destruct (Hgen _ _ _ _ _ Hemb) as (imgs & pooled & m & dsh & _ & _ & _ & Hed & _).
  exists (output_path_of c rel), fd, ed, frames, w1, w2, rest.
  split; [unfold output_path; by rewrite Hrel|].
  split; [by rewrite Hf, lookup_insert_eq|].
  do 2 (split; [done|]). subst n. split; [done|]. by rewrite Hed, Hss.
Qed.

End Realigned.

(** ** What is written for a chunk *)

Section SavedArchive.

Context {F Image : Type} (fzero : F) (E : @Env F Image).

Implicit Types (w : @World F Image).

(** C7: the archive written for a chunk holds, under "frame_data", the
    tensor found under the first frame-like key of the input archive,
    as it was read, and under "embedding_data" the realigned output of
    the encoder on the images of the valid frames.  When the frames
    have four channels the stored tensor still has four, while the
    image of such a frame is built from its first three channels, and
    the row of the embedding at the index of the frame is the encoder
    row of that image's position in the batch. *)
Theorem frame_data_saved_unchanged c w w' :
  process_chunk fzero E c w = (w', Finished Processed) ->
  exists out a key fd ed frames imgs pooled,
    output_path c = Ok out /\
    files w !! c = Some (File (Archive a)) /\
    List.find is_frame_key (map fst a) = Some key /\
    dict_get key a = Ok fd /\
    files w' !! out
    = Some (File (Archive [("frame_data", fd);
                           ("embedding_data", FloatT ed)])) /\
    frames_of E fd = Ok frames /\
    mapE (fromarray E) (valid_frames 0 frames).*2 = Ok imgs /\
    In (CallProcessor imgs (replicate (length imgs) PROMPT)) (trace w') /\
    extract E imgs = Ok pooled /\
    realign fzero (length frames) (valid_frames 0 frames).*1 pooled = Ok ed /\
    forall i frame outer,
      frames !! i = Some frame -> ndim frame <> 2 ->
      shape frame = outer ++ [4] ->
      last (stored_shape fd) = Some 4 /\
      exists rgb img k,
        take_channels 3 frame = Ok rgb /\ shape rgb = outer ++ [3] /\
        (well_shaped frame ->
         forall j ch, j < numel outer -> ch < 3 ->
           elems rgb !! (3 * j + ch) = elems frame !! (4 * j + ch)) /\
        fromarray E rgb = Ok img /\
        (valid_frames 0 frames).*1 !! k = Some i /\
        imgs !! k = Some img /\
        (well_shaped pooled ->
         forall row, tensor_get pooled k = Ok row -> tensor_get ed i = Ok row).
Proof.
  intros Hc. apply process_chunk_processed in Hc
    as (rel & fd & frames & w1 & w2 & ed & fs' & Hrel & _ & Hl & Hfr & Hemb & _ & Hf & Hx).
  destruct (load_frame_data_spec _ _ _ _ Hl) as (_ & Hfd).
  destruct (Hfd fd eq_refl) as (a & key & Ha & Hkey & Hget).
  destruct (embed_frames_spec _ _ _ _ _ _ _ Hemb) as (_ & _ & _ & Hsome).
  destruct (Hsome ed eq_refl) as (imgs & pooled & _ & Hmap & Hcall & Hex & Hre).
  destruct (valid_frame_gets_pooled_row _ _ _ _ _ _ _ Hemb)
    as (imgs' & pooled' & Hmap' & Hex' & Hrows).
  rewrite Hmap in Hmap'. injection Hmap' as <-.
  rewrite Hex in Hex'. injection Hex' as <-.
  exists (output_path_of c rel), a, key, fd, ed, frames, imgs, pooled.
  split; [unfold output_path; by rewrite Hrel|].
  do 3 (split; [done|]).
  split; [by rewrite Hf, lookup_insert_eq|].
  split; [done|]. split; [done|]. split; [by eapply extends_In|].
  split; [done|]. split; [done|].
  intros i frame outer Hi Hnd Hsh.
  destruct (frames_of_spec E _ _ Hfr) as (n & rest & Hss & _ & Hshape).
  split.
  { rewrite Hss, <- (Hshape i frame Hi), Hsh.
    by rewrite last_cons, last_snoc. }
  destruct (take_channels_spec frame outer 4 Hsh) as (rgb & Ht & Hs & Hpix).
  pose proof (classify_channels _ _ _ Hnd Hsh) as Hcl. simpl in Hcl.
  rewrite Ht in Hcl.
  destruct (valid_pairs E _ _ Hmap) as (_ & _ & Hfind).
  destruct (Hfind i frame rgb Hi Hcl) as (k & img & Hidx & Himg & Hk).
  exists rgb, img, k. do 2 (split; [done|]).
  split; [intros Hws; apply Hpix; [done|lia]|].
  do 3 (split; [done|]).
  intros Hws row Hrow. by apply (Hrows Hws k i row).
Qed.

End SavedArchive.

(** ** The operations of one chunk on the disk *)

Section DiskEvents.

Context {F Image : Type} (fzero : F) (E : @Env F Image).

Implicit Types (w : @World F Image).

Lemma disk_events_app (evs1 evs2 : list (@event F Image)) :
  disk_events (evs1 ++ evs2) = disk_events evs1 ++ disk_events evs2.
Proof.
  induction evs1 as [|ev rest IH]; [done|].
  destruct ev; simpl; by rewrite ?IH.
Qed.

Lemma disk_events_writes (evs : list (@event F Image)) :
  (forall ev, In ev evs -> exists m, ev = Write m) -> disk_events evs = [].
Proof.
  induction evs as [|ev rest IH]; [done|]. intros Hall.
  destruct (Hall ev (or_introl eq_refl)) as [m ->]. simpl.
  apply IH. intros ev Hin. apply Hall. by right.
Qed.

Lemma validate_loop_disk name frames : forall i imgs0 idxs0 w w' r,
  validate_loop E name i frames imgs0 idxs0 w = (w', r) ->
  disk_events (trace w') = disk_events (trace w).
Proof.
  induction frames as [|f rest IH]; intros i imgs0 idxs0 w w' r.
  - simpl. by intros [= <- <-].
  - simpl. rewrite bind_unfold.
    destruct (check_frame_classify name i f w) as (evs & -> & Hw).
    assert (Hc : disk_events (trace w ++ evs) = disk_events (trace w)).
    { by rewrite disk_events_app, (disk_events_writes evs Hw), app_nil_r. }
    destruct (classify f) as [[arr|why]|e].
    + rewrite bind_unfold. unfold lift at 1.
      destruct (fromarray E arr) as [img|e].
      * intros Hrec. apply IH in Hrec. by rewrite Hrec.
      * by intros [= <- <-].
    + intros Hrec. apply IH in Hrec. by rewrite Hrec.
    + by intros [= <- <-].
Qed.

Lemma encode_batch_disk imgs w w' r :
  encode_batch E imgs w = (w', r) ->
  disk_events (trace w') = disk_events (trace w).
Proof.
  unfold encode_batch. run_monad.
  destruct (processor E imgs _) as [inputs|e];
    [|intros [= <- <-]; simpl; by rewrite disk_events_app, app_nil_r].
  destruct (move_inputs E inputs) as [moved|e];
    [|intros [= <- <-]; simpl; by rewrite disk_events_app, app_nil_r].
  destruct (dict_get "pixel_values" moved) as [pv|e];
    [|intros [= <- <-]; simpl; by rewrite disk_events_app, app_nil_r].
  assert (Hfin : forall pv',
    match vision_tower E pv' with
    | Ok a =>
        match mean_dim1 E a with
        | Ok p =>
            (mkWorld (files w)
               ((trace w ++ [CallProcessor imgs (replicate (length imgs) PROMPT)])
                ++ [CallVisionTower pv']), Ok p)
        | Raise e =>
            (mkWorld (files w)
               ((trace w ++ [CallProcessor imgs (replicate (length imgs) PROMPT)])
                ++ [CallVisionTower pv']), Raise e)
        end
    | Raise e =>
        (mkWorld (files w)
           ((trace w ++ [CallProcessor imgs (replicate (length imgs) PROMPT)])
            ++ [CallVisionTower pv']), Raise e)
    end = (w', r) ->
    disk_events (trace w') = disk_events (trace w)).
  { intros pv'.
    destruct (vision_tower E pv') as [vf|e];
      [destruct (mean_dim1 E vf) as [p|e]|];
      intros [= <- <-]; simpl; rewrite !disk_events_app; simpl;
      by rewrite !app_nil_r. }
  destruct (ndim pv =? 5).
  - destruct (view_patches pv) as [pv'|e].
    + apply Hfin.
    + intros [= <- <-]. simpl. by rewrite disk_events_app, app_nil_r.
  - apply Hfin.
Qed.

Lemma embed_frames_disk name frames w w' r :
  embed_frames fzero E name frames w = (w', r) ->
  disk_events (trace w') = disk_events (trace w).
Proof.
  unfold embed_frames. rewrite bind_unfold.
  destruct (validate_loop E name 0 frames [] [] w) as [w1 [[imgs idxs]|e]] eqn:Hloop;
    apply validate_loop_disk in Hloop.
  2:{ by intros [= <- <-]. }
  destruct imgs as [|img imgs].
  - run_monad. intros [= <- <-]. simpl.
    by rewrite disk_events_app, app_nil_r.
  - rewrite bind_unfold.
    destruct (encode_batch E (img :: imgs) w1) as [w2 [pooled|e]] eqn:Henc;
      apply encode_batch_disk in Henc; rewrite Hloop in Henc.
    + run_monad.
      by destruct (realign fzero (length frames) idxs pooled) as [ed|e];
        intros [= <- <-].
    + by intros [= <- <-].
Qed.

Lemma mkdir_disk p w w' r :
  mkdir p w = (w', r) ->
  disk_events (trace w') = disk_events (trace w) ++ [Mkdir p].
Proof.
  unfold mkdir. run_monad.
  destruct (mkdir_from [] p (files w)); intros [= <- <-]; simpl;
    by rewrite disk_events_app.
Qed.

Lemma save_file_disk a p w w' r :
  save_file E a p w = (w', r) ->
  disk_events (trace w') = disk_events (trace w) ++ [SaveFile a p].
Proof.
  unfold save_file. run_monad.
  destruct (files w !! p) as [[|c]|];
    [|destruct (files w !! Pth.parent p) as [[|c']|];
      [destruct (save_outcome E p a)|..]..];
    intros [= <- <-]; simpl; by rewrite disk_events_app.
Qed.

(** A chunk whose output does not exist yet: what it does on the disk
    and what it leaves there, for every way the body ends. *)
Lemma process_body_fresh_disk c w w' r rel :
  Pth.relative_to c BASE_DIR = Ok rel ->
  files w !! output_path_of c rel = None ->
  process_body fzero E c w = (w', r) ->
  (r <> Ok Processed /\ files w' = files w /\
   (disk_events (trace w') = disk_events (trace w) \/
    disk_events (trace w')
    = disk_events (trace w) ++ [Mkdir (output_dir rel)])) \/
  exists fd ed fs',
    mkdir_from [] (output_dir rel) (files w) = Ok fs' /\
    disk_events (trace w')
    = disk_events (trace w)
      ++ [Mkdir (output_dir rel);
          SaveFile [("frame_data", fd); ("embedding_data", FloatT ed)]
            (output_path_of c rel)] /\
    ((r = Ok Processed /\
      save_outcome E (output_path_of c rel)
        [("frame_data", fd); ("embedding_data", FloatT ed)] = SaveOk /\
      files w'
      = <[output_path_of c rel
          := File (Archive [("frame_data", fd);
                            ("embedding_data", FloatT ed)])]> fs')
     \/ (exists e, r = Raise e /\ files w' = fs')
     \/ (exists e, r = Raise e /\
           save_outcome E (output_path_of c rel)
             [("frame_data", fd); ("embedding_data", FloatT ed)]
           = SaveFailsPartial e /\
           files w' = <[output_path_of c rel := File Garbage]> fs')).
Proof.
  intros Hrel Hnone. rewrite process_body_unfold, Hrel. cbv zeta. rewrite Hnone.
  destruct (load_frame_data c w) as [w1 [fd|e]] eqn:Hload;
    apply load_frame_data_spec in Hload as [Hw1 _].
  2:{ intros [= <- <-]. left. subst w1. simpl.
      rewrite disk_events_app, app_nil_r. split; [done|]. split; [done|]. by left. }
  assert (Hd1 : disk_events (trace w1) = disk_events (trace w)).
  { subst w1. simpl. by rewrite disk_events_app, app_nil_r. }
  assert (Hf1 : files w1 = files w) by (by subst w1).
  destruct (frames_of E fd) as [frames|e].
  2:{ intros [= <- <-]. left. split; [done|]. split; [done|]. by left. }
  destruct (embed_frames fzero E (chunk_name c) frames w1) as [w2 r2] eqn:Hemb.
  pose proof (embed_frames_disk _ _ _ _ _ Hemb) as Hd2. rewrite Hd1 in Hd2.
  apply embed_frames_spec in Hemb as (Hf2 & _). rewrite Hf1 in Hf2.
  destruct r2 as [[ed|]|e].
  2:{ intros [= <- <-]. left. split; [done|]. split; [done|]. by left. }
  2:{ intros [= <- <-]. left. split; [done|]. split; [done|]. by left. }
  destruct (mkdir (output_dir rel) w2) as [w3 r3] eqn:Hmk.
  pose proof (mkdir_disk _ _ _ _ Hmk) as Hd3. rewrite Hd2 in Hd3.
  apply mkdir_spec in Hmk as (_ & Hmk).
  destruct r3 as [u|e].
  2:{ intros [= <- <-]. left. split; [done|].
      destruct Hmk as [(e' & _ & Hf3)|([=] & _)].
      split; [congruence|]. by right. }
  destruct Hmk as [(e' & [=] & _)|(_ & Hmk)]. rewrite Hf2 in Hmk.
  destruct (save_file E (output_archive fd ed) (output_path_of c rel) w3)
    as [w4 r4] eqn:Hsave.
  pose proof (save_file_disk _ _ _ _ _ Hsave) as Hd4. rewrite Hd3 in Hd4.
  apply save_file_spec in Hsave as (_ & Hsave).
  unfold output_archive in Hd4, Hsave.
  rewrite <- app_assoc in Hd4. simpl in Hd4.
  intros Hres. right. exists fd, ed, (files w3). split; [done|].
  destruct r4 as [u'|e]; injection Hres as <- <-; simpl.
  - rewrite disk_events_app, app_nil_r. split; [done|]. left.
    destruct Hsave as [(e & [=] & _)|[(_ & Hok & Hf4)|(e & [=] & _)]].
    done.
  - split; [done|].
    destruct Hsave as [(e' & [= <-] & Hf4)|[([=] & _)|(e' & [= <-] & Hp & Hf4)]].
    + right. left. by exists e.
    + right. right. by exists e.
Qed.

(** C8, amended: for a chunk below the source root whose output does
    not exist yet, the archive is written in place under its final
    name.  The only operations of the chunk on the disk are one
    [mkdir] of the output directory and, after it, at most one call of
    [save_file], whose target is the final output path and whose
    argument is the dict of both tensors; no other path receives a
    file, and nothing is cleaned up when the call fails.  So either
    the call succeeded, the chunk is processed and the path holds both
    tensors; or the call failed after creating the file, the partial
    file stays under the final name and the chunk counts as already
    processed from then on; or there is no file under the path. *)
Theorem write_is_in_place_without_cleanup dirs file w :
  forallb plain (dirs ++ [file]) = true ->
  let c : Path := BASE_DIR ++ dirs ++ [file] in
  let dir : Path := OUTPUT_DIR ++ map bar_to_underscore dirs in
  let out : Path :=
    dir ++ [bar_to_underscore (Pth.stem [file]) +:+ "_embedded.safetensors"] in
  files w !! out = None ->
  let w' := fst (process_chunk fzero E c w) in
  let o := snd (process_chunk fzero E c w) in
  output_path c = Ok out /\
  (forall p : Path,
     p <> out ->
     files w' !! p = files w !! p \/
     (files w !! p = None /\ files w' !! p = Some Dir)) /\
  ((o = Finished Processed /\
    exists fd ed,
      disk_events (trace w')
      = disk_events (trace w)
        ++ [Mkdir dir;
            SaveFile [("frame_data", fd); ("embedding_data", FloatT ed)] out] /\
      save_outcome E out [("frame_data", fd); ("embedding_data", FloatT ed)]
      = SaveOk /\
      files w' !! out
      = Some (File (Archive [("frame_data", fd);
                             ("embedding_data", FloatT ed)])))
   \/ (exists e fd ed,
         o = Failed e /\
         disk_events (trace w')
         = disk_events (trace w)
           ++ [Mkdir dir;
               SaveFile [("frame_data", fd); ("embedding_data", FloatT ed)]
                 out] /\
         save_outcome E out [("frame_data", fd); ("embedding_data", FloatT ed)]
         = SaveFailsPartial e /\
         files w' !! out = Some (File Garbage) /\
         snd (process_chunk fzero E c w') = Finished AlreadyProcessed)
   \/ (o <> Finished Processed /\ files w' !! out = None /\
       (disk_events (trace w') = disk_events (trace w) \/
        disk_events (trace w') = disk_events (trace w) ++ [Mkdir dir] \/
        exists fd ed,
          disk_events (trace w')
          = disk_events (trace w)
            ++ [Mkdir dir;
                SaveFile [("frame_data", fd); ("embedding_data", FloatT ed)]
                  out]))).
Proof.
  intros Hplain c dir out Hnone w' o.
  assert (Hop : output_path c = Ok out).
  { unfold c, out, dir. rewrite <- app_assoc.
    apply (output_path_plain dirs file Hplain). }
  split; [done|].
  assert (Hrel : Pth.relative_to c BASE_DIR = Ok (dirs ++ [file]))
    by apply relative_to_app.
  assert (Hout : output_path_of c (dirs ++ [file]) = out).
  { unfold output_path in Hop. rewrite Hrel in Hop. by injection Hop. }
  assert (Hdir : output_dir (dirs ++ [file]) = dir)
    by apply (output_dir_plain dirs file Hplain).
  subst w' o.
  destruct (process_chunk fzero E c w) as [w' o] eqn:Hc. simpl fst. simpl snd.
  assert (Hb : exists wb r,
    process_body fzero E c w = (wb, r) /\ files w' = files wb /\
    disk_events (trace w') = disk_events (trace wb) /\
    o = match r with Ok s => Finished s | Raise e => Failed e end).
  { unfold process_chunk in Hc.
    destruct (process_body fzero E c w) as [wb [s|e]]; injection Hc as <- <-;
      eexists _, _; (split; [done|]); (split; [done|]); (split; [|done]);
      [done|]. simpl. by rewrite disk_events_app, app_nil_r. }
  destruct Hb as (wb & r & Hbody & Hfw & Hdw & ->).
  rewrite Hfw, Hdw. rewrite <- Hout in Hnone.
  destruct (process_body_fresh_disk _ _ _ _ _ Hrel Hnone Hbody)
    as [(Hnp & Hf & Hd)|(fd & ed & fs' & Hmk & Hd & Hend)];
    rewrite Hdir in *; rewrite Hout in *.
  { split; [intros p _; left; by rewrite Hf|].
    right. right. rewrite Hf.
    split; [destruct r as [s|e]; congruence|]. split; [done|].
    destruct Hd as [Hd|Hd]; auto. }
  assert (Hfs : fs' !! out = None).
  { destruct (mkdir_from_spec _ _ _ _ Hmk out) as [->|(_ & _ & Hlen)]; [done|].
    unfold out in Hlen. rewrite !length_app in Hlen. simpl in Hlen. lia. }
  assert (Hother : forall p : Path,
    fs' !! p = files w !! p \/ (files w !! p = None /\ fs' !! p = Some Dir)).
  { intros p. destruct (mkdir_from_spec _ _ _ _ Hmk p) as [Heq|(Hn & Hd' & _)];
      auto. }
  destruct Hend as [(-> & Hok & Hf)|[(e & -> & Hf)|(e & -> & Hp & Hf)]]; simpl.
  - split; [intros p Hp; rewrite Hf, lookup_insert_ne by done; apply Hother|].
    left. split; [done|]. exists fd, ed. do 2 (split; [done|]).
    by rewrite Hf, lookup_insert_eq.
  - split; [intros p Hp; rewrite Hf; apply Hother|].
    right. right. rewrite Hf. split; [done|]. split; [done|].
    right. right. by exists fd, ed.
  - split; [intros p Hp'; rewrite Hf, lookup_insert_ne by done; apply Hother|].
    right. left. exists e, fd, ed. do 3 (split; [done|]).
    assert (Hg : files wb !! out = Some (File Garbage))
      by (by rewrite Hf, lookup_insert_eq).
    split; [done|].
    rewrite (process_chunk_skip _ _ _ _ out); [done|done|].
    rewrite Hfw, Hg. by eexists.
Qed.

End DiskEvents.

(** C1 at a failing input: two RGB frames and a processor that returns
    two patches per image.  The processor is called once, with both
    images; line 83 flattens the patches, so [pooled] has four rows
    instead of two, and [zip] pairs frame 1 with row 1, the second
    patch of frame 0: the embedding written for frame 1 comes from
    frame 0 and does not change when frame 1 changes. *)
Theorem patches_misalign_embeddings :
  let run w := process_chunk 0%Z Demo.env_patches Demo.chunk_bar w in
  let img0 := Tensor [1; 1; 3] [1; 2; 3]%Z in
  let img1 := Tensor [1; 1; 3] [4; 5; 6]%Z in
  snd (run Demo.w_rgb) = Finished Processed /\
  processor_calls (trace (fst (run Demo.w_rgb))) = [[img0; img1]] /\
  extract Demo.env_patches [img0; img1]
  = Ok (Tensor [4; 3] [1; 2; 3; 101; 102; 103; 4; 5; 6; 104; 105; 106]%Z) /\
  files (fst (run Demo.w_rgb)) !! Demo.out_bc
  = Some (File (Archive (output_archive (IntT Demo.two_rgb)
                           (Tensor [2; 3] [1; 2; 3; 101; 102; 103]%Z)))) /\
  files (fst (run Demo.w_rgb')) !! Demo.out_bc
  = Some (File (Archive (output_archive (IntT Demo.two_rgb')
                           (Tensor [2; 3] [1; 2; 3; 101; 102; 103]%Z)))).
Proof. repeat split; vm_compute; reflexivity. Qed.

(** ** The theorems at concrete chunks *)

Lemma pair_from_snd {A B} (p : A * B) (b : B) : snd p = b -> p = (fst p, b).
Proof. intros <-. apply surjective_pairing. Qed.


Lemma rerun_skips_written_chunks_witness :
  [Demo.chunk_bar; Demo.chunk_underscore] !! 0 = Some Demo.chunk_bar /\
  snd (main_loop 0%Z Demo.env [Demo.chunk_bar; Demo.chunk_underscore]
         Demo.w_nokey_and_sibling) !! 0 = Some (Failed StopIteration) /\
  snd (main_loop 0%Z Demo.env [Demo.chunk_bar; Demo.chunk_underscore]
         (fst (main_loop 0%Z Demo.env [Demo.chunk_bar; Demo.chunk_underscore]
                 Demo.w_nokey_and_sibling)))
    !! 0 = Some (Finished AlreadyProcessed).
Proof.
  split; [reflexivity|]. split; [vm_compute; reflexivity|].
  apply (proj2 (proj2 (proj1 (proj2
    (rerun_skips_written_chunks 0%Z Demo.env
       [Demo.chunk_bar; Demo.chunk_underscore] Demo.w_nokey_and_sibling
       0 Demo.chunk_bar eq_refl)) Demo.out_bc eq_refl))).
  eexists. vm_compute. reflexivity.
Defined.

Lemma chunk_failure_is_caught_witness :
  process_body 0%Z Demo.env Demo.chunk_bar
    (fst (main_loop 0%Z Demo.env [] Demo.w_nokey_then_rgb))
  = (fst (process_body 0%Z Demo.env Demo.chunk_bar Demo.w_nokey_then_rgb),
     Raise StopIteration) /\
  snd (main_loop 0%Z Demo.env ([] ++ Demo.chunk_bar :: [Demo.chunk_other])
         Demo.w_nokey_then_rgb)
  = [Failed StopIteration; Finished Processed].
Proof.
  assert (H : process_body 0%Z Demo.env Demo.chunk_bar
                (fst (main_loop 0%Z Demo.env [] Demo.w_nokey_then_rgb))
              = (fst (process_body 0%Z Demo.env Demo.chunk_bar
                        Demo.w_nokey_then_rgb),
                 Raise StopIteration))
    by (vm_compute; reflexivity).
  split; [exact H|].
  destruct (chunk_failure_is_caught 0%Z Demo.env [] Demo.chunk_bar
              [Demo.chunk_other] Demo.w_nokey_then_rgb _ _ H) as (_ & Heq & _).
  rewrite Heq. vm_compute. reflexivity.
Defined.

Lemma frame_normalizer_classifies_in_order_witness :
  let frames := [Demo.gray; Demo.rgba; Demo.five; Demo.rgb] in
  let run := validate_loop Demo.env "x" 0 frames [] [] Demo.w_rgb in
  run = (fst run, Ok ([Tensor [1; 1; 3] [10; 20; 30]%Z; Demo.rgb], [1; 3])) /\
  (classify Demo.gray = Ok (Dropped Grayscale) /\ 0 ∉ [1; 3]) /\
  (exists rgb,
     classify Demo.rgba = Ok (Valid rgb) /\ 1 ∈ [1; 3] /\
     shape rgb = [1; 1] ++ [3] /\
     (well_shaped Demo.rgba ->
      forall j ch, j < numel [1; 1] -> ch < 3 ->
        elems rgb !! (3 * j + ch) = elems Demo.rgba !! (4 * j + ch))) /\
  (classify Demo.five = Ok (Dropped UnexpectedChannels) /\ 2 ∉ [1; 3]) /\
  (classify Demo.rgb = Ok (Valid Demo.rgb) /\ 3 ∈ [1; 3]).
Proof.
  intros frames run.
  assert (H : run = (fst run, Ok ([Tensor [1; 1; 3] [10; 20; 30]%Z; Demo.rgb],
                                  [1; 3])))
    by (vm_compute; reflexivity).
  split; [exact H|].
  destruct (frame_normalizer_classifies_in_order Demo.env "x" frames
              Demo.w_rgb _ _ _ H) as (_ & _ & _ & Hall).
  split; [exact (proj1 (Hall 0 Demo.gray eq_refl) eq_refl)|].
  split; [exact (proj1 (proj2 (Hall 1 Demo.rgba eq_refl) [1; 1] 4
                   ltac:(discriminate) eq_refl) eq_refl)|].
  split; [exact (proj1 (proj2 (proj2 (Hall 2 Demo.five eq_refl) [1; 1] 5
                   ltac:(discriminate) eq_refl))
                   ltac:(discriminate) ltac:(discriminate))|].
  exact (proj2 (proj2 (proj2 (Hall 3 Demo.rgb eq_refl) [1; 1] 3
                 ltac:(discriminate) eq_refl)) eq_refl).
Defined.

Lemma chunk_without_valid_frames_writes_nothing_witness :
  let w1 := fst (load_frame_data Demo.chunk_bar Demo.w_gray) in
  load_frame_data Demo.chunk_bar Demo.w_gray = (w1, Ok (IntT Demo.two_gray)) /\
  frames_of Demo.env (IntT Demo.two_gray)
  = Ok [Tensor [1; 1] [7%Z]; Tensor [1; 1] [8%Z]] /\
  Forall (fun f => is_valid f = false)
    [Tensor [1; 1] [7%Z]; Tensor [1; 1] [8%Z]] /\
  files (fst (process_chunk 0%Z Demo.env Demo.chunk_bar Demo.w_gray))
  = files Demo.w_gray /\
  snd (process_chunk 0%Z Demo.env Demo.chunk_bar Demo.w_gray)
  = Finished NoValidFrames.
Proof.
  intros w1.
  assert (H1 : load_frame_data Demo.chunk_bar Demo.w_gray
               = (w1, Ok (IntT (F:=Z) Demo.two_gray)))
    by (vm_compute; reflexivity).
  assert (H2 : frames_of Demo.env (IntT Demo.two_gray)
               = Ok [Tensor [1; 1] [7%Z]; Tensor [1; 1] [8%Z]])
    by reflexivity.
  assert (H3 : Forall (fun f => is_valid f = false)
                 [Tensor [1; 1] [7%Z]; Tensor [1; 1] [8%Z]])
    by (repeat constructor).
  do 3 (split; [assumption|]).
  destruct (chunk_without_valid_frames_writes_nothing 0%Z Demo.env
              Demo.chunk_bar Demo.w_gray w1 _ _ [] H1 H2 H3)
    as (Hfiles & _ & Hout & _).
  split; [exact Hfiles|].
  apply (Hout ["a"; "b|c.safetensors"]).
  - vm_compute. reflexivity.
  - vm_compute. reflexivity.
  - repeat constructor; by eexists.
Defined.

Lemma frame_data_saved_unchanged_witness :
  process_chunk 0%Z Demo.env Demo.chunk_bar Demo.w_rgba
  = (fst (process_chunk 0%Z Demo.env Demo.chunk_bar Demo.w_rgba),
     Finished Processed) /\
  exists ed imgs,
    files (fst (process_chunk 0%Z Demo.env Demo.chunk_bar Demo.w_rgba))
      !! Demo.out_bc
    = Some (File (Archive [("frame_data", IntT Demo.one_rgba);
                           ("embedding_data", FloatT ed)])) /\
    In (CallProcessor imgs (replicate (length imgs) PROMPT))
      (trace (fst (process_chunk 0%Z Demo.env Demo.chunk_bar Demo.w_rgba))) /\
    imgs !! 0 = Some (Tensor [1; 1; 3] [10; 20; 30]%Z) /\
    tensor_get ed 0 = Ok (Tensor [3] [10; 20; 30]%Z).
Proof.
  assert (H : process_chunk 0%Z Demo.env Demo.chunk_bar Demo.w_rgba
              = (fst (process_chunk 0%Z Demo.env Demo.chunk_bar Demo.w_rgba),
                 Finished Processed))
    by (apply pair_from_snd; vm_compute; reflexivity).
  split; [exact H|].
  destruct (frame_data_saved_unchanged 0%Z Demo.env Demo.chunk_bar
              Demo.w_rgba _ H)
    as (out & a & key & fd & ed & frames & imgs & pooled
        & Hop & Ha & Hkey & Hget & Hf & Hfr & Hmap & Hcall & Hex & Hre & Hall).
  vm_compute in Hop. injection Hop as <-.
  vm_compute in Ha. injection Ha as <-.
  vm_compute in Hkey. injection Hkey as <-.
  vm_compute in Hget. injection Hget as <-.
  vm_compute in Hfr. injection Hfr as <-.
  vm_compute in Hmap. injection Hmap as <-.
  vm_compute in Hex. injection Hex as <-.
  exists ed, [Tensor [1; 1; 3] [10; 20; 30]%Z].
  split; [exact Hf|]. split; [exact Hcall|]. split; [reflexivity|].
  destruct (Hall 0 (Tensor [1; 1; 4] [10; 20; 30; 255]%Z) [1; 1]
              eq_refl ltac:(discriminate) eq_refl)
    as (_ & rgb & img & k & _ & _ & _ & _ & Hidx & _ & Hrow).
  destruct k as [|k]; [|vm_compute in Hidx; discriminate Hidx].
  apply (Hrow eq_refl). reflexivity.
Defined.

Lemma write_is_in_place_without_cleanup_witness :
  forallb plain (["a"] ++ ["b|c.safetensors"]) = true /\
  files Demo.w_rgb !! Demo.out_bc = None /\
  files (fst (process_chunk 0%Z Demo.env_disk_full Demo.chunk_bar Demo.w_rgb))
    !! Demo.out_bc = Some (File Garbage) /\
  snd (process_chunk 0%Z Demo.env_disk_full Demo.chunk_bar
         (fst (process_chunk 0%Z Demo.env_disk_full Demo.chunk_bar Demo.w_rgb)))
  = Finished AlreadyProcessed /\
  exists fd ed,
    disk_events
      (trace (fst (process_chunk 0%Z Demo.env_disk_full Demo.chunk_bar
                     Demo.w_rgb)))
    = disk_events (trace Demo.w_rgb)
      ++ [Mkdir (OUTPUT_DIR ++ ["a"]);
          SaveFile [("frame_data", fd); ("embedding_data", FloatT ed)]
            Demo.out_bc].
Proof.
  assert (H1 : forallb plain (["a"] ++ ["b|c.safetensors"]) = true)
    by reflexivity.
  assert (H2 : files Demo.w_rgb !! Demo.out_bc = None)
    by (vm_compute; reflexivity).
  do 2 (split; [assumption|]).
  destruct (write_is_in_place_without_cleanup 0%Z Demo.env_disk_full
              ["a"] "b|c.safetensors" Demo.w_rgb H1 H2)
    as (_ & _ & [(Ho & _)|[(e & fd & ed & _ & Hd & _ & Hg & Hs)|(_ & Hn & _)]]).
  - vm_compute in Ho. discriminate Ho.
  - split; [exact Hg|]. split; [exact Hs|]. exists fd, ed. exact Hd.
  - vm_compute in Hn. discriminate Hn.
Defined.

Lemma realigner_keeps_length_and_zero_fills_witness :
  let frames := [Demo.gray; Demo.rgba; Demo.five; Demo.rgb] in
  let ed := Tensor [4; 3] [0; 0; 0; 10; 20; 30; 0; 0; 0; 1; 2; 3]%Z in
  let run := embed_frames 0%Z Demo.env "x" frames Demo.w_rgb in
  run = (fst run, Ok (Some ed)) /\
  tensor_get ed 0 = Ok (Tensor [3] [0; 0; 0]%Z) /\
  tensor_get ed 2 = Ok (Tensor [3] [0; 0; 0]%Z) /\
  exists fd ed',
    files (fst (process_chunk 0%Z Demo.env Demo.chunk_bar Demo.w_rgb))
      !! Demo.out_bc = Some (File (Archive (output_archive fd ed'))) /\
    hd 0 (shape ed') = hd 0 (stored_shape fd).
Proof.
  intros frames ed run.
  assert (H : run = (fst run, Ok (Some ed))) by (vm_compute; reflexivity).
  split; [exact H|].
  destruct (realigner_keeps_length_and_zero_fills 0%Z Demo.env) as [Hchunk Hany].
  destruct (Hany "x" frames Demo.w_rgb _ ed H)
    as (imgs & pooled & m & dsh & Hmap & Hext & Hsh & Hed & Hzero).
  vm_compute in Hmap. injection Hmap as <-.
  vm_compute in Hext. injection Hext as <-.
  injection Hed as <-.
  destruct (Hzero eq_refl) as (_ & Hz).
  split; [exact (Hz 0 Demo.gray Grayscale eq_refl eq_refl)|].
  split; [exact (Hz 2 Demo.five UnexpectedChannels eq_refl eq_refl)|].
  assert (Hp : process_chunk 0%Z Demo.env Demo.chunk_bar Demo.w_rgb
               = (fst (process_chunk 0%Z Demo.env Demo.chunk_bar Demo.w_rgb),
                  Finished Processed))
    by (vm_compute; reflexivity).
  destruct (Hchunk Demo.chunk_bar Demo.w_rgb _ Hp)
    as (out & fd & ed' & frames' & w1 & w2 & rest
        & Hop & Hf & _ & _ & _ & Hlen).
  vm_compute in Hop. injection Hop as <-.
  exists fd, ed'. split; [exact Hf|exact Hlen].
Defined.

(** * Further properties of the code *)

(** ** Output paths: sanitising and collisions *)

Lemma length_append a b :
  String.length (a +:+ b) = String.length a + String.length b.
Proof.
  induction a as [|c r IH]; [done|]. rewrite append_cons. simpl. by rewrite IH.
Qed.

Lemma append_inj_r a : forall b s, a +:+ s = b +:+ s -> a = b.
Proof.
  induction a as [|c r IH]; intros b s Heq.
  - apply (f_equal String.length) in Heq. rewrite !length_append in Heq.
    simpl in Heq. destruct b; [done|]. simpl in Heq. lia.
  - destruct b as [|d b].
    + apply (f_equal String.length) in Heq. rewrite !length_append in Heq.
      simpl in Heq. lia.
    + rewrite !append_cons in Heq. injection Heq as -> Heq.
      f_equal. by apply IH with s.
Qed.

Lemma rfind_dot_append a b i :
  Str.rfind_dot b = Some i ->
  Str.rfind_dot (a +:+ b) = Some (String.length a + i).
Proof.
  intros Hb. induction a as [|c r IH]; [done|].
  rewrite append_cons. simpl. by rewrite IH.
Qed.

Lemma substring_prefix a b :
  String.substring 0 (String.length a) (a +:+ b) = a.
Proof.
  induction a as [|c r IH]; [by destruct b|].
  rewrite append_cons. simpl. by rewrite IH.
Qed.

Lemma stem_safetensors s :
  s <> "" -> plain (s +:+ ".safetensors") = true ->
  Pth.stem [s +:+ ".safetensors"] = s.
Proof.
  intros Hne Hplain. unfold Pth.stem. rewrite name_singleton by done.
  rewrite (rfind_dot_append s ".safetensors" 0) by reflexivity.
  rewrite length_append, Nat.add_0_r.
  assert (Hlen : 0 < String.length s) by (destruct s; [done|simpl; lia]).
  replace (0 <? String.length s) with true
    by (symmetry; by apply Nat.ltb_lt).
  replace (String.length s <? String.length s + String.length ".safetensors" - 1)
    with true by (symmetry; apply Nat.ltb_lt; simpl; lia).
  apply substring_prefix.
Qed.

Lemma bar_no_bar s : no_bar (bar_to_underscore s) = true.
Proof.
  induction s as [|c r IH]; [done|]. rewrite bar_cons. simpl. rewrite IH.
  destruct (Ascii.eqb c "|") eqn:Hc; [done|]. by rewrite Hc.
Qed.

Lemma bar_id s : no_bar s = true -> bar_to_underscore s = s.
Proof.
  induction s as [|c r IH]; [done|]. simpl.
  intros [Hc Hr]%andb_prop. apply negb_true_iff in Hc.
  by rewrite bar_cons, Hc, IH.
Qed.

Lemma no_bar_app a b : no_bar (a +:+ b) = no_bar a && no_bar b.
Proof.
  induction a as [|c r IH]; [done|].
  rewrite append_cons. simpl. by rewrite IH, andb_assoc.
Qed.

(** X1: below the destination root no part of an output path contains
    a bar, whatever the input path holds. *)
Theorem output_path_has_no_bar dirs file out :
  forallb plain (dirs ++ [file]) = true ->
  output_path (BASE_DIR ++ dirs ++ [file]) = Ok out ->
  exists rel, out = OUTPUT_DIR ++ rel /\ forallb no_bar rel = true /\
              length rel = length (dirs ++ [file]).
Proof.
  intros Hplain Hout. rewrite (output_path_plain dirs file Hplain) in Hout.
  injection Hout as <-. eexists. split; [done|]. split.
  - rewrite forallb_app. apply andb_true_intro. split.
    + apply forallb_forall. intros x [y [<- _]]%in_map_iff. apply bar_no_bar.
    + simpl. by rewrite no_bar_app, bar_no_bar.
  - by rewrite !length_app, length_map.
Qed.

Lemma output_path_has_no_bar_witness :
  forallb plain (["x|y"] ++ ["3|chunk.safetensors"]) = true /\
  output_path (BASE_DIR ++ ["x|y"] ++ ["3|chunk.safetensors"])
  = Ok (OUTPUT_DIR ++ ["x_y"; "3_chunk_embedded.safetensors"]) /\
  exists rel,
    OUTPUT_DIR ++ ["x_y"; "3_chunk_embedded.safetensors"] = OUTPUT_DIR ++ rel /\
    forallb no_bar rel = true /\ length rel = length (["x|y"] ++ ["3|chunk.safetensors"]).
Proof.
  split; [reflexivity|]. split; [vm_compute; reflexivity|].
  apply (output_path_has_no_bar ["x|y"] "3|chunk.safetensors");
    [reflexivity|vm_compute; reflexivity].
Defined.

(** X2: two chunks below the source root, named [s1.safetensors] and
    [s2.safetensors] with non-empty stems, have the same output path
    exactly when their relative paths agree after every bar is replaced
    by an underscore; in particular chunks without a bar never collide. *)
Theorem output_paths_collide_iff dirs1 s1 dirs2 s2 :
  forallb plain (dirs1 ++ [s1 +:+ ".safetensors"]) = true ->
  forallb plain (dirs2 ++ [s2 +:+ ".safetensors"]) = true ->
  s1 <> "" -> s2 <> "" ->
  (output_path (BASE_DIR ++ dirs1 ++ [s1 +:+ ".safetensors"])
   = output_path (BASE_DIR ++ dirs2 ++ [s2 +:+ ".safetensors"])
   <-> map bar_to_underscore (dirs1 ++ [s1]) = map bar_to_underscore (dirs2 ++ [s2])) /\
  (forallb no_bar (dirs1 ++ [s1]) = true ->
   forallb no_bar (dirs2 ++ [s2]) = true ->
   output_path (BASE_DIR ++ dirs1 ++ [s1 +:+ ".safetensors"])
   = output_path (BASE_DIR ++ dirs2 ++ [s2 +:+ ".safetensors"]) ->
   dirs1 = dirs2 /\ s1 = s2).
Proof.
  intros Hp1 Hp2 Hn1 Hn2.
  assert (Hf : forall dirs s, forallb plain (dirs ++ [s +:+ ".safetensors"]) = true ->
                 plain (s +:+ ".safetensors") = true).
  { intros dirs s Hp. rewrite forallb_app in Hp.
    apply andb_prop in Hp as [_ Hp]. simpl in Hp. by rewrite andb_true_r in Hp. }
  assert (Hiff :
    output_path (BASE_DIR ++ dirs1 ++ [s1 +:+ ".safetensors"])
    = output_path (BASE_DIR ++ dirs2 ++ [s2 +:+ ".safetensors"])
    <-> map bar_to_underscore (dirs1 ++ [s1]) = map bar_to_underscore (dirs2 ++ [s2])).
  { rewrite !output_path_plain by done.
    rewrite !stem_safetensors by eauto. rewrite !map_app. simpl map. split.
    - intros [= Heq].
      apply app_inj_tail in Heq as [-> Heq].
      apply append_inj_r in Heq. by rewrite Heq.
    - intros Heq. apply app_inj_tail in Heq as [-> ->]. done. }
  split; [exact Hiff|].
  intros Hb1 Hb2 Heq. apply Hiff in Heq.
  assert (Hid : forall l, forallb no_bar l = true -> map bar_to_underscore l = l).
  { induction l as [|x l IH]; [done|]. simpl.
    intros [Hx Hl]%andb_prop. by rewrite bar_id, IH. }
  rewrite !Hid in Heq by done. by apply app_inj_tail in Heq.
Qed.

Lemma output_paths_collide_iff_witness :
  forallb plain (["a"] ++ ["b|c" +:+ ".safetensors"]) = true /\
  forallb plain (["a"] ++ ["b_c" +:+ ".safetensors"]) = true /\
  "b|c" <> "" /\ "b_c" <> "" /\
  output_path (BASE_DIR ++ ["a"] ++ ["b|c" +:+ ".safetensors"])
  = output_path (BASE_DIR ++ ["a"] ++ ["b_c" +:+ ".safetensors"]).
Proof.
  split; [reflexivity|]. split; [reflexivity|].
  split; [discriminate|]. split; [discriminate|].
  apply (proj1 (output_paths_collide_iff ["a"] "b|c" ["a"] "b_c"
                  eq_refl eq_refl ltac:(discriminate) ltac:(discriminate))).
  reflexivity.
Defined.

(** ** Frames: what reaches the encoder *)

Lemma groups_take_length {A} n size count : forall (l : list A),
  n <= size -> length l = count * size ->
  length (concat (map (take n) (groups count size l))) = count * n.
Proof.
  induction count as [|count IH]; intros l Hn Hlen; [done|].
  simpl. rewrite length_app, !length_take, IH; [lia|done|].
  rewrite length_drop. lia.
Qed.

(** X3: an array classified Valid always has three channels, the rank
    of its frame (which is not 2), and as many elements as its shape
    says when the frame has. *)
Theorem valid_image_has_three_channels frame arr :
  classify frame = Ok (Valid arr) ->
  last (shape arr) = Some 3 /\
  ndim arr = ndim frame /\
  ndim frame <> 2 /\
  (well_shaped frame -> well_shaped arr).
Proof.
  unfold classify. destruct (ndim frame =? 2) eqn:Hnd; [done|].
  apply Nat.eqb_neq in Hnd.
  destruct (last (shape frame)) as [c|] eqn:Hlast; [|done].
  apply last_Some in Hlast as [outer Hsh].
  destruct (c =? 4) eqn:Hc4.
  - apply Nat.eqb_eq in Hc4. subst c.
    destruct (take_channels_spec frame outer 4 Hsh) as (rgb & Ht & Hs & _).
    rewrite Ht. intros [= <-]. split; [by rewrite Hs, last_snoc|].
    split; [unfold ndim; by rewrite Hs, Hsh, !length_app|]. split; [done|].
    intros Hws. unfold take_channels in Ht.
    rewrite Hsh, last_snoc, removelast_last in Ht. injection Ht as <-.
    unfold well_shaped in *. simpl. rewrite numel_app.
    rewrite Hsh, numel_app in Hws. simpl in Hws.
    rewrite (groups_take_length 3 4 (numel outer)); [simpl; lia|lia|lia].
  - destruct (c =? 3) eqn:Hc3; [|done]. apply Nat.eqb_eq in Hc3. subst c.
    simpl. intros [= <-]. by rewrite Hsh, last_snoc.
Qed.

Lemma valid_image_has_three_channels_witness :
  classify Demo.rgba = Ok (Valid (Tensor [1; 1; 3] [10; 20; 30]%Z)) /\
  last (shape (Tensor [1; 1; 3] [10; 20; 30]%Z)) = Some 3.
Proof.
  split; [reflexivity|].
  exact (proj1 (valid_image_has_three_channels Demo.rgba _ eq_refl)).
Defined.

(** X4: the classification raises for a frame of rank 0 only, and then
    it is the [IndexError] of [frame.shape[-1]]. *)
Theorem classify_raises_iff_scalar frame e :
  classify frame = Raise e <-> shape frame = [] /\ e = IndexError.
Proof.
  unfold classify, ndim. split.
  - destruct (length (shape frame) =? 2); [done|].
    destruct (last (shape frame)) as [c|] eqn:Hlast.
    + apply last_Some in Hlast as [outer Hsh].
      destruct (take_channels_spec frame outer c Hsh) as (rgb & Ht & _).
      rewrite Ht. by destruct (c =? 4), (c =? 3).
    + apply last_None in Hlast. by intros [= <-].
  - intros [Hsh ->]. by rewrite Hsh.
Qed.

Lemma is_valid_spec frame :
  is_valid frame
  = negb (ndim frame =? 2) &&
    match last (shape frame) with
    | Some c => (c =? 4) || (c =? 3)
    | None => false
    end.
Proof.
  unfold is_valid, classify. destruct (ndim frame =? 2); [done|].
  destruct (last (shape frame)) as [c|] eqn:Hlast; [|done].
  apply last_Some in Hlast as [outer Hsh].
  destruct (take_channels_spec frame outer c Hsh) as (rgb & Ht & _).
  rewrite Ht. by destruct (c =? 4), (c =? 3).
Qed.

Lemma is_valid_shape f g : shape f = shape g -> is_valid f = is_valid g.
Proof. intros H. rewrite !is_valid_spec. unfold ndim. by rewrite H. Qed.

Lemma valid_frames_all frames : forall i,
  Forall (fun f => is_valid f = true) frames ->
  (valid_frames i frames).*1 = seq i (length frames).
Proof.
  induction frames as [|f rest IH]; intros i Hall; [done|].
  inversion Hall as [|f' rest' Hf Hrest]; subst. simpl.
  unfold is_valid in Hf. destruct (classify f) as [[arr|why]|e]; [|done..].
  simpl. f_equal. by apply IH.
Qed.

Section FramesOfTensor.

Context {F Image : Type} (fzero : F) (E : @Env F Image).

Implicit Types (w : @World F Image).

(** The frames of one tensor are classified alike. *)
Lemma frames_classified_alike (fd : @stored F) frames :
  frames_of E fd = Ok frames ->
  Forall (fun f => is_valid f = true) frames \/
  Forall (fun f => is_valid f = false) frames.
Proof.
  intros Hfr. destruct (frames_of_spec E _ _ Hfr) as (n & rest & _ & _ & Hsh).
  destruct frames as [|f0 frames']; [by left|].
  assert (Hall : Forall (fun f => is_valid f = is_valid f0) (f0 :: frames')).
  { apply Forall_lookup. intros i f Hi. apply is_valid_shape.
    rewrite (Hsh i f Hi). symmetry. by apply (Hsh 0 f0). }
  destruct (is_valid f0); [by left|by right].
Qed.

(** X5: in a chunk that is processed every frame is valid: the valid
    indices are all of [0 .. N-1], one image per frame goes to the
    processor, and no row of the written embedding tensor is a
    zero-filled placeholder for a dropped frame.  (The frames of one
    tensor share their shape, so they are valid together or dropped
    together.) *)
Theorem processed_chunk_has_only_valid_frames c w w' :
  process_chunk fzero E c w = (w', Finished Processed) ->
  exists fd frames imgs w1,
    load_frame_data c w = (w1, Ok fd) /\
    frames_of E fd = Ok frames /\
    Forall (fun f => is_valid f = true) frames /\
    (valid_frames 0 frames).*1 = seq 0 (length frames) /\
    In (CallProcessor imgs (replicate (length imgs) PROMPT)) (trace w') /\
    length imgs = length frames /\ 0 < length frames.
Proof.
  intros Hc. apply process_chunk_processed in Hc
    as (rel & fd & frames & w1 & w2 & ed & fs' & _ & _ & Hl & Hfr & Hemb & _ & _ & Hx).
  destruct (embed_frames_spec _ _ _ _ _ _ _ Hemb) as (_ & _ & _ & Hsome).
  destruct (Hsome ed eq_refl) as (imgs & pooled & Hne & Hmap & Hcall & _).
  destruct (mapE_spec _ _ _ Hmap) as [Hlen _]. rewrite length_fmap in Hlen.
  assert (Hall : Forall (fun f => is_valid f = true) frames).
  { destruct (frames_classified_alike _ _ Hfr) as [Hall|Hnone]; [done|].
    rewrite (valid_frames_none frames 0 Hnone) in Hlen.
    by destruct imgs. }
  pose proof (valid_frames_all frames 0 Hall) as Hidx.
  assert (Hn : length imgs = length frames).
  { rewrite Hlen, <- (length_fmap fst), Hidx. apply length_seq. }
  exists fd, frames, imgs, w1. do 4 (split; [done|]).
  split; [by eapply extends_In|]. split; [done|].
  rewrite <- Hn. destruct imgs; [done|simpl; lia].
Qed.

(** X6: the frames cut from an integer tensor hold bytes, and when the
    tensor itself holds bytes (a uint8 tensor) the [i]-th frame is
    exactly [frame_data[i]]: the cast changes nothing. *)
Theorem frames_are_bytes (t : tensor Z) frames :
  frames_of E (IntT t) = Ok frames ->
  (forall frame, frame ∈ frames ->
     Forall (fun z => (0 <= z < 256)%Z) (elems frame)) /\
  (Forall (fun z => (0 <= z < 256)%Z) (elems t) ->
   forall i frame, frames !! i = Some frame -> tensor_get t i = Ok frame).
Proof.
  unfold frames_of. simpl. destruct (shape t) as [|n rest] eqn:Hsh; [done|].
  intros [= <-]. split.
  - intros frame [i [-> _]]%list_elem_of_fmap. simpl.
    apply Forall_forall. intros z [y [-> _]]%list_elem_of_fmap.
    by apply Z.mod_pos_bound.
  - intros Hbytes i frame Hi. rewrite list_lookup_fmap in Hi.
    destruct (seq 0 n !! i) as [j|] eqn:Hj; [|done].
    apply lookup_seq in Hj as [-> Hlt]. simpl in Hi. injection Hi as <-.
    unfold tensor_get. rewrite Hsh. apply Nat.ltb_lt in Hlt. rewrite Hlt.
    f_equal. f_equal.
    assert (Hblock : Forall (fun z => (0 <= z < 256)%Z)
                       (block (numel rest) i (elems t))).
    { unfold block. by apply Forall_take, Forall_drop. }
    induction Hblock as [|z l Hz _ IH]; [done|].
    simpl. rewrite <- IH. f_equal. symmetry. by apply Z.mod_small.
Qed.

End FramesOfTensor.

Lemma frames_are_bytes_witness :
  frames_of Demo.env (IntT Demo.two_rgb)
  = Ok [Tensor [1; 1; 3] [1; 2; 3]%Z; Tensor [1; 1; 3] [4; 5; 6]%Z] /\
  tensor_get Demo.two_rgb 1 = Ok (Tensor [1; 1; 3] [4; 5; 6]%Z).
Proof.
  split; [reflexivity|].
  apply (proj2 (frames_are_bytes Demo.env Demo.two_rgb _ eq_refl)).
  - unfold Demo.two_rgb. simpl.
    repeat (apply List.Forall_cons; [lia|]). apply List.Forall_nil.
  - reflexivity.
Defined.

Lemma processed_chunk_has_only_valid_frames_witness :
  process_chunk 0%Z Demo.env Demo.chunk_bar Demo.w_rgb
  = (fst (process_chunk 0%Z Demo.env Demo.chunk_bar Demo.w_rgb),
     Finished Processed) /\
  exists fd frames,
    frames_of Demo.env fd = Ok frames /\
    (valid_frames 0 frames).*1 = seq 0 (length frames) /\
    0 < length frames.
Proof.
  assert (H : process_chunk 0%Z Demo.env Demo.chunk_bar Demo.w_rgb
              = (fst (process_chunk 0%Z Demo.env Demo.chunk_bar Demo.w_rgb),
                 Finished Processed)).
  { apply pair_from_snd. vm_compute. reflexivity. }
  split; [exact H|].
  destruct (processed_chunk_has_only_valid_frames 0%Z Demo.env _ _ _ H)
    as (fd & frames & imgs & w1 & _ & Hfr & _ & Hidx & _ & _ & Hpos).
  exists fd, frames. split; [exact Hfr|]. split; [exact Hidx|exact Hpos].
Defined.

(** ** The realigner as a function *)

Lemma shape_eqb_refl sh : shape_eqb sh sh = true.
Proof. induction sh as [|a sh IH]; [done|]. simpl. by rewrite Nat.eqb_refl, IH. Qed.

Lemma concat_blocks {A} size n (l : list A) :
  concat (map (fun i => block size i l) (seq 0 n)) = take (n * size) l.
Proof.
  induction n as [|n IH]; [done|].
  rewrite seq_S, map_app, concat_app, IH. simpl. rewrite app_nil_r.
  unfold block. rewrite take_take_drop. f_equal. lia.
Qed.

Lemma mapE_total {A B} (f : A -> Exc B) (l : list A) :
  (forall a, a ∈ l -> exists b, f a = Ok b) -> exists out, mapE f l = Ok out.
Proof.
  induction l as [|a l IH]; intros Hall; [by exists []|].
  destruct (Hall a) as [b Hb]; [by left|].
  destruct IH as [out Hout]; [intros a' Ha'; apply Hall; by right|].
  exists (b :: out). simpl. by rewrite Hb, Hout.
Qed.

Lemma stack_total {A} (ts : list (tensor A)) sh :
  ts <> [] -> Forall (fun t => shape t = sh) ts ->
  stack ts = Ok (Tensor (length ts :: sh) (concat (map elems ts))).
Proof.
  intros Hne Hall. unfold stack. destruct ts as [|t0 rest]; [done|].
  assert (H0 : shape t0 = sh) by (by inversion Hall).
  replace (forallb (fun t => shape_eqb (shape t) (shape t0)) (t0 :: rest))
    with true; [by rewrite H0|].
  symmetry. apply forallb_forall. intros t Ht%list_elem_of_In.
  rewrite Forall_forall in Hall. rewrite (Hall t Ht), H0. apply shape_eqb_refl.
Qed.

(** Tensors with the same shape and the same rows are equal. *)
Lemma tensor_ext {A} (t1 t2 : tensor A) n rest :
  shape t1 = n :: rest -> shape t2 = n :: rest ->
  well_shaped t1 -> well_shaped t2 ->
  (forall i, i < n -> tensor_get t1 i = tensor_get t2 i) ->
  t1 = t2.
Proof.
  intros Hs1 Hs2 Hw1 Hw2 Hrows.
  assert (Hel : forall t : tensor A, shape t = n :: rest -> well_shaped t ->
            elems t = concat (map (fun i => block (numel rest) i (elems t)) (seq 0 n))).
  { intros t Hs Hw. rewrite concat_blocks, take_ge; [done|].
    unfold well_shaped in Hw. rewrite Hw, Hs. simpl. done. }
  assert (Heq : elems t1 = elems t2).
  { rewrite (Hel t1 Hs1 Hw1), (Hel t2 Hs2 Hw2). f_equal.
    apply map_ext_in. intros i [_ Hi]%in_seq. simpl in Hi.
    specialize (Hrows i Hi). unfold tensor_get in Hrows.
    rewrite Hs1, Hs2 in Hrows. apply Nat.ltb_lt in Hi. rewrite Hi in Hrows.
    by injection Hrows. }
  destruct t1, t2. simpl in *. by subst.
Qed.

(** X7: cutting a tensor into its rows and stacking them gives the
    tensor back. *)
Theorem stack_rows_roundtrip {A} (t : tensor A) n rest :
  well_shaped t -> shape t = S n :: rest ->
  exists rows,
    tensor_rows t = Ok rows /\ length rows = S n /\ stack rows = Ok t.
Proof.
  intros Hws Hsh. unfold tensor_rows. rewrite Hsh. eexists. split; [done|].
  split; [by rewrite length_map, length_seq|].
  rewrite (stack_total _ rest).
  - rewrite length_map, length_seq, map_map. simpl elems.
    rewrite (concat_blocks (numel rest) (S n) (elems t)), take_ge.
    + destruct t. simpl in *. by subst.
    + unfold well_shaped in Hws. rewrite Hws, Hsh. simpl. done.
  - done.
  - apply Forall_forall. by intros t' [i [-> _]]%list_elem_of_fmap.
Qed.

Lemma stack_rows_roundtrip_witness :
  well_shaped Demo.two_rgb /\ shape Demo.two_rgb = 2 :: [1; 1; 3] /\
  exists rows,
    tensor_rows Demo.two_rgb = Ok rows /\ length rows = 2 /\
    stack rows = Ok Demo.two_rgb.
Proof.
  split; [reflexivity|]. split; [reflexivity|].
  exact (stack_rows_roundtrip Demo.two_rgb 1 [1; 1; 3] eq_refl eq_refl).
Defined.

Section RealignFunction.

Context {F : Type} (fzero : F).

Implicit Types (pooled : tensor F).

Lemma scatter_total pairs : forall (embs : list (option (tensor F))),
  Forall (fun p => p.1 < length embs) pairs ->
  exists embs', scatter embs pairs = Ok embs'.
Proof.
  induction pairs as [|[idx emb] rest IH]; intros embs Hall; [by eexists|].
  inversion Hall as [|p ps Hp Hrest]; subst. simpl in Hp |- *.
  apply Nat.ltb_lt in Hp as Hb. rewrite Hb. apply IH.
  by rewrite length_insert.
Qed.

(** The shapes of what [realign] stacks. *)
Lemma filled_shapes n idxs pooled m dsh rows embs filled :
  shape pooled = m :: dsh ->
  tensor_rows pooled = Ok rows ->
  scatter (replicate n None) (zip idxs rows) = Ok embs ->
  mapE (fill_zero fzero pooled) embs = Ok filled ->
  length filled = n /\ Forall (fun t => shape t = dsh) filled.
Proof.
  intros Hsh Hrows Hsc Hfill.
  destruct (tensor_rows_spec _ _ Hrows) as (m' & dsh' & Hsh' & _ & Hrow).
  rewrite Hsh in Hsh'. injection Hsh' as <- <-.
  destruct (scatter_spec _ _ _ Hsc) as (Hlen & _ & Hin & _).
  rewrite length_replicate in Hlen.
  destruct (mapE_spec _ _ _ Hfill) as (Hflen & Hfk).
  split; [lia|]. apply Forall_lookup. intros i t Hi.
  assert (Hlt : i < length embs) by (apply lookup_lt_Some in Hi; lia).
  apply lookup_lt_is_Some in Hlt as [x Hx].
  destruct (Hfk i x Hx) as (b & Hb & Hi'). rewrite Hi in Hi'.
  injection Hi' as <-. destruct x as [e|]; simpl in Hb.
  - injection Hb as ->. destruct (Hin i t Hx) as [Hold|Hnew].
    + apply lookup_replicate in Hold as [[=] _].
    + apply list_elem_of_lookup in Hnew as [k Hk].
      apply lookup_zip_with_Some in Hk as (a & b & [= <- <-] & _ & Hb).
      by destruct (Hrow k t Hb).
  - unfold tensor_get in Hb. rewrite Hsh in Hb.
    destruct (0 <? m); [|done]. by injection Hb as <-.
Qed.

Lemma realign_total n idxs pooled m dsh :
  shape pooled = S m :: dsh -> 0 < n -> Forall (fun i => i < n) idxs ->
  exists ed, realign fzero n idxs pooled = Ok ed /\ shape ed = n :: dsh.
Proof.
  intros Hsh Hn Hidx. unfold realign.
  destruct (tensor_rows pooled) as [rows|e] eqn:Hrows.
  2:{ unfold tensor_rows in Hrows. by rewrite Hsh in Hrows. }
  destruct (scatter_total (zip idxs rows) (replicate n None)) as [embs Hsc].
  { apply Forall_forall. intros [i e] Hin. simpl. rewrite length_replicate.
    rewrite Forall_forall in Hidx. apply Hidx.
    apply (zip_fst_subset idxs rows). apply list_elem_of_fmap. by exists (i, e). }
  rewrite Hsc.
  destruct (mapE_total (fill_zero fzero pooled) embs) as [filled Hfill].
  { intros [e|] _; simpl; [by eexists|].
    unfold tensor_get. rewrite Hsh. simpl. by eexists. }
  rewrite Hfill.
  destruct (filled_shapes _ _ _ _ _ _ _ _ Hsh Hrows Hsc Hfill) as [Hlen Hshapes].
  rewrite (stack_total filled dsh); [|by destruct filled; [simpl in Hlen; lia|]|done].
  eexists. split; [done|]. simpl. by rewrite Hlen.
Qed.

(** X8: the realigner returns whenever [pooled] has at least one row,
    there is at least one frame and every valid index is below the
    frame count; the result has one row per frame. *)
Theorem realign_succeeds n idxs pooled m dsh :
  shape pooled = S m :: dsh -> 0 < n -> Forall (fun i => i < n) idxs ->
  exists ed, realign fzero n idxs pooled = Ok ed /\ shape ed = n :: dsh.
Proof. apply realign_total. Qed.

(** X9: with a [pooled] that has no row the realigner raises the
    [IndexError] of [pooled[0]] as soon as there is one frame, and with
    a [pooled] of rank 0 the [TypeError] of iterating it. *)
Theorem realign_without_rows_raises n idxs pooled :
  (shape pooled = [] -> realign fzero n idxs pooled = Raise TypeError) /\
  (forall dsh, shape pooled = 0 :: dsh -> 0 < n ->
     realign fzero n idxs pooled = Raise IndexError).
Proof.
  unfold realign, tensor_rows. split.
  - by intros ->.
  - intros dsh Hsh Hn. rewrite Hsh.
    change (seq 0 0) with (@nil nat). simpl map.
    replace (zip idxs (@nil (tensor F))) with (@nil (nat * tensor F))
      by (by destruct idxs).
    destruct n as [|n]; [lia|]. simpl.
    unfold tensor_get. by rewrite Hsh.
Qed.

Lemma realign_rows_by_position n idxs pooled ed m dsh :
  realign fzero n idxs pooled = Ok ed ->
  shape pooled = m :: dsh -> well_shaped pooled -> NoDup idxs ->
  forall k i, idxs !! k = Some i ->
    (k < m -> tensor_get ed i = tensor_get pooled k) /\
    (m <= k -> i < n ->
     tensor_get ed i = Ok (Tensor dsh (replicate (numel dsh) fzero))).
Proof.
  intros Hre Hsh Hws Hnd k i Hk.
  assert (Hre' : realign fzero n (take m idxs) pooled = Ok ed).
  { unfold realign in *.
    destruct (tensor_rows pooled) as [rows|] eqn:Hrows; [|done].
    destruct (tensor_rows_spec _ _ Hrows) as (m' & dsh' & Hsh' & Hlen & _).
    rewrite Hsh in Hsh'. injection Hsh' as <- <-.
    replace (zip (take m idxs) rows) with (zip idxs rows); [done|].
    subst m. symmetry. apply zip_with_take_l. }
  destruct (realign_spec _ _ _ _ _ Hre') as (m' & dsh' & rows & Hsh' & Hrows & _ & Hfill).
  rewrite Hsh in Hsh'. injection Hsh' as <- <-.
  destruct (Hfill Hws) as (_ & Hzero & Hrow).
  destruct (tensor_rows_spec _ _ Hrows) as (m' & dsh' & Hsh' & Hlen & Hr).
  rewrite Hsh in Hsh'. injection Hsh' as <- <-.
  split.
  - intros Hlt.
    assert (Hlt' : k < length rows) by lia.
    apply lookup_lt_is_Some in Hlt' as [row Hrowk].
    destruct (Hr k row Hrowk) as (_ & -> & _).
    assert (Hnd' : NoDup (take m idxs))
      by (eapply sublist_NoDup; [done|apply sublist_take]).
    apply (Hrow Hnd' k).
    + by rewrite lookup_take_lt.
    + done.
  - intros Hge Hi. apply Hzero; [done|].
    intros [j [Hj Hjm]]%elem_of_take.
    pose proof (NoDup_lookup _ _ _ _ Hnd Hj Hk). lia.
Qed.

(** X10: the [k]-th valid frame gets row [k] of [pooled] when that row
    exists, and the zero row otherwise: [zip] stops at the shorter of
    the two, without an error. *)
Theorem realign_pairs_in_order n idxs pooled ed m dsh :
  realign fzero n idxs pooled = Ok ed ->
  shape pooled = m :: dsh -> well_shaped pooled -> NoDup idxs ->
  forall k i, idxs !! k = Some i ->
    (k < m -> tensor_get ed i = tensor_get pooled k) /\
    (m <= k -> i < n ->
     tensor_get ed i = Ok (Tensor dsh (replicate (numel dsh) fzero))).
Proof. apply realign_rows_by_position. Qed.

(** X11: when every frame is valid and [pooled] has one row per frame,
    the realigner returns [pooled] itself. *)
Theorem realign_all_valid_is_identity n dsh pooled :
  well_shaped pooled -> shape pooled = S n :: dsh ->
  realign fzero (S n) (seq 0 (S n)) pooled = Ok pooled.
Proof.
  intros Hws Hsh.
  destruct (realign_total (S n) (seq 0 (S n)) pooled n dsh Hsh) as (ed & Hre & Hed).
  { lia. }
  { apply Forall_forall. intros i Hi%list_elem_of_In%in_seq. lia. }
  rewrite Hre. f_equal.
  destruct (realign_spec _ _ _ _ _ Hre) as (m' & dsh' & rows & _ & _ & _ & Hfill).
  destruct (Hfill Hws) as (Hwsed & _ & _).
  apply (tensor_ext ed pooled (S n) dsh); try done.
  intros i Hi.
  apply (proj1 (realign_rows_by_position _ _ _ _ _ _ Hre Hsh Hws (NoDup_seq 0 (S n)) i i
                  ltac:(by apply lookup_seq))).
  done.
Qed.

End RealignFunction.

Lemma realign_succeeds_witness :
  shape (Tensor [1; 2] [5; 6]%Z) = 1 :: [2] /\ 0 < 3 /\
  Forall (fun i => i < 3) [1] /\
  exists ed, realign 0%Z 3 [1] (Tensor [1; 2] [5; 6]%Z) = Ok ed /\
             shape ed = 3 :: [2].
Proof.
  split; [reflexivity|]. split; [lia|].
  assert (H : Forall (fun i => i < 3) [1]) by (repeat constructor).
  split; [exact H|].
  exact (realign_succeeds 0%Z 3 [1] (Tensor [1; 2] [5; 6]%Z) 0 [2]
           eq_refl ltac:(lia) H).
Defined.

Lemma realign_without_rows_raises_witness :
  shape (Tensor [0; 2] (@nil Z)) = 0 :: [2] /\ 0 < 2 /\
  realign 0%Z 2 [0; 1] (Tensor [0; 2] []) = Raise IndexError.
Proof.
  split; [reflexivity|]. split; [lia|].
  exact (proj2 (realign_without_rows_raises 0%Z 2 [0; 1] (Tensor [0; 2] []))
           [2] eq_refl ltac:(lia)).
Defined.

Lemma realign_pairs_in_order_witness :
  let pooled := Tensor [1; 2] [5; 6]%Z in
  let ed := Tensor [3; 2] [0; 0; 5; 6; 0; 0]%Z in
  realign 0%Z 3 [1; 2] pooled = Ok ed /\
  shape pooled = 1 :: [2] /\ well_shaped pooled /\ NoDup [1; 2] /\
  [1; 2] !! 1 = Some 2 /\
  tensor_get ed 2 = Ok (Tensor [2] (replicate (numel [2]) 0%Z)).
Proof.
  intros pooled ed.
  assert (Hnd : NoDup [1; 2]) by (apply NoDup_ListNoDup; repeat constructor; simpl; lia).
  split; [reflexivity|]. split; [reflexivity|]. split; [reflexivity|].
  split; [exact Hnd|]. split; [reflexivity|].
  exact (proj2 (realign_pairs_in_order 0%Z 3 [1; 2] pooled ed 1 [2]
                  eq_refl eq_refl eq_refl Hnd 1 2 eq_refl)
           ltac:(lia) ltac:(lia)).
Defined.

Lemma realign_all_valid_is_identity_witness :
  let pooled := Tensor [2; 2] [5; 6; 7; 8]%Z in
  well_shaped pooled /\ shape pooled = 2 :: [2] /\
  realign 0%Z 2 (seq 0 2) pooled = Ok pooled.
Proof.
  intros pooled. split; [reflexivity|]. split; [reflexivity|].
  exact (realign_all_valid_is_identity 0%Z 1 [2] pooled eq_refl eq_refl).
Defined.

(** ** What a run does to the files *)

Section FilesOfARun.

Context {F Image : Type} (fzero : F) (E : @Env F Image).

Implicit Types (w : @World F Image) (fs : gmap Path (@node F)).

Lemma mkdir_from_makes_directories todo : forall done fs fs',
  mkdir_from done todo fs = Ok fs' ->
  forall k, 0 < k <= length todo ->
    fs' !! (done ++ take k todo : Path) = Some Dir.
Proof.
  induction todo as [|part rest IH]; intros done fs fs' Hmk k Hk;
    [simpl in Hk; lia|].
  simpl in Hmk.
  assert (Hstep : exists fs1,
    mkdir_from (done ++ [part]) rest fs1 = Ok fs' /\
    fs1 !! (done ++ [part] : Path) = Some Dir).
  { destruct (fs !! (done ++ [part])) as [[|c]|] eqn:Hp; [|done|].
    - by exists fs.
    - exists (<[done ++ [part] := Dir]> fs). split; [done|].
      apply lookup_insert_eq. }
  destruct Hstep as (fs1 & Hrec & Hdir).
  destruct k as [|[|k]]; [lia| |].
  - simpl. destruct rest; simpl;
      (destruct (mkdir_from_spec _ _ _ _ Hrec (done ++ [part]))
        as [Heq|(Hn & _)]; [by rewrite Heq|congruence]).
  - simpl in Hk.
    replace (done ++ take (S (S k)) (part :: rest))
      with ((done ++ [part]) ++ take (S k) rest)
      by (by rewrite <- app_assoc).
    apply (IH _ _ _ Hrec). simpl. lia.
Qed.

(** X12: after a chunk at [dirs/file] was processed, its output
    directory and every ancestor of it are directories. *)
Theorem processed_chunk_output_in_directory dirs file w w' :
  forallb plain (dirs ++ [file]) = true ->
  process_chunk fzero E (BASE_DIR ++ dirs ++ [file]) w = (w', Finished Processed) ->
  forall k, 0 < k <= length (OUTPUT_DIR ++ map bar_to_underscore dirs) ->
    files w' !! (take k (OUTPUT_DIR ++ map bar_to_underscore dirs) : Path)
    = Some Dir.
Proof.
  intros Hplain Hc k Hk.
  apply process_chunk_processed in Hc
    as (rel & fd & frames & w1 & w2 & ed & fs' & Hrel & _ & _ & _ & _ & Hmk & Hf & _).
  rewrite relative_to_app in Hrel. injection Hrel as <-.
  rewrite (output_dir_plain dirs file Hplain) in Hmk.
  assert (Hop : output_path_of (BASE_DIR ++ dirs ++ [file]) (dirs ++ [file])
                = OUTPUT_DIR ++ map bar_to_underscore dirs
                  ++ [bar_to_underscore (Pth.stem [file])
                      +:+ "_embedded.safetensors"]).
  { pose proof (output_path_plain dirs file Hplain) as Hop.
    unfold output_path in Hop. rewrite relative_to_app in Hop. congruence. }
  rewrite Hf, Hop.
  rewrite lookup_insert_ne.
  - apply (mkdir_from_makes_directories _ [] _ _ Hmk k Hk).
  - intros Heq. apply (f_equal length) in Heq.
    rewrite app_assoc, length_app, length_take in Heq. simpl in Heq. lia.
Qed.

(** One chunk leaves every existing entry as it is. *)
Lemma process_chunk_preserves_entries c w w' o (p : Path) x :
  process_chunk fzero E c w = (w', o) ->
  files w !! p = Some x -> files w' !! p = Some x.
Proof.
  intros Hc Hp.
  destruct (process_chunk_body _ _ _ _ _ _ Hc) as (wb & r & Hbody & -> & _ & _).
  destruct (Pth.relative_to c BASE_DIR) as [rel|e] eqn:Hrel.
  2:{ rewrite process_body_unfold, Hrel in Hbody. by injection Hbody as <- <-. }
  destruct (files w !! output_path_of c rel) as [y|] eqn:Hout.
  { rewrite (process_body_skip _ _ _ _ rel) in Hbody by done.
    by injection Hbody as <- <-. }
  destruct (process_body_fresh _ _ _ _ _ _ rel Hrel Hout Hbody)
    as (_ & [(-> & _)|(fd & frames & w1 & w2 & ed & fs' & _ & _ & _ & _ & _ & Hmk & Hend)]);
    [done|].
  assert (Hfs : fs' !! p = Some x).
  { destruct (mkdir_from_spec _ _ _ _ Hmk p) as [->|(Hn & _)]; [done|congruence]. }
  assert (Hne : output_path_of c rel <> p) by congruence.
  destruct Hend as [(_ & _ & ->)|[(e & _ & ->)|(e & _ & _ & ->)]];
    [by rewrite lookup_insert_ne|done|by rewrite lookup_insert_ne].
Qed.

(** One chunk adds directories and at most one file, at its output path. *)
Lemma process_chunk_new_file c w w' o (p : Path) content :
  process_chunk fzero E c w = (w', o) ->
  files w !! p = None -> files w' !! p = Some (File content) ->
  output_path c = Ok p.
Proof.
  intros Hc Hp Hnew.
  destruct (process_chunk_body _ _ _ _ _ _ Hc) as (wb & r & Hbody & Hfw & _ & _).
  rewrite Hfw in Hnew.
  destruct (Pth.relative_to c BASE_DIR) as [rel|e] eqn:Hrel.
  2:{ rewrite process_body_unfold, Hrel in Hbody. injection Hbody as <- <-.
      congruence. }
  destruct (files w !! output_path_of c rel) as [y|] eqn:Hout.
  { rewrite (process_body_skip _ _ _ _ rel) in Hbody by done.
    injection Hbody as <- <-. simpl in Hnew. congruence. }
  destruct (process_body_fresh _ _ _ _ _ _ rel Hrel Hout Hbody)
    as (_ & [(Hf & _)|(fd & frames & w1 & w2 & ed & fs' & _ & _ & _ & _ & _ & Hmk & Hend)]);
    [congruence|].
  unfold output_path. rewrite Hrel. f_equal.
  assert (Hfs : fs' !! p <> Some (File content)).
  { destruct (mkdir_from_spec _ _ _ _ Hmk p) as [->|(_ & -> & _)]; congruence. }
  destruct (decide (output_path_of c rel = p)) as [Heq|Hne]; [done|].
  destruct Hend as [(_ & _ & Hf)|[(e & _ & Hf)|(e & _ & _ & Hf)]];
    rewrite Hf in Hnew; try rewrite lookup_insert_ne in Hnew by done; done.
Qed.

Lemma main_loop_entries_kept chunk_paths : forall w (p : Path) x,
  files w !! p = Some x ->
  files (fst (main_loop fzero E chunk_paths w)) !! p = Some x.
Proof.
  induction chunk_paths as [|c cs IH]; intros w p x Hp; [done|].
  rewrite main_loop_cons. simpl. apply IH.
  eapply process_chunk_preserves_entries; [apply surjective_pairing|done].
Qed.

(** X13: a run never changes or removes an entry that exists when it
    starts: inputs and earlier outputs are left as they are. *)
Theorem main_loop_preserves_entries chunk_paths w (p : Path) x :
  files w !! p = Some x ->
  files (fst (main_loop fzero E chunk_paths w)) !! p = Some x.
Proof. apply main_loop_entries_kept. Qed.

(** X14: every file that a run creates lies at the output path of one
    of its chunks. *)
Theorem main_loop_writes_only_outputs chunk_paths : forall w (p : Path) content,
  files w !! p = None ->
  files (fst (main_loop fzero E chunk_paths w)) !! p = Some (File content) ->
  exists c, c ∈ chunk_paths /\ output_path c = Ok p.
Proof.
  induction chunk_paths as [|c cs IH]; intros w p content Hp Hnew.
  { simpl in Hnew. congruence. }
  rewrite main_loop_cons in Hnew. simpl in Hnew.
  destruct (process_chunk fzero E c w) as [w1 o] eqn:Hc. simpl in Hnew.
  destruct (files w1 !! p) as [[|content1]|] eqn:Hp1.
  - rewrite (main_loop_entries_kept cs w1 p Dir Hp1) in Hnew. done.
  - exists c. split; [by left|].
    by eapply process_chunk_new_file.
  - destruct (IH w1 p content Hp1 Hnew) as (c' & Hin & Hop).
    exists c'. split; [by right|done].
Qed.

End FilesOfARun.

Lemma processed_chunk_output_in_directory_witness :
  forallb plain (["a"] ++ ["b|c.safetensors"]) = true /\
  process_chunk 0%Z Demo.env (BASE_DIR ++ ["a"] ++ ["b|c.safetensors"]) Demo.w_rgb
  = (fst (process_chunk 0%Z Demo.env (BASE_DIR ++ ["a"] ++ ["b|c.safetensors"])
            Demo.w_rgb),
     Finished Processed) /\
  files (fst (process_chunk 0%Z Demo.env
                (BASE_DIR ++ ["a"] ++ ["b|c.safetensors"]) Demo.w_rgb))
    !! (take 8 (OUTPUT_DIR ++ map bar_to_underscore ["a"]) : Path) = Some Dir.
Proof.
  assert (H : process_chunk 0%Z Demo.env
                (BASE_DIR ++ ["a"] ++ ["b|c.safetensors"]) Demo.w_rgb
              = (fst (process_chunk 0%Z Demo.env
                        (BASE_DIR ++ ["a"] ++ ["b|c.safetensors"]) Demo.w_rgb),
                 Finished Processed)).
  { apply pair_from_snd. vm_compute. reflexivity. }
  split; [reflexivity|]. split; [exact H|].
  apply (processed_chunk_output_in_directory 0%Z Demo.env ["a"]
           "b|c.safetensors" Demo.w_rgb _ eq_refl H 8).
  vm_compute. split; lia.
Defined.

Lemma main_loop_preserves_entries_witness :
  files Demo.w_both !! Demo.chunk_bar
  = Some (File (Archive [("frame_data", IntT Demo.two_rgb)])) /\
  files (fst (main_loop 0%Z Demo.env [Demo.chunk_bar; Demo.chunk_underscore]
                Demo.w_both)) !! Demo.chunk_bar
  = Some (File (Archive [("frame_data", IntT Demo.two_rgb)])).
Proof.
  assert (H : files Demo.w_both !! Demo.chunk_bar
              = Some (File (Archive [("frame_data", IntT (F:=Z) Demo.two_rgb)])))
    by (vm_compute; reflexivity).
  split; [exact H|].
  exact (main_loop_preserves_entries 0%Z Demo.env _ Demo.w_both _ _ H).
Defined.

Lemma main_loop_writes_only_outputs_witness :
  files Demo.w_both !! Demo.out_bc = None /\
  files (fst (main_loop 0%Z Demo.env [Demo.chunk_bar; Demo.chunk_underscore]
                Demo.w_both)) !! Demo.out_bc
  = Some (File (Archive (output_archive (IntT Demo.two_rgb)
                           (Tensor [2; 3] [1; 2; 3; 4; 5; 6]%Z)))) /\
  exists c, c ∈ [Demo.chunk_bar; Demo.chunk_underscore] /\
            output_path c = Ok Demo.out_bc.
Proof.
  assert (H1 : files Demo.w_both !! Demo.out_bc = None)
    by (vm_compute; reflexivity).
  assert (H2 : files (fst (main_loop 0%Z Demo.env
                             [Demo.chunk_bar; Demo.chunk_underscore]
                             Demo.w_both)) !! Demo.out_bc
               = Some (File (Archive (output_archive (IntT Demo.two_rgb)
                                        (Tensor [2; 3] [1; 2; 3; 4; 5; 6]%Z)))))
    by (vm_compute; reflexivity).
  split; [exact H1|]. split; [exact H2|].
  exact (main_loop_writes_only_outputs 0%Z Demo.env _ Demo.w_both _ _ H1 H2).
Defined.

(** ** The calls of the model *)

Section ModelCalls.

Context {F Image : Type} (fzero : F) (E : @Env F Image).

Implicit Types (w : @World F Image).

Lemma processor_calls_app (evs1 evs2 : list (@event F Image)) :
  processor_calls (evs1 ++ evs2) = processor_calls evs1 ++ processor_calls evs2.
Proof.
  induction evs1 as [|ev rest IH]; [done|].
  destruct ev; simpl; by rewrite ?IH.
Qed.

Lemma processor_calls_writes (evs : list (@event F Image)) :
  (forall ev, In ev evs -> exists m, ev = Write m) -> processor_calls evs = [].
Proof.
  induction evs as [|ev rest IH]; [done|]. intros Hall.
  destruct (Hall ev (or_introl eq_refl)) as [m ->]. simpl.
  apply IH. intros ev Hin. apply Hall. by right.
Qed.

Lemma validate_loop_calls name frames : forall i imgs0 idxs0 w w' r,
  validate_loop E name i frames imgs0 idxs0 w = (w', r) ->
  processor_calls (trace w') = processor_calls (trace w).
Proof.
  induction frames as [|f rest IH]; intros i imgs0 idxs0 w w' r.
  - simpl. by intros [= <- <-].
  - simpl. rewrite bind_unfold.
    destruct (check_frame_classify name i f w) as (evs & -> & Hw).
    assert (Hc : processor_calls (trace w ++ evs) = processor_calls (trace w)).
    { by rewrite processor_calls_app, (processor_calls_writes evs Hw), app_nil_r. }
    destruct (classify f) as [[arr|why]|e].
    + rewrite bind_unfold. unfold lift at 1.
      destruct (fromarray E arr) as [img|e].
      * intros Hrec. apply IH in Hrec. by rewrite Hrec.
      * by intros [= <- <-].
    + intros Hrec. apply IH in Hrec. by rewrite Hrec.
    + by intros [= <- <-].
Qed.

Lemma encode_batch_calls imgs w w' r :
  encode_batch E imgs w = (w', r) ->
  processor_calls (trace w') = processor_calls (trace w) ++ [imgs].
Proof.
  unfold encode_batch. run_monad.
  destruct (processor E imgs _) as [inputs|e];
    [|intros [= <- <-]; simpl; by rewrite processor_calls_app].
  destruct (move_inputs E inputs) as [moved|e];
    [|intros [= <- <-]; simpl; by rewrite processor_calls_app].
  destruct (dict_get "pixel_values" moved) as [pv|e];
    [|intros [= <- <-]; simpl; by rewrite processor_calls_app].
  assert (Hfin : forall pv',
    match vision_tower E pv' with
    | Ok a =>
        match mean_dim1 E a with
        | Ok p =>
            (mkWorld (files w)
               ((trace w ++ [CallProcessor imgs (replicate (length imgs) PROMPT)])
                ++ [CallVisionTower pv']), Ok p)
        | Raise e =>
            (mkWorld (files w)
               ((trace w ++ [CallProcessor imgs (replicate (length imgs) PROMPT)])
                ++ [CallVisionTower pv']), Raise e)
        end
    | Raise e =>
        (mkWorld (files w)
           ((trace w ++ [CallProcessor imgs (replicate (length imgs) PROMPT)])
            ++ [CallVisionTower pv']), Raise e)
    end = (w', r) ->
    processor_calls (trace w') = processor_calls (trace w) ++ [imgs]).
  { intros pv'.
    destruct (vision_tower E pv') as [vf|e];
      [destruct (mean_dim1 E vf) as [p|e]|];
      intros [= <- <-]; simpl; rewrite !processor_calls_app; simpl;
      by rewrite app_nil_r. }
  destruct (ndim pv =? 5).
  - destruct (view_patches pv) as [pv'|e].
    + apply Hfin.
    + intros [= <- <-]. simpl. by rewrite processor_calls_app.
  - apply Hfin.
Qed.

Lemma embed_frames_calls name frames w w' r :
  embed_frames fzero E name frames w = (w', r) ->
  exists calls,
    processor_calls (trace w') = processor_calls (trace w) ++ calls /\
    length calls <= 1 /\
    (r = Ok None -> calls = []) /\
    (forall ed, r = Ok (Some ed) -> exists imgs, calls = [imgs] /\ imgs <> []).
Proof.
  unfold embed_frames. rewrite bind_unfold.
  destruct (validate_loop E name 0 frames [] [] w) as [w1 [[imgs idxs]|e]] eqn:Hloop;
    apply validate_loop_calls in Hloop.
  2:{ intros [= <- <-]. exists []. rewrite app_nil_r. split; [done|].
      split; [simpl; lia|]. split; [done|]. intros ed [=]. }
  destruct imgs as [|img imgs].
  - run_monad. intros [= <- <-]. exists []. simpl.
    rewrite processor_calls_app, app_nil_r. simpl. rewrite app_nil_r.
    split; [done|]. split; [lia|]. split; [done|]. intros ed [=].
  - rewrite bind_unfold.
    destruct (encode_batch E (img :: imgs) w1) as [w2 [pooled|e]] eqn:Henc;
      apply encode_batch_calls in Henc; rewrite Hloop in Henc.
    + run_monad.
      destruct (realign fzero (length frames) idxs pooled) as [ed|e];
        intros [= <- <-]; exists [img :: imgs];
        (split; [done|]); (split; [simpl; lia|]); (split; [done|]);
        intros ed' [=]. by exists (img :: imgs).
    + intros [= <- <-]. exists [img :: imgs].
      split; [done|]. split; [simpl; lia|]. split; [done|]. intros ed [=].
Qed.

Lemma mkdir_calls p w w' r :
  mkdir p w = (w', r) ->
  processor_calls (trace w') = processor_calls (trace w).
Proof.
  unfold mkdir. run_monad.
  destruct (mkdir_from [] p (files w)); intros [= <- <-]; simpl;
    by rewrite processor_calls_app, app_nil_r.
Qed.

Lemma save_file_calls a p w w' r :
  save_file E a p w = (w', r) ->
  processor_calls (trace w') = processor_calls (trace w).
Proof.
  unfold save_file. run_monad.
  destruct (files w !! p) as [[|c]|];
    [|destruct (files w !! Pth.parent p) as [[|c']|];
      [destruct (save_outcome E p a)|..]..];
    intros [= <- <-]; simpl; by rewrite processor_calls_app, app_nil_r.
Qed.

Lemma process_body_calls c w w' r :
  process_body fzero E c w = (w', r) ->
  exists calls,
    processor_calls (trace w') = processor_calls (trace w) ++ calls /\
    length calls <= 1 /\
    (r = Ok AlreadyProcessed \/ r = Ok NoValidFrames -> calls = []) /\
    (r = Ok Processed -> exists imgs, calls = [imgs] /\ imgs <> []).
Proof.
  assert (Hnone : forall w0 e,
    processor_calls (trace w0) = processor_calls (trace w) ->
    (w0, @Raise status e) = (w', r) ->
    exists calls,
      processor_calls (trace w') = processor_calls (trace w) ++ calls /\
      length calls <= 1 /\
      (r = Ok AlreadyProcessed \/ r = Ok NoValidFrames -> calls = []) /\
      (r = Ok Processed -> exists imgs, calls = [imgs] /\ imgs <> [])).
  { intros w0 e Hw0 [= <- <-]. exists []. rewrite app_nil_r.
    split; [done|]. split; [simpl; lia|]. split; [done|]. intros [=]. }
  rewrite process_body_unfold.
  destruct (Pth.relative_to c BASE_DIR) as [rel|e]; [|by apply Hnone].
  cbv zeta.
  destruct (files w !! output_path_of c rel) as [x|].
  { intros [= <- <-]. exists []. simpl.
    rewrite processor_calls_app, app_nil_r. simpl. rewrite app_nil_r.
    split; [done|]. split; [lia|]. split; [done|]. intros [=]. }
  destruct (load_frame_data c w) as [w1 [fd|e]] eqn:Hload;
    apply load_frame_data_spec in Hload as [Hw1 _].
  2:{ apply Hnone. subst w1. simpl.
      by rewrite processor_calls_app, app_nil_r. }
  assert (Hc1 : processor_calls (trace w1) = processor_calls (trace w)).
  { subst w1. simpl. by rewrite processor_calls_app, app_nil_r. }
  destruct (frames_of E fd) as [frames|e]; [|by apply Hnone].
  destruct (embed_frames fzero E (chunk_name c) frames w1) as [w2 [[ed|]|e]] eqn:Hemb;
    apply embed_frames_calls in Hemb as (calls & Hc2 & Hlen & Hnil & Hone);
    rewrite Hc1 in Hc2.
  - destruct (Hone ed eq_refl) as (imgs & -> & Himgs).
    assert (Hfail : forall w0 e,
      processor_calls (trace w0) = processor_calls (trace w) ++ [imgs] ->
      (w0, @Raise status e) = (w', r) ->
      exists calls,
        processor_calls (trace w') = processor_calls (trace w) ++ calls /\
        length calls <= 1 /\
        (r = Ok AlreadyProcessed \/ r = Ok NoValidFrames -> calls = []) /\
        (r = Ok Processed -> exists imgs, calls = [imgs] /\ imgs <> [])).
    { intros w0 e Hw0 [= <- <-]. exists [imgs].
      split; [done|]. split; [simpl; lia|]. split; [by intros [|]|]. intros [=]. }
    destruct (mkdir (output_dir rel) w2) as [w3 [u|e]] eqn:Hmk;
      apply mkdir_calls in Hmk; rewrite Hc2 in Hmk; [|by apply Hfail].
    destruct (save_file E (output_archive fd ed) (output_path_of c rel) w3)
      as [w4 [u'|e]] eqn:Hsave;
      apply save_file_calls in Hsave; rewrite Hmk in Hsave; [|by apply Hfail].
    intros [= <- <-]. exists [imgs]. simpl.
    rewrite processor_calls_app, app_nil_r.
    split; [done|]. split; [lia|]. split; [by intros [|]|].
    intros _. by exists imgs.
  - intros [= <- <-]. exists calls. split; [done|]. split; [done|].
    split; [intros _; by apply Hnil|]. intros [=].
  - intros [= <- <-]. exists calls. split; [done|]. split; [done|].
    split; [by intros [|]|]. intros [=].
Qed.

(** X15: one chunk hands at most one batch to the processor: none when
    the chunk is skipped or has no valid frame, exactly one, which is
    not empty, when the chunk is processed. *)
Theorem processor_called_at_most_once_per_chunk c w :
  exists calls,
    processor_calls (trace (fst (process_chunk fzero E c w)))
    = processor_calls (trace w) ++ calls /\
    length calls <= 1 /\
    (snd (process_chunk fzero E c w) = Finished AlreadyProcessed \/
     snd (process_chunk fzero E c w) = Finished NoValidFrames -> calls = []) /\
    (snd (process_chunk fzero E c w) = Finished Processed ->
     exists imgs, calls = [imgs] /\ imgs <> []).
Proof.
  unfold process_chunk.
  destruct (process_body fzero E c w) as [wb [s|e]] eqn:Hbody;
    apply process_body_calls in Hbody as (calls & Hc & Hlen & Hnil & Hone);
    exists calls; simpl.
  - split; [done|]. split; [done|]. split.
    + intros [[= ->]|[= ->]]; apply Hnil; auto.
    + intros [= ->]. by apply Hone.
  - rewrite processor_calls_app, app_nil_r.
    split; [done|]. split; [done|]. split; [by intros [|]|]. intros [=].
Qed.

(** X16: a chunk whose frame tensor has rank 0, or rank 1 and at least
    one entry, fails with the [IndexError] of [shape[0]] or of
    [shape[-1]]: no file changes and the processor is not called. *)
Theorem frame_tensor_below_rank_two_fails c out w w1 fd :
  output_path c = Ok out -> files w !! out = None ->
  load_frame_data c w = (w1, Ok fd) ->
  stored_shape fd = [] \/ (exists n, stored_shape fd = [S n]) ->
  snd (process_chunk fzero E c w) = Failed IndexError /\
  files (fst (process_chunk fzero E c w)) = files w /\
  processor_calls (trace (fst (process_chunk fzero E c w)))
  = processor_calls (trace w).
Proof.
  unfold output_path.
  destruct (Pth.relative_to c BASE_DIR) as [rel|e] eqn:Hrel; [|done].
  intros [= <-] Hnone Hload Hshape.
  pose proof (load_frame_data_spec _ _ _ _ Hload) as [Hw1 _].
  unfold process_chunk. rewrite process_body_unfold, Hrel. cbv zeta.
  rewrite Hnone, Hload.
  assert (Hc1 : processor_calls (trace w1) = processor_calls (trace w)).
  { subst w1. simpl. by rewrite processor_calls_app, app_nil_r. }
  assert (Hf1 : files w1 = files w) by (by subst w1).
  destruct Hshape as [Hsh|[n Hsh]].
  - unfold frames_of. rewrite Hsh. simpl.
    by rewrite processor_calls_app, app_nil_r.
  - unfold frames_of. rewrite Hsh.
    change (seq 0 (S n)) with (0 :: seq 1 n). rewrite map_cons.
    unfold embed_frames. rewrite bind_unfold. simpl validate_loop.
    rewrite bind_unfold.
    destruct (check_frame_classify (chunk_name c) 0
                (astype_uint8 E (stored_block [] 0 fd)) w1) as (evs & -> & Hw).
    replace (classify (astype_uint8 E (stored_block [] 0 fd)))
      with (@Raise FrameRecord IndexError) by (by destruct fd).
    simpl. rewrite !processor_calls_app, (processor_calls_writes evs Hw).
    simpl. by rewrite !app_nil_r.
Qed.

End ModelCalls.

Lemma frame_tensor_below_rank_two_fails_witness :
  snd (process_chunk 0%Z Demo.env Demo.chunk_bar
         (Demo.world_of
            [(Demo.chunk_bar, [("frame_data", Tensor [2] [1; 2]%Z)])]))
  = Failed IndexError /\
  files (fst (process_chunk 0%Z Demo.env Demo.chunk_bar
                (Demo.world_of
                   [(Demo.chunk_bar, [("frame_data", Tensor [2] [1; 2]%Z)])])))
  = files (Demo.world_of
             [(Demo.chunk_bar, [("frame_data", Tensor [2] [1; 2]%Z)])]) /\
  processor_calls
    (trace (fst (process_chunk 0%Z Demo.env Demo.chunk_bar
                   (Demo.world_of
                      [(Demo.chunk_bar, [("frame_data", Tensor [2] [1; 2]%Z)])]))))
  = processor_calls
      (trace (Demo.world_of
                [(Demo.chunk_bar, [("frame_data", Tensor [2] [1; 2]%Z)])])).
Proof.
  apply (frame_tensor_below_rank_two_fails 0%Z Demo.env Demo.chunk_bar
           Demo.out_bc
           (Demo.world_of
              [(Demo.chunk_bar, [("frame_data", Tensor [2] [1; 2]%Z)])])
           (fst (load_frame_data Demo.chunk_bar
                   (Demo.world_of
                      [(Demo.chunk_bar, [("frame_data", Tensor [2] [1; 2]%Z)])])))
           (IntT (Tensor [2] [1; 2]%Z))).
  - reflexivity.
  - vm_compute. reflexivity.
  - apply pair_from_snd. vm_compute. reflexivity.
  - right. exists 1. reflexivity.
Defined.

(** ** The loader and the chunk that goes through *)

Lemma dict_get_first {V} (a : list (string * V)) kv :
  List.find (fun kv => is_frame_key (fst kv)) a = Some kv ->
  List.find is_frame_key (map fst a) = Some (fst kv) /\
  dict_get (fst kv) a = Ok (snd kv).
Proof.
  induction a as [|[k v] rest IH]; [done|]. simpl.
  destruct (is_frame_key k) eqn:Hk.
  - intros [= <-]. simpl. by rewrite String.eqb_refl.
  - intros Hrest. destruct (IH Hrest) as [Hkey Hget]. split; [done|].
    destruct (String.eqb k (fst kv)) eqn:Heq; [|done].
    apply String.eqb_eq in Heq. subst k.
    apply find_some in Hrest as [_ Hfk]. congruence.
Qed.

Lemma find_frame_key_none {V} (a : list (string * V)) :
  List.find (fun kv => is_frame_key (fst kv)) a = None ->
  List.find is_frame_key (map fst a) = None.
Proof.
  induction a as [|[k v] rest IH]; [done|]. simpl.
  by destruct (is_frame_key k).
Qed.

Section GoodChunk.

Context {F Image : Type} (fzero : F) (E : @Env F Image).

Implicit Types (w : @World F Image).

Lemma load_frame_data_result c w :
  load_frame_data c w
  = (mkWorld (files w) (trace w ++ [SafeOpen c]),
     match files w !! c with
     | Some (File (Archive a)) =>
         match List.find (fun kv => is_frame_key (fst kv)) a with
         | Some kv => Ok (snd kv)
         | None => Raise StopIteration
         end
     | _ => Raise OSError
     end).
Proof.
  unfold load_frame_data. run_monad.
  destruct (files w !! c) as [[|[a|]]|]; try done.
  destruct (List.find (fun kv => is_frame_key (fst kv)) a) as [kv|] eqn:Hfind.
  - destruct (dict_get_first a kv Hfind) as [-> Hget]. by rewrite <- Hget.
  - by rewrite (find_frame_key_none a Hfind).
Qed.

Lemma validate_loop_ok name frames : forall i imgs0 idxs0 w new,
  Forall (fun f => exists r, classify f = Ok r) frames ->
  mapE (fromarray E) (valid_frames i frames).*2 = Ok new ->
  snd (validate_loop E name i frames imgs0 idxs0 w)
  = Ok (imgs0 ++ new, idxs0 ++ (valid_frames i frames).*1).
Proof.
  induction frames as [|f rest IH]; intros i imgs0 idxs0 w new Hall Hnew.
  - simpl in *. injection Hnew as <-. by rewrite !app_nil_r.
  - apply Forall_cons_1 in Hall as [[r Hr] Hall].
    simpl validate_loop. rewrite bind_unfold.
    destruct (check_frame_classify name i f w) as (evs & -> & _).
    simpl valid_frames in *. rewrite Hr in *. cbv beta iota.
    destruct r as [arr|why].
    + rewrite fmap_cons in Hnew. simpl in Hnew.
      destruct (fromarray E arr) as [img|e] eqn:Himg; [|done].
      destruct (mapE (fromarray E) (valid_frames (S i) rest).*2)
        as [bs|e] eqn:Hbs; [|done].
      injection Hnew as <-.
      rewrite bind_unfold. unfold lift at 1.
      rewrite (IH (S i) _ _ _ bs Hall Hbs).
      rewrite fmap_cons. simpl. by rewrite <- !app_assoc.
    + by apply IH.
Qed.

Lemma embed_frames_ok name frames w imgs pooled ed :
  Forall (fun f => exists r, classify f = Ok r) frames ->
  mapE (fromarray E) (valid_frames 0 frames).*2 = Ok imgs -> imgs <> [] ->
  extract E imgs = Ok pooled ->
  realign fzero (length frames) (valid_frames 0 frames).*1 pooled = Ok ed ->
  snd (embed_frames fzero E name frames w) = Ok (Some ed).
Proof.
  intros Hall Himgs Hne Hex Hre.
  pose proof (validate_loop_ok name frames 0 [] [] w imgs Hall Himgs) as Hloop.
  unfold embed_frames. rewrite bind_unfold.
  destruct (validate_loop E name 0 frames [] [] w) as [w1 r]. simpl in Hloop.
  subst r. destruct imgs as [|img imgs]; [done|].
  rewrite bind_unfold.
  pose proof (encode_batch_result E (img :: imgs) w1) as Henc.
  destruct (encode_batch E (img :: imgs) w1) as [w2 r]. simpl in Henc.
  rewrite Henc, Hex. run_monad. by rewrite Hre.
Qed.

Lemma mkdir_ok (p : Path) w fs' :
  mkdir_from [] p (files w) = Ok fs' ->
  mkdir p w = (mkWorld fs' (trace w ++ [Mkdir p]), Ok tt).
Proof. intros Hmk. unfold mkdir. run_monad. by rewrite Hmk. Qed.

Lemma save_file_ok a (p : Path) w :
  files w !! p = None -> files w !! (Pth.parent p : Path) = Some Dir ->
  save_outcome E p a = SaveOk ->
  save_file E a p w
  = (mkWorld (<[p := File (Archive a)]> (files w)) (trace w ++ [SaveFile a p]),
     Ok tt).
Proof.
  intros Hp Hparent Hsave. unfold save_file. run_monad.
  by rewrite Hp, Hparent, Hsave.
Qed.

Lemma mkdir_from_total todo : forall done (fs : gmap Path (@node F)),
  (forall k, 0 < k <= length todo ->
     forall c, fs !! (done ++ take k todo : Path) <> Some (File c)) ->
  exists fs', mkdir_from done todo fs = Ok fs'.
Proof.
  induction todo as [|part rest IH]; intros done fs Hclear; [by eexists|].
  simpl.
  assert (Hrest : forall fs1,
    (forall q : Path, length done + 1 < length q -> fs1 !! q = fs !! q) ->
    exists fs', mkdir_from (done ++ [part]) rest fs1 = Ok fs').
  { intros fs1 Hsame. apply IH. intros k Hk c.
    rewrite Hsame.
    - rewrite <- app_assoc. apply (Hclear (S k)). simpl. lia.
    - rewrite !length_app, length_take. simpl. lia. }
  destruct (fs !! (done ++ [part])) as [[|c]|] eqn:Hp.
  - by apply Hrest.
  - exfalso. apply (Hclear 1 ltac:(simpl; lia) c).
    simpl. by destruct rest.
  - apply Hrest. intros q Hq. apply lookup_insert_ne.
    intros <-. rewrite length_app in Hq. simpl in Hq. lia.
Qed.

Lemma clear_for_mkdir_spec (fs : gmap Path (@node F)) (p : Path) :
  clear_for_mkdir fs p = true -> exists fs', mkdir_from [] p fs = Ok fs'.
Proof.
  intros Hclear. apply mkdir_from_total. intros k Hk c Hfile.
  unfold clear_for_mkdir in Hclear. rewrite forallb_forall in Hclear.
  specialize (Hclear k). simpl in Hfile. rewrite Hfile in Hclear.
  assert (Hin : In k (seq 1 (length p))) by (apply in_seq; lia).
  by specialize (Hclear Hin).
Qed.

(** X18: a chunk at [dirs/file] that has no output yet goes through
    when its archive has a frame tensor with a valid frame, every image
    can be built, the encoder returns at least one row, no file is in
    the way of the output directory and the write succeeds: the outcome
    is Processed and the output holds the frame tensor and one
    embedding row per frame. *)
Theorem well_formed_chunk_is_processed
    dirs file w a kv frames imgs pooled m dsh :
  forallb plain (dirs ++ [file]) = true ->
  files w !! (OUTPUT_DIR ++ map bar_to_underscore dirs
                ++ [bar_to_underscore (Pth.stem [file])
                    +:+ "_embedded.safetensors"] : Path) = None ->
  files w !! (BASE_DIR ++ dirs ++ [file] : Path) = Some (File (Archive a)) ->
  List.find (fun kv => is_frame_key (fst kv)) a = Some kv ->
  frames_of E (snd kv) = Ok frames ->
  mapE (fromarray E) (valid_frames 0 frames).*2 = Ok imgs -> imgs <> [] ->
  extract E imgs = Ok pooled -> shape pooled = S m :: dsh ->
  clear_for_mkdir (files w) (OUTPUT_DIR ++ map bar_to_underscore dirs) = true ->
  (forall p arch, save_outcome E p arch = SaveOk) ->
  exists ed,
    snd (process_chunk fzero E (BASE_DIR ++ dirs ++ [file]) w)
    = Finished Processed /\
    files (fst (process_chunk fzero E (BASE_DIR ++ dirs ++ [file]) w))
      !! (OUTPUT_DIR ++ map bar_to_underscore dirs
            ++ [bar_to_underscore (Pth.stem [file])
                +:+ "_embedded.safetensors"] : Path)
    = Some (File (Archive (output_archive (snd kv) ed))) /\
    shape ed = length frames :: dsh.
Proof.
  intros Hplain Hnone Hfile Hfind Hframes Himgs Hne Hex Hsh Hclear Hsave.
  destruct (clear_for_mkdir_spec _ _ Hclear) as [fs' Hmk].
  assert (Hop : output_path_of (BASE_DIR ++ dirs ++ [file]) (dirs ++ [file])
                = OUTPUT_DIR ++ map bar_to_underscore dirs
                  ++ [bar_to_underscore (Pth.stem [file])
                      +:+ "_embedded.safetensors"]).
  { pose proof (output_path_plain dirs file Hplain) as Hop.
    unfold output_path in Hop. rewrite relative_to_app in Hop. congruence. }
  set (out := OUTPUT_DIR ++ map bar_to_underscore dirs
                ++ [bar_to_underscore (Pth.stem [file])
                    +:+ "_embedded.safetensors"]) in *.
  assert (Hvalid : Forall (fun f => is_valid f = true) frames).
  { destruct (frames_classified_alike E _ _ Hframes) as [Hv|Hv]; [done|].
    rewrite (valid_frames_none frames 0 Hv) in Himgs.
    simpl in Himgs. congruence. }
  assert (Hall : Forall (fun f => exists r, classify f = Ok r) frames).
  { eapply Forall_impl; [exact Hvalid|]. intros f Hf. unfold is_valid in Hf.
    destruct (classify f) as [r|e]; [by exists r|done]. }
  assert (Hlen : 0 < length frames).
  { destruct frames; [|simpl; lia]. simpl in Himgs. congruence. }
  destruct (realign_total fzero (length frames) (valid_frames 0 frames).*1
              pooled m dsh Hsh Hlen) as (ed & Hre & Hed).
  { apply Forall_forall. intros i Hi.
    pose proof (valid_frames_bound frames 0 i Hi). lia. }
  exists ed.
  unfold process_chunk.
  rewrite process_body_unfold, relative_to_app. cbv zeta.
  rewrite Hop, Hnone, load_frame_data_result, Hfile, Hfind, Hframes.
  set (w1 := mkWorld (files w) (trace w ++ [SafeOpen (BASE_DIR ++ dirs ++ [file])])).
  pose proof (embed_frames_ok (chunk_name (BASE_DIR ++ dirs ++ [file]))
                frames w1 imgs pooled ed Hall Himgs Hne Hex Hre) as Hemb.
  destruct (embed_frames fzero E (chunk_name (BASE_DIR ++ dirs ++ [file]))
              frames w1) as [w2 r] eqn:Hrun.
  simpl in Hemb. subst r.
  apply embed_frames_spec in Hrun as (Hf2 & _).
  rewrite (output_dir_plain dirs file Hplain).
  assert (Hmk2 : mkdir_from [] (OUTPUT_DIR ++ map bar_to_underscore dirs)
                   (files w2) = Ok fs') by (by rewrite Hf2).
  rewrite (mkdir_ok _ w2 fs' Hmk2).
  rewrite save_file_ok; [|  | |apply Hsave].
  - simpl. by rewrite lookup_insert_eq.
  - simpl files.
    destruct (mkdir_from_spec _ _ _ _ Hmk out) as [->|(_ & _ & Hl)]; [done|].
    unfold out in Hl. rewrite app_assoc, length_app in Hl. simpl in Hl. lia.
  - simpl files. unfold out. rewrite app_assoc.
    assert (Hf : plain (bar_to_underscore (Pth.stem [file])
                        +:+ "_embedded.safetensors") = true).
    { assert (Hfp : plain file = true).
      { rewrite forallb_app in Hplain. apply andb_prop in Hplain as [_ Hfp].
        simpl in Hfp. by rewrite andb_true_r in Hfp. }
      apply embedded_name_plain. rewrite bar_no_slash. by apply stem_no_slash. }
    rewrite (parent_snoc _ _ Hf).
    pose proof (mkdir_from_makes_directories
                  (OUTPUT_DIR ++ map bar_to_underscore dirs) [] _ _ Hmk
                  (length (OUTPUT_DIR ++ map bar_to_underscore dirs))) as Hd.
    rewrite firstn_all in Hd. apply Hd.
    rewrite length_app. unfold OUTPUT_DIR. simpl. lia.
Qed.

End GoodChunk.

Lemma well_formed_chunk_is_processed_witness :
  exists ed,
    snd (process_chunk 0%Z Demo.env (BASE_DIR ++ ["a"] ++ ["b|c.safetensors"])
           Demo.w_rgb) = Finished Processed /\
    files (fst (process_chunk 0%Z Demo.env
                  (BASE_DIR ++ ["a"] ++ ["b|c.safetensors"]) Demo.w_rgb))
      !! (OUTPUT_DIR ++ map bar_to_underscore ["a"]
            ++ [bar_to_underscore (Pth.stem ["b|c.safetensors"])
                +:+ "_embedded.safetensors"] : Path)
    = Some (File (Archive (output_archive (IntT Demo.two_rgb) ed))) /\
    shape ed = 2 :: [3].
Proof.
  apply (well_formed_chunk_is_processed 0%Z Demo.env ["a"] "b|c.safetensors"
           Demo.w_rgb [("frame_data", IntT Demo.two_rgb)]
           ("frame_data", IntT Demo.two_rgb)
           [Tensor [1; 1; 3] [1; 2; 3]%Z; Tensor [1; 1; 3] [4; 5; 6]%Z]
           [Tensor [1; 1; 3] [1; 2; 3]%Z; Tensor [1; 1; 3] [4; 5; 6]%Z]
           (Tensor [2; 3] [1; 2; 3; 4; 5; 6]%Z) 1 [3]).
  - reflexivity.
  - vm_compute. reflexivity.
  - vm_compute. reflexivity.
  - reflexivity.
  - reflexivity.
  - reflexivity.
  - discriminate.
  - reflexivity.
  - reflexivity.
  - vm_compute. reflexivity.
  - reflexivity.
Defined.

(** ** The run as a whole *)

Section WholeRun.

Context {F Image : Type} (fzero : F) (E : @Env F Image).

Implicit Types (w : @World F Image).

(** X19: when two chunks of a run have the same output path and the
    earlier one is processed, the later one is skipped as already
    processed, whatever lies between them. *)
Theorem later_chunk_with_same_output_is_skipped
    before a middle b after w (out : Path) :
  output_path a = Ok out -> output_path b = Ok out ->
  snd (process_chunk fzero E a (fst (main_loop fzero E before w)))
  = Finished Processed ->
  exists os1 os2 os3,
    snd (main_loop fzero E (before ++ a :: middle ++ b :: after) w)
    = os1 ++ Finished Processed :: os2 ++ Finished AlreadyProcessed :: os3 /\
    length os1 = length before /\ length os2 = length middle.
Proof.
  intros Ha Hb Hproc.
  set (w0 := fst (main_loop fzero E before w)) in *.
  set (w1 := fst (process_chunk fzero E a w0)).
  set (w2 := fst (main_loop fzero E middle w1)).
  assert (Hout1 : exists x, files w1 !! out = Some x).
  { assert (Hpa : process_chunk fzero E a w0 = (w1, Finished Processed)).
    { rewrite <- Hproc. apply surjective_pairing. }
    apply process_chunk_processed in Hpa
      as (rel & fd & frames & wa & wb & ed & fs' & Hrel & _ & _ & _ & _ & _ & Hf & _).
    unfold output_path in Ha. rewrite Hrel in Ha. injection Ha as Ha.
    rewrite Hf, Ha, lookup_insert_eq. by eexists. }
  destruct Hout1 as [x Hx].
  assert (Hout2 : is_Some (files w2 !! out)).
  { exists x. by apply main_loop_entries_kept. }
  pose proof (process_chunk_skip fzero E b w2 out Hb Hout2) as Hskip.
  exists (snd (main_loop fzero E before w)),
         (snd (main_loop fzero E middle w1)),
         (snd (main_loop fzero E after (fst (process_chunk fzero E b w2)))).
  split; [|split; apply main_loop_length].
  rewrite main_loop_app. cbn [fst snd]. f_equal.
  rewrite main_loop_cons. cbn [fst snd]. fold w0. rewrite Hproc. f_equal.
  fold w1. rewrite main_loop_app. cbn [fst snd]. f_equal.
  rewrite main_loop_cons. cbn [fst snd]. fold w2. by rewrite Hskip.
Qed.

End WholeRun.

Lemma later_chunk_with_same_output_is_skipped_witness :
  exists os1 os2 os3,
    snd (main_loop 0%Z Demo.env
           ([] ++ Demo.chunk_bar :: [] ++ Demo.chunk_underscore :: []) Demo.w_both)
    = os1 ++ Finished Processed :: os2 ++ Finished AlreadyProcessed :: os3 /\
    length os1 = length (@nil Path) /\ length os2 = length (@nil Path).
Proof.
  apply (later_chunk_with_same_output_is_skipped 0%Z Demo.env
           [] Demo.chunk_bar [] Demo.chunk_underscore [] Demo.w_both Demo.out_bc).
  - reflexivity.
  - reflexivity.
  - vm_compute. reflexivity.
Defined.

(** ** The keys the loader accepts *)

Lemma lower_ascii_letter l c :
  97 <= nat_of_ascii l <= 122 ->
  Str.lower_ascii c = l <-> letter_any_case l c.
Proof.
  intros Hl. unfold Str.lower_ascii, letter_any_case.
  destruct ((65 <=? nat_of_ascii c) && (nat_of_ascii c <=? 90)) eqn:Hup.
  - apply andb_prop in Hup as [H1%Nat.leb_le H2%Nat.leb_le]. split.
    + intros <-. right. rewrite nat_ascii_embedding; lia.
    + intros [->|Heq]; [lia|]. by rewrite Heq, ascii_nat_embedding.
  - apply andb_false_iff in Hup. split; [intros ->; by left|].
    intros [->|Heq]; [done|].
    destruct Hup as [H%Nat.leb_gt|H%Nat.leb_gt]; lia.
Qed.

Lemma prefix_cons a s b t :
  String.prefix (String a s) (String b t) = Ascii.eqb a b && String.prefix s t.
Proof.
  simpl. destruct (ascii_dec a b) as [->|Hne].
  - by rewrite Ascii.eqb_refl.
  - apply Ascii.eqb_neq in Hne. by rewrite Hne.
Qed.

Lemma eqb_lower_letter l c :
  97 <= nat_of_ascii l <= 122 ->
  Ascii.eqb l (Str.lower_ascii c) = true <-> letter_any_case l c.
Proof.
  intros Hl. rewrite Ascii.eqb_eq, <- (lower_ascii_letter l c Hl).
  split; by intros ->.
Qed.

Lemma prefix_frame_lower k :
  String.prefix "frame" (Str.lower k) = true
  <-> exists c1 c2 c3 c4 c5 post,
        k = String c1 (String c2 (String c3 (String c4 (String c5 post)))) /\
        letter_any_case "f" c1 /\ letter_any_case "r" c2 /\
        letter_any_case "a" c3 /\ letter_any_case "m" c4 /\
        letter_any_case "e" c5.
Proof.
  assert (Hrange : forall l, In l ["f"; "r"; "a"; "m"; "e"]%char ->
                             97 <= nat_of_ascii l <= 122).
  { intros l [<-|[<-|[<-|[<-|[<-|[]]]]]]; vm_compute; lia. }
  assert (Hstep : forall c1 c2 c3 c4 c5 post,
    String.prefix "frame"
      (Str.lower (String c1 (String c2 (String c3 (String c4 (String c5 post))))))
    = Ascii.eqb "f" (Str.lower_ascii c1) && (Ascii.eqb "r" (Str.lower_ascii c2)
      && (Ascii.eqb "a" (Str.lower_ascii c3) && (Ascii.eqb "m" (Str.lower_ascii c4)
      && (Ascii.eqb "e" (Str.lower_ascii c5) && true))))).
  { intros. 
    change (Str.lower (String c1 (String c2 (String c3 (String c4 (String c5 post))))))
      with (String (Str.lower_ascii c1) (String (Str.lower_ascii c2)
             (String (Str.lower_ascii c3) (String (Str.lower_ascii c4)
               (String (Str.lower_ascii c5) (Str.lower post)))))).
    rewrite !prefix_cons. by destruct (Str.lower post). }
  split.
  - destruct k as [|c1 [|c2 [|c3 [|c4 [|c5 post]]]]];
      try (change (Str.lower "") with ""; done);
      try (intros H; exfalso; revert H;
           repeat (match goal with
                   | |- context [Str.lower (String ?c ?r)] =>
                       change (Str.lower (String c r))
                         with (String (Str.lower_ascii c) (Str.lower r))
                   end);
           change (Str.lower "") with "";
           rewrite !prefix_cons; simpl String.prefix;
           rewrite ?andb_false_r; done).
    rewrite Hstep.
    intros (H1 & (H2 & (H3 & (H4 & (H5 & _)%andb_prop)%andb_prop)%andb_prop)%andb_prop)%andb_prop.
    exists c1, c2, c3, c4, c5, post. split; [done|].
    repeat split; apply eqb_lower_letter; try done;
      apply Hrange; simpl; tauto.
  - intros (c1 & c2 & c3 & c4 & c5 & post & -> & H1 & H2 & H3 & H4 & H5).
    rewrite Hstep.
    repeat (apply andb_true_intro; split); try done;
      apply eqb_lower_letter; try done; apply Hrange; simpl; tauto.
Qed.

Lemma contains_frame_lower k :
  Str.contains "frame" (Str.lower k) = true
  <-> exists pre rest,
        k = pre +:+ rest /\ String.prefix "frame" (Str.lower rest) = true.
Proof.
  induction k as [|c r IH].
  - split.
    + done.
    + intros (pre & rest & Heq & Hp). destruct pre; [|done].
      rewrite append_nil in Heq. by subst rest.
  - change (Str.contains "frame" (Str.lower (String c r)))
      with (String.prefix "frame" (Str.lower (String c r))
            || Str.contains "frame" (Str.lower r)).
    rewrite orb_true_iff, IH. split.
    + intros [Hp|(pre & rest & -> & Hp)].
      * by exists "", (String c r).
      * by exists (String c pre), rest.
    + intros (pre & rest & Heq & Hp). destruct pre as [|c' pre].
      * left. rewrite append_nil in Heq. by subst rest.
      * right. rewrite append_cons in Heq. injection Heq as -> ->.
        by exists pre, rest.
Qed.

Lemma is_frame_key_spec k : is_frame_key k = true <-> mentions_frame k.
Proof.
  unfold is_frame_key, mentions_frame. rewrite contains_frame_lower. split.
  - intros (pre & rest & -> & Hp). apply prefix_frame_lower in Hp
      as (c1 & c2 & c3 & c4 & c5 & post & -> & H).
    by exists pre, c1, c2, c3, c4, c5, post.
  - intros (pre & c1 & c2 & c3 & c4 & c5 & post & -> & H).
    eexists pre, _. split; [done|]. apply prefix_frame_lower.
    by exists c1, c2, c3, c4, c5, post.
Qed.

Lemma find_first_frame_key {V} (before : list (string * V)) key v after :
  mentions_frame key ->
  Forall (fun kv => ~ mentions_frame (fst kv)) before ->
  List.find (fun kv => is_frame_key (fst kv)) (before ++ (key, v) :: after)
  = Some (key, v).
Proof.
  intros Hkey%is_frame_key_spec Hbefore.
  induction before as [|[k0 v0] before IH]; simpl.
  - by rewrite Hkey.
  - apply Forall_cons_1 in Hbefore as [Hk0 Hbefore]. simpl in Hk0.
    destruct (is_frame_key k0) eqn:Hfk; [|by apply IH].
    by apply is_frame_key_spec in Hfk.
Qed.

Lemma find_no_frame_key {V} (a : list (string * V)) :
  Forall (fun kv => ~ mentions_frame (fst kv)) a ->
  List.find (fun kv => is_frame_key (fst kv)) a = None.
Proof.
  induction a as [|[k0 v0] a IH]; [done|].
  intros [Hk0 Ha]%Forall_cons_1. simpl in *.
  destruct (is_frame_key k0) eqn:Hfk; [|by apply IH].
  by apply is_frame_key_spec in Hfk.
Qed.

Section Loader.

Context {F Image : Type}.

Implicit Types (w : @World F Image).

(** X17: from an archive the loader returns the tensor under the first
    key that contains the word "frame" with each letter in either
    case, whatever keys without it come before; it raises
    [StopIteration] when no key of the archive contains the word, and
    never the [KeyError] of the lookup.  It changes no file. *)
Theorem loader_returns_first_frame_tensor c w a :
  files w !! c = Some (File (Archive a)) ->
  (forall before key v after,
     a = before ++ (key, v) :: after ->
     mentions_frame key ->
     Forall (fun kv => ~ mentions_frame (fst kv)) before ->
     snd (load_frame_data c w) = Ok v) /\
  (Forall (fun kv => ~ mentions_frame (fst kv)) a ->
   snd (load_frame_data c w) = Raise StopIteration) /\
  files (fst (load_frame_data c w)) = files w.
Proof.
  intros Ha. rewrite load_frame_data_result, Ha. simpl. split; [|split; [|done]].
  - intros before key v after -> Hkey Hbefore.
    by rewrite (find_first_frame_key before key v after Hkey Hbefore).
  - intros Hnone. by rewrite (find_no_frame_key a Hnone).
Qed.

End Loader.

Lemma loader_returns_first_frame_tensor_witness :
  files (Demo.world_of
           [(Demo.chunk_bar, [("images", Demo.two_rgb);
                              ("my_FRAMES", Demo.one_rgba);
                              ("frame_data", Demo.two_gray)])])
    !! Demo.chunk_bar
  = Some (File (Archive [("images", IntT Demo.two_rgb);
                         ("my_FRAMES", IntT Demo.one_rgba);
                         ("frame_data", IntT Demo.two_gray)])) /\
  snd (load_frame_data Demo.chunk_bar
         (Demo.world_of
            [(Demo.chunk_bar, [("images", Demo.two_rgb);
                               ("my_FRAMES", Demo.one_rgba);
                               ("frame_data", Demo.two_gray)])]))
  = Ok (IntT Demo.one_rgba).
Proof.
  assert (H : files (Demo.world_of
                       [(Demo.chunk_bar, [("images", Demo.two_rgb);
                                          ("my_FRAMES", Demo.one_rgba);
                                          ("frame_data", Demo.two_gray)])])
                !! Demo.chunk_bar
              = Some (File (Archive [("images", IntT (F:=Z) Demo.two_rgb);
                                     ("my_FRAMES", IntT Demo.one_rgba);
                                     ("frame_data", IntT Demo.two_gray)])))
    by (vm_compute; reflexivity).
  split; [exact H|].
  apply (proj1 (loader_returns_first_frame_tensor _ _ _ H)
           [("images", IntT Demo.two_rgb)] "my_FRAMES" (IntT Demo.one_rgba)
           [("frame_data", IntT Demo.two_gray)] eq_refl).
  - exists "my_", "F"%char, "R"%char, "A"%char, "M"%char, "E"%char, "S".
    split; [reflexivity|].
    repeat split; right; reflexivity.
  - apply List.Forall_cons; [|apply List.Forall_nil].
    simpl. intros Hm. apply is_frame_key_spec in Hm.
    vm_compute in Hm. discriminate Hm.
Defined.

(** ** A capped run *)

Section CappedRun.

Context {F Image : Type} (fzero : F) (E : @Env F Image).

Implicit Types (w : @World F Image).

Lemma main_loop_take cs : forall k w,
  snd (main_loop fzero E (take k cs) w) = take k (snd (main_loop fzero E cs w)).
Proof.
  induction cs as [|c cs IH]; intros k w.
  - rewrite take_nil. simpl. by rewrite take_nil.
  - destruct k as [|k]; [done|].
    change (take (S k) (c :: cs)) with (c :: take k cs).
    rewrite !main_loop_cons. cbn [fst snd]. simpl take. by rewrite IH.
Qed.

(** X20: what a cap keeps.  With [MAX_FILES] a positive [n] the run
    handles the first [n] chunks (all of them when there are fewer),
    with a negative [n] all but the last [-n], and with [None] or [0]
    every chunk; the outcomes of the capped run are the first outcomes
    of the full run, and the full run is the capped run continued over
    the chunks that were cut off. *)
Theorem capped_run_is_prefix_of_full_run cap chunk_paths w :
  let kept :=
    match cap with
    | None => length chunk_paths
    | Some n =>
        if (n =? 0)%Z then length chunk_paths
        else if (0 <? n)%Z then Nat.min (Z.to_nat n) (length chunk_paths)
        else length chunk_paths - Z.to_nat (- n)
    end in
  limit_chunks cap chunk_paths = take kept chunk_paths /\
  length (snd (main_loop fzero E (limit_chunks cap chunk_paths) w)) = kept /\
  snd (main_loop fzero E (limit_chunks cap chunk_paths) w)
  = take kept (snd (main_loop fzero E chunk_paths w)) /\
  main_loop fzero E chunk_paths w
  = (fst (main_loop fzero E (drop kept chunk_paths)
            (fst (main_loop fzero E (limit_chunks cap chunk_paths) w))),
     snd (main_loop fzero E (limit_chunks cap chunk_paths) w)
       ++ snd (main_loop fzero E (drop kept chunk_paths)
                 (fst (main_loop fzero E (limit_chunks cap chunk_paths) w)))).
Proof.
  intros kept.
  assert (Hkept : kept <= length chunk_paths).
  { unfold kept. destruct cap as [n|]; [|done].
    destruct (n =? 0)%Z; [done|]. destruct (0 <? n)%Z; lia. }
  assert (Hlimit : limit_chunks cap chunk_paths = take kept chunk_paths).
  { unfold kept, limit_chunks, slice_to. destruct cap as [n|].
    - destruct (n =? 0)%Z eqn:H0; [by rewrite firstn_all|].
      destruct (0 <? n)%Z eqn:Hpos.
      + apply Z.ltb_lt in Hpos.
        replace (0 <=? n)%Z with true by (symmetry; apply Z.leb_le; lia).
        destruct (Nat.le_gt_cases (Z.to_nat n) (length chunk_paths)).
        * by rewrite Nat.min_l.
        * rewrite Nat.min_r by lia. rewrite firstn_all. by apply take_ge; lia.
      + apply Z.ltb_ge in Hpos. apply Z.eqb_neq in H0.
        by replace (0 <=? n)%Z with false by (symmetry; apply Z.leb_gt; lia).
    - by rewrite firstn_all. }
  split; [done|]. rewrite Hlimit. split; [|split].
  - rewrite main_loop_length, length_take. lia.
  - apply main_loop_take.
  - rewrite <- main_loop_app. by rewrite take_drop.
Qed.

End CappedRun.
